(** * Usage ledger, history log and broadcaster of the chat relay server

    A shallow embedding of the server's accounting core:
    - [tokenUtils.js]   : token estimation and extraction of the model's count,
    - [db.js]           : the SQLite-backed usage ledger and chat history,
    - [wsBroadcast.js]  : fan-out of update messages to the socket registry,
    - [wsHandlers.js]   : dispatch of inbound socket messages,
    - [streamService.js]: the commit sequence of a finished generation,
    - [apiRoutes.js]    : the usage query endpoint,
    - [chatService.js], [chatRoutes.js] : the non-streaming chat and the
                          limit gate of the chat endpoints,
    - [adminService.js], [adminRoutes.js] : the administration endpoints,
    - [wsServer.js]     : the registry of connections,
    - [helpers.js], [logging.js], [auth.js] : the utilities.

    Asynchronous functions are embedded as finite programs over an effect
    signature (SQL statements, socket sends, registry access).  A program
    is given two semantics: a sequential one ([run]) and an interleaving
    one ([run_pool]) in which several programs share one database. *)

From Stdlib Require Import ZArith List String Ascii Bool Lia QArith.
From Stdlib Require Import Permutation Sorted.
Import ListNotations.
Local Open Scope Z_scope.
Set Warnings "-register-all".

(** ** JavaScript values *)

Module JS.

(** Numbers of the program are token counts and limits: integers in the
    range where double arithmetic is exact, and [NaN], which [parseInt]
    and sums over [undefined] produce. *)
Inductive num : Type :=
| NaN
| Int (z : Z).

Inductive val : Type :=
| Undefined
| Null
| Number (n : num).

(** [isNaN(n)] *)
Definition isNaN (n : num) : bool :=
  match n with NaN => true | Int _ => false end.

(** [a <= b], [a > b]: every comparison with [NaN] is false. *)
Definition le (a b : num) : bool :=
  match a, b with Int x, Int y => x <=? y | _, _ => false end.

Definition gt (a b : num) : bool :=
  match a, b with Int x, Int y => y <? x | _, _ => false end.

(** [!n] on a number: [0] and [NaN] are falsy. *)
Definition num_truthy (n : num) : bool :=
  match n with NaN => false | Int z => negb (z =? 0) end.

Definition truthy (v : val) : bool :=
  match v with Number n => num_truthy n | _ => false end.

(** [ToNumber]: [undefined] becomes [NaN], [null] becomes [0]. *)
Definition to_number (v : val) : num :=
  match v with Undefined => NaN | Null => Int 0 | Number n => n end.

Definition num_add (a b : num) : num :=
  match a, b with Int x, Int y => Int (x + y) | _, _ => NaN end.

(** [a + b] on the values above (no string operand). *)
Definition add (a b : val) : val :=
  Number (num_add (to_number a) (to_number b)).

(** [a || b] *)
Definition or (a b : val) : val := if truthy a then a else b.

(** The integer a truthy value denotes; [d] for any other value. *)
Definition int_or (v : val) (d : Z) : Z :=
  match v with
  | Number (Int z) => if z =? 0 then d else z
  | _ => d
  end.

(** Strings are sequences of UTF-16 code units; [length] is the list
    length, [+] is concatenation. *)
Definition code_unit : Type := N.
Definition str : Type := list code_unit.

Definition lit (s : string) : str :=
  map (fun c => N_of_ascii c) (list_ascii_of_string s).

Definition str_eqb (a b : str) : bool :=
  if list_eq_dec N.eq_dec a b then true else false.

Definition length (s : str) : Z := Z.of_nat (List.length s).

(** [StrWhiteSpaceChar]: the white space and the line terminators that
    [parseInt] skips at the start of its input. *)
Definition str_white_space (c : code_unit) : bool :=
  ((9 <=? c) && (c <=? 13) || (c =? 32) || (c =? 160) || (c =? 5760)
   || (8192 <=? c) && (c <=? 8202) || (c =? 8232) || (c =? 8233)
   || (c =? 8239) || (c =? 8287) || (c =? 12288) || (c =? 65279))%N.

Fixpoint trim_start (s : str) : str :=
  match s with
  | [] => []
  | c :: rest => if str_white_space c then trim_start rest else s
  end.

(** The value of a code unit as a digit: [0-9], then [a-z] or [A-Z] for
    ten and more. *)
Definition digit_value (c : code_unit) : option Z :=
  if ((48 <=? c) && (c <=? 57))%N then Some (Z.of_N c - 48)
  else if ((97 <=? c) && (c <=? 122))%N then Some (Z.of_N c - 87)
  else if ((65 <=? c) && (c <=? 90))%N then Some (Z.of_N c - 55)
  else None.

(** The integer the longest prefix of radix-[radix] digits of [s]
    denotes, after the digits read so far ([acc]); [None] when no digit
    was read. *)
Fixpoint digits (radix : Z) (s : str) (acc : option Z) : option Z :=
  match s with
  | [] => acc
  | c :: rest =>
      match digit_value c with
      | Some d =>
          if d <? radix then
            digits radix rest
              (Some (match acc with Some a => a | None => 0 end * radix + d))
          else acc
      | None => acc
      end
  end.

(** [parseInt(v)] without a radix, on [inputString], the string [v]
    converts to: leading white space is skipped, a sign is read, [0x] or
    [0X] selects radix 16, and the longest prefix of digits is the
    result, [NaN] when there is none.  Whatever follows the digits is
    ignored: ["12.9"] gives 12 and ["1e+21"] gives 1.  The result is the
    exact integer; beyond 2^53 the JavaScript number is the nearest
    double, which the program only compares with bounds far below. *)
Definition parseInt (inputString : str) : num :=
  let S := trim_start inputString in
  let (sign, S) :=
    match S with
    | c :: rest =>
        if (c =? 45)%N then (-1, rest)
        else if (c =? 43)%N then (1, rest)
        else (1, S)
    | [] => (1, S)
    end in
  let (R, S) :=
    match S with
    | c :: x :: rest =>
        if ((c =? 48) && ((x =? 120) || (x =? 88)))%N then (16, rest)
        else (10, S)
    | _ => (10, S)
    end in
  match digits R S None with
  | None => NaN
  | Some mathInt => Int (sign * mathInt)
  end.

End JS.

(** ** tokenUtils.js *)

(** [Math.ceil(n / 4)] on a non-negative integer [n]. *)
Definition ceil_div4 (n : Z) : Z := (n + 3) / 4.

(** [simpleTokenEstimate(text)]: the empty string is falsy. *)
Definition simpleTokenEstimate (text : JS.str) : Z :=
  match text with
  | [] => 0
  | _ => ceil_div4 (JS.length text)
  end.

(** [estimateCombinedTokens(input, output)] *)
Definition estimateCombinedTokens (input output : JS.str) : Z :=
  let inputTokens := simpleTokenEstimate input in
  let outputTokens := simpleTokenEstimate output in
  inputTokens + outputTokens.

(** The usage metadata the model API attaches to a response. *)
Record UsageMetadata : Type := {
  totalTokenCount : JS.val;
  promptTokenCount : JS.val;
  candidatesTokenCount : JS.val
}.

Record Candidate : Type := {
  candidate_usageMetadata : option UsageMetadata
}.

Record ApiResponse : Type := {
  usageMetadata : option UsageMetadata;
  candidates : option (list Candidate);
  response_usageMetadata : option (option UsageMetadata)
}.

(** [m.totalTokenCount || (m.promptTokenCount + m.candidatesTokenCount)] *)
Definition metadata_count (m : UsageMetadata) : JS.val :=
  JS.or (totalTokenCount m)
        (JS.add (promptTokenCount m) (candidatesTokenCount m)).

(** [extractGeminiTokenCount(apiResponse)]; a missing response is [None]. *)
Definition extractGeminiTokenCount (apiResponse : option ApiResponse) : JS.val :=
  match apiResponse with
  | None => JS.Null
  | Some r =>
      let tokenCount := JS.Null in
      let tokenCount :=
        match usageMetadata r with
        | Some m => metadata_count m
        | None => tokenCount
        end in
      let tokenCount :=
        if JS.truthy tokenCount then tokenCount else
          match candidates r with
          | Some (candidate :: _) =>
              match candidate_usageMetadata candidate with
              | Some m => metadata_count m
              | None => tokenCount
              end
          | _ => tokenCount
          end in
      let tokenCount :=
        if JS.truthy tokenCount then tokenCount else
          match response_usageMetadata r with
          | Some (Some m) => metadata_count m
          | _ => tokenCount
          end in
      tokenCount
  end.

(** ** The SQLite store (db.js) *)

(** A row of [usage_stats]; its primary key is never read. *)
Record UsageRow : Type := {
  total_tokens_used : Z;
  total_limit : Z
}.

(** A row of [chat_history]. *)
Record ChatRow : Type := {
  chat_id : Z;
  user_input : JS.str;
  response : JS.str;
  gemini_token_count : Z;
  tiktoken_estimate : option Z;
  model : JS.str;
  temperature : Q;
  max_tokens : Z;
  timestamp : Z
}.

Record Tables : Type := {
  usage_stats : list UsageRow;
  chat_history : list ChatRow;
  token_comparisons : list Z;
  sqlite_sequence : list (string * Z)
}.

(** One connection to the database file.  [working] is the uncommitted
    copy of the tables while a transaction is open; [faults] schedules the
    failures of the store: each statement consumes the head, and fails when
    it is [true]. *)
Record Database : Type := {
  committed : Tables;
  working : option Tables;
  faults : list bool
}.

(** Statements passed to [database.run] and [database.exec]. *)
Inductive Command : Type :=
| CreateTables
| InsertUsageStats (used limit : Z)
| InsertChatHistory (userInput response : JS.str) (tokenCount : Z)
    (tiktoken : option Z) (model : JS.str) (temperature : Q) (maxTokens : Z)
| AddTokensUsed (n : Z)
| SetTotalLimit (n : Z)
| ResetTokensUsed
| DeleteTokenComparisons
| DeleteChatHistory
| DeleteSequence (names : list string)
| BeginTransaction
| Commit
| Rollback.

(** Statements passed to [database.get] and [database.all]. *)
Inductive Query : Type -> Type :=
| SelectUsageStats : Query (option UsageRow)
| SelectTotalLimit : Query (option Z)
| SelectRecentChats (limit : Z) : Query (list ChatRow).

Inductive Error : Type :=
| InvalidTokenLimit
| InvalidExtensionAmount
| ExtensionExceedsMaximum (maxAllowedExtension : Z)
| UsageStatsNotFound
| SqliteError (message : string)
| SendError
| UpstreamError (message : string).

(** The error taxonomy of the design document. *)
Inductive ErrorKind : Type :=
| InvalidArgument
| LimitExceeded
| StorageFailure
| UpstreamFailure
| TransportFailure.

Definition error_kind (e : Error) : ErrorKind :=
  match e with
  | InvalidTokenLimit | InvalidExtensionAmount => InvalidArgument
  | ExtensionExceedsMaximum _ => LimitExceeded
  | UsageStatsNotFound | SqliteError _ => StorageFailure
  | SendError => TransportFailure
  | UpstreamError _ => UpstreamFailure
  end.

Inductive Result (A : Type) : Type :=
| Ok (a : A)
| Fail (e : Error).
Arguments Ok {A} a.
Arguments Fail {A} e.

Module Sql.

Definition set_usage_stats (t : Tables) (u : list UsageRow) : Tables :=
  {| usage_stats := u; chat_history := chat_history t;
     token_comparisons := token_comparisons t;
     sqlite_sequence := sqlite_sequence t |}.

Definition add_tokens (n : Z) (r : UsageRow) : UsageRow :=
  {| total_tokens_used := total_tokens_used r + n;
     total_limit := total_limit r |}.

Definition set_limit (n : Z) (r : UsageRow) : UsageRow :=
  {| total_tokens_used := total_tokens_used r; total_limit := n |}.

Definition reset_tokens (r : UsageRow) : UsageRow :=
  {| total_tokens_used := 0; total_limit := total_limit r |}.

(** The [seq] column of the [sqlite_sequence] row of a table. *)
Definition seq_of (name : string) (s : list (string * Z)) : Z :=
  match find (fun p => String.eqb (fst p) name) s with
  | Some p => snd p
  | None => 0
  end.

Fixpoint set_seq (name : string) (v : Z) (s : list (string * Z))
  : list (string * Z) :=
  match s with
  | [] => [(name, v)]
  | p :: s' =>
      if String.eqb (fst p) name then (name, v) :: s'
      else p :: set_seq name v s'
  end.

Definition max_rowid (rows : list ChatRow) : Z :=
  fold_right Z.max 0 (map chat_id rows).

(** AUTOINCREMENT: one more than the largest key ever used. *)
Definition next_chat_id (t : Tables) : Z :=
  Z.max (seq_of "chat_history" (sqlite_sequence t))
        (max_rowid (chat_history t)) + 1.

(** AUTOINCREMENT of [usage_stats].  The rows of the model carry no key:
    no statement of the program reads it, and the program never deletes
    the [usage_stats] entry of [sqlite_sequence], which therefore stands
    for the largest key ever used.  The one INSERT of the program is
    issued for a table found empty (db.js:57-60). *)
Definition next_usage_id (t : Tables) : Z :=
  Z.max (seq_of "usage_stats" (sqlite_sequence t)) 0 + 1.

(** ORDER BY timestamp DESC; rows of equal timestamp keep table order. *)
Fixpoint insert_desc (r : ChatRow) (l : list ChatRow) : list ChatRow :=
  match l with
  | [] => [r]
  | x :: xs =>
      if timestamp x <=? timestamp r then r :: l
      else x :: insert_desc r xs
  end.

Definition order_by_timestamp_desc (l : list ChatRow) : list ChatRow :=
  fold_right insert_desc [] l.

(** LIMIT ?: a negative bound means no bound. *)
Definition sql_limit {A : Type} (n : Z) (l : list A) : list A :=
  if n <? 0 then l else firstn (Z.to_nat n) l.

(** The effect of a data statement on the tables; the second component
    is [lastID], meaningful after an INSERT. *)
Definition apply (clock : Z) (c : Command) (t : Tables) : Tables * Z :=
  match c with
  | CreateTables => (t, 0)
  | InsertUsageStats used limit =>
      let i := next_usage_id t in
      ({| usage_stats :=
            usage_stats t ++
              [{| total_tokens_used := used; total_limit := limit |}];
          chat_history := chat_history t;
          token_comparisons := token_comparisons t;
          sqlite_sequence := set_seq "usage_stats" i (sqlite_sequence t) |},
       i)
  | InsertChatHistory u r n tk m temp mt =>
      let i := next_chat_id t in
      ({| usage_stats := usage_stats t;
          chat_history :=
            chat_history t ++
              [{| chat_id := i; user_input := u; response := r;
                  gemini_token_count := n; tiktoken_estimate := tk;
                  model := m; temperature := temp; max_tokens := mt;
                  timestamp := clock |}];
          token_comparisons := token_comparisons t;
          sqlite_sequence := set_seq "chat_history" i (sqlite_sequence t) |},
       i)
  | AddTokensUsed n =>
      (set_usage_stats t (map (add_tokens n) (usage_stats t)), 0)
  | SetTotalLimit n =>
      (set_usage_stats t (map (set_limit n) (usage_stats t)), 0)
  | ResetTokensUsed =>
      (set_usage_stats t (map reset_tokens (usage_stats t)), 0)
  | DeleteTokenComparisons =>
      ({| usage_stats := usage_stats t; chat_history := chat_history t;
          token_comparisons := [];
          sqlite_sequence := sqlite_sequence t |}, 0)
  | DeleteChatHistory =>
      ({| usage_stats := usage_stats t; chat_history := [];
          token_comparisons := token_comparisons t;
          sqlite_sequence := sqlite_sequence t |}, 0)
  | DeleteSequence names =>
      ({| usage_stats := usage_stats t; chat_history := chat_history t;
          token_comparisons := token_comparisons t;
          sqlite_sequence :=
            filter (fun p => negb (existsb (String.eqb (fst p)) names))
                   (sqlite_sequence t) |}, 0)
  | BeginTransaction | Commit | Rollback => (t, 0)
  end.

(** The tables a statement sees: the working copy inside a transaction. *)
Definition view (d : Database) : Tables :=
  match working d with Some t => t | None => committed d end.

Definition write (d : Database) (t : Tables) : Database :=
  match working d with
  | Some _ =>
      {| committed := committed d; working := Some t; faults := faults d |}
  | None =>
      {| committed := t; working := None; faults := faults d |}
  end.

Definition run (clock : Z) (c : Command) (d : Database)
  : Database * Result Z :=
  match c with
  | BeginTransaction =>
      match working d with
      | Some _ =>
          (d, Fail (SqliteError
                      "cannot start a transaction within a transaction"))
      | None =>
          ({| committed := committed d; working := Some (committed d);
              faults := faults d |}, Ok 0)
      end
  | Commit =>
      match working d with
      | Some t =>
          ({| committed := t; working := None; faults := faults d |}, Ok 0)
      | None =>
          (d, Fail (SqliteError "cannot commit - no transaction is active"))
      end
  | Rollback =>
      match working d with
      | Some _ =>
          ({| committed := committed d; working := None;
              faults := faults d |}, Ok 0)
      | None =>
          (d, Fail (SqliteError "cannot rollback - no transaction is active"))
      end
  | _ =>
      let (t, i) := apply clock c (view d) in (write d t, Ok i)
  end.

Definition query {R : Type} (q : Query R) (t : Tables) : R :=
  match q in Query R return R with
  | SelectUsageStats => hd_error (usage_stats t)
  | SelectTotalLimit => option_map total_limit (hd_error (usage_stats t))
  | SelectRecentChats limit =>
      sql_limit limit (order_by_timestamp_desc (chat_history t))
  end.

(** Each statement first consults the fault schedule. *)
Definition pop_fault (d : Database) : bool * Database :=
  match faults d with
  | [] => (false, d)
  | f :: fs =>
      (f, {| committed := committed d; working := working d;
             faults := fs |})
  end.

End Sql.

(** ** Messages, sockets and the world *)

(** JSON payloads sent over sockets and HTTP.  [JTemplate] is a template
    string, [JDate] the ISO rendering of a clock value, [JChats] an array
    of history rows. *)
Inductive json : Type :=
| JNull
| JBool (b : bool)
| JNum (z : Z)
| JVal (v : JS.val)
| JStr (s : JS.str)
| JDate (t : Z)
| JTemplate (parts : list json)
| JChats (rows : list ChatRow)
| JArr (items : list json)
| JObj (fields : list (string * json)).

(** [j.name]; [None] when the property is absent. *)
Definition field (name : string) (j : json) : option json :=
  match j with
  | JObj fields =>
      option_map snd (find (fun p => String.eqb (fst p) name) fields)
  | _ => None
  end.

(** Sockets are identified by a number. *)
Abbreviation WsId := nat (only parsing).

(** [ws.readyState] *)
Inductive ReadyState : Type := CONNECTING | OPEN | CLOSING | CLOSED.

Definition is_open (s : ReadyState) : bool :=
  match s with OPEN => true | _ => false end.

Definition is_closed_or_closing (s : ReadyState) : bool :=
  match s with CLOSED | CLOSING => true | _ => false end.

(** The metadata [wsClients] keeps for a socket. *)
Record ClientInfo : Type := {
  client_id : JS.str;
  ip : JS.str;
  connectedAt : Z;
  isAdmin : bool;
  lastActivity : Z
}.

(** Observable effects, oldest first: statements the store executed,
    messages handed to a socket, items written to a response stream. *)
Inductive Event : Type :=
| EvRun (c : Command) (lastID : Z)
| EvSend (ws : WsId) (message : json)
| EvEnqueue (item : json)
| EvClose
| EvError (e : Error).

(** The process state: the module variable [db], the database behind it,
    the clock, the [wsClients] map in insertion order, and the transports. *)
Record World : Type := {
  db : bool;
  store : Database;
  clock : Z;
  wsClients : list (WsId * ClientInfo);
  readyState : WsId -> ReadyState;
  send_throws : WsId -> bool;
  trace : list Event
}.

Definition with_store (w : World) (d : Database) : World :=
  {| db := db w; store := d; clock := clock w; wsClients := wsClients w;
     readyState := readyState w; send_throws := send_throws w;
     trace := trace w |}.

Definition with_db (w : World) (b : bool) : World :=
  {| db := b; store := store w; clock := clock w; wsClients := wsClients w;
     readyState := readyState w; send_throws := send_throws w;
     trace := trace w |}.

Definition with_clients (w : World) (l : list (WsId * ClientInfo)) : World :=
  {| db := db w; store := store w; clock := clock w; wsClients := l;
     readyState := readyState w; send_throws := send_throws w;
     trace := trace w |}.

Definition log (w : World) (ev : Event) : World :=
  {| db := db w; store := store w; clock := clock w; wsClients := wsClients w;
     readyState := readyState w; send_throws := send_throws w;
     trace := trace w ++ [ev] |}.

(** ** Programs *)

(** The operations a handler performs on its environment. *)
Inductive Eff : Type -> Type :=
| ReadHandle : Eff bool
| OpenDatabase : Eff unit
| Run (c : Command) : Eff Z
| Get {R : Type} (q : Query R) : Eff R
| Clients : Eff (list (WsId * ClientInfo))
| ClientsDelete (ws : WsId) : Eff unit
| ReadyStateOf (ws : WsId) : Eff ReadyState
| Send (ws : WsId) (message : json) : Eff unit
| Now : Eff Z
| Enqueue (item : json) : Eff unit
| CloseStream : Eff unit
| ErrorStream (e : Error) : Eff unit.

(** A program returns, throws, or performs an operation and continues
    with its outcome. *)
Inductive Prog (A : Type) : Type :=
| Ret (a : A)
| Throw (e : Error)
| Do {R : Type} (eff : Eff R) (k : Result R -> Prog A).
Arguments Ret {A} a.
Arguments Throw {A} e.
Arguments Do {A R} eff k.

Definition of_result {A : Type} (r : Result A) : Prog A :=
  match r with Ok a => Ret a | Fail e => Throw e end.

(** [await eff]: a failed operation throws. *)
Definition perform {R : Type} (eff : Eff R) : Prog R := Do eff of_result.

Fixpoint bind {A B : Type} (p : Prog A) (f : A -> Prog B) : Prog B :=
  match p with
  | Ret a => f a
  | Throw e => Throw e
  | Do eff k => Do eff (fun r => bind (k r) f)
  end.

(** [try { p } catch (e) { h e }] *)
Fixpoint try_catch {A : Type} (p : Prog A) (h : Error -> Prog A) : Prog A :=
  match p with
  | Ret a => Ret a
  | Throw e => h e
  | Do eff k => Do eff (fun r => try_catch (k r) h)
  end.

Declare Scope prog_scope.
Delimit Scope prog_scope with prog.
Notation "x <- p ;; q" := (bind p (fun x => q))
  (at level 61, p at next level, right associativity) : prog_scope.
Notation "p ;; q" := (bind p (fun _ => q))
  (at level 61, right associativity) : prog_scope.
Local Open Scope prog_scope.

(** [for (const x of l) body(x)] *)
Fixpoint for_each {X : Type} (l : list X) (body : X -> Prog unit) : Prog unit :=
  match l with
  | [] => Ret tt
  | x :: l' => body x ;; for_each l' body
  end.

(** A loop whose body updates local counters. *)
Fixpoint fold_each {X S : Type} (l : list X) (s : S) (body : S -> X -> Prog S)
  : Prog S :=
  match l with
  | [] => Ret s
  | x :: l' => s' <- body s x ;; fold_each l' s' body
  end.

(** *** Sequential semantics *)

Fixpoint map_delete (ws : WsId) (l : list (WsId * ClientInfo))
  : list (WsId * ClientInfo) :=
  match l with
  | [] => []
  | p :: l' =>
      if Nat.eqb (fst p) ws then map_delete ws l' else p :: map_delete ws l'
  end.

Definition exec {R : Type} (eff : Eff R) (w : World) : World * Result R :=
  match eff in Eff R return World * Result R with
  | ReadHandle => (w, Ok (db w))
  | OpenDatabase =>
      let (f, d) := Sql.pop_fault (store w) in
      if f then (with_store w d, Fail (SqliteError "SQLITE_CANTOPEN"))
      else (with_db (with_store w d) true, Ok tt)
  | Run c =>
      let (f, d) := Sql.pop_fault (store w) in
      if f then (with_store w d, Fail (SqliteError "SQLITE_ERROR"))
      else
        let (d', r) := Sql.run (clock w) c d in
        match r with
        | Ok i => (log (with_store w d') (EvRun c i), Ok i)
        | Fail e => (with_store w d', Fail e)
        end
  | Get q =>
      let (f, d) := Sql.pop_fault (store w) in
      if f then (with_store w d, Fail (SqliteError "SQLITE_ERROR"))
      else (with_store w d, Ok (Sql.query q (Sql.view d)))
  | Clients => (w, Ok (wsClients w))
  | ClientsDelete ws => (with_clients w (map_delete ws (wsClients w)), Ok tt)
  | ReadyStateOf ws => (w, Ok (readyState w ws))
  | Send ws m =>
      if send_throws w ws then (w, Fail SendError)
      else (log w (EvSend ws m), Ok tt)
  | Now => (w, Ok (clock w))
  | Enqueue item => (log w (EvEnqueue item), Ok tt)
  | CloseStream => (log w EvClose, Ok tt)
  | ErrorStream e => (log w (EvError e), Ok tt)
  end.

(** Runs a program to completion, alone. *)
Fixpoint run {A : Type} (p : Prog A) (w : World) : World * Result A :=
  match p with
  | Ret a => (w, Ok a)
  | Throw e => (w, Fail e)
  | Do eff k => let (w', r) := exec eff w in run (k r) w'
  end.

(** *** Interleaving semantics *)

(** A task is resumed for one operation: every operation is a point at
    which another task may run. *)
Definition step {A : Type} (p : Prog A) (w : World) : World * Prog A :=
  match p with
  | Do eff k => let (w', r) := exec eff w in (w', k r)
  | _ => (w, p)
  end.

Definition finished {A : Type} (p : Prog A) : bool :=
  match p with Do _ _ => false | _ => true end.

Fixpoint step_nth {A : Type} (i : nat) (pool : list (Prog A)) (w : World)
  : World * list (Prog A) :=
  match pool, i with
  | [], _ => (w, [])
  | p :: ps, O => let (w', p') := step p w in (w', p' :: ps)
  | p :: ps, S j => let (w', ps') := step_nth j ps w in (w', p :: ps')
  end.

(** Runs a pool of tasks under a schedule: the list of the indices of the
    tasks resumed, in order. *)
Fixpoint run_pool {A : Type} (schedule : list nat) (pool : list (Prog A))
  (w : World) : World * list (Prog A) :=
  match schedule with
  | [] => (w, pool)
  | i :: rest => let (w', pool') := step_nth i pool w in run_pool rest pool' w'
  end.

(** ** db.js *)

(** [try { p } catch (error) { console.error(..., error); throw error; }] *)
Definition rethrow {A : Type} (p : Prog A) : Prog A :=
  try_catch p (fun error => Throw error).

Definition initialLimit : Z := 10000.

(** [initializeDatabase()]: opens the file, creates the tables that do not
    exist, and inserts the usage row when there is none. *)
Definition initializeDatabase : Prog unit :=
  rethrow (
    perform OpenDatabase ;;
    perform (Run CreateTables) ;;
    stats <- perform (Get SelectUsageStats) ;;
    match stats with
    | None => perform (Run (InsertUsageStats 0 initialLimit)) ;; Ret tt
    | Some _ => Ret tt
    end).

(** [getDb()] *)
Definition getDb : Prog unit :=
  opened <- perform ReadHandle ;;
  if negb opened then initializeDatabase else Ret tt.

(** The [options] argument of a chat request. *)
Record Options : Type := {
  opt_temperature : option Q;
  opt_maxTokens : JS.val
}.

(** [options?.temperature || 0.7] *)
Definition temperature_or (options : Options) (d : Q) : Q :=
  match opt_temperature options with
  | Some q => if Qeq_bool q 0 then d else q
  | None => d
  end.

Record ChatEntry : Type := {
  chatId : Z;
  tokensAdded : Z
}.

(** [geminiTokenCount || simpleTokenEstimate(userInput + response)] *)
Definition entry_tokenCount (userInput response : JS.str)
  (geminiTokenCount : JS.val) : Z :=
  JS.int_or geminiTokenCount (simpleTokenEstimate (userInput ++ response)).

(** [addChatEntry(userInput, response, geminiTokenCount, model, options)] *)
Definition addChatEntry (userInput response : JS.str)
  (geminiTokenCount : JS.val) (model : JS.str) (options : Options)
  : Prog ChatEntry :=
  rethrow (
    getDb ;;
    let tokenCount := entry_tokenCount userInput response geminiTokenCount in
    lastID <- perform (Run (InsertChatHistory userInput response tokenCount
                              None model
                              (temperature_or options (7 # 10))
                              (JS.int_or (opt_maxTokens options) 1024))) ;;
    let chatId := lastID in
    perform (Run (AddTokensUsed tokenCount)) ;;
    Ret {| chatId := chatId; tokensAdded := tokenCount |}).

(** [getTokenUsage()] *)
Definition getTokenUsage : Prog UsageRow :=
  rethrow (
    getDb ;;
    stats <- perform (Get SelectUsageStats) ;;
    Ret match stats with
        | Some s => s
        | None => {| total_tokens_used := 0; total_limit := 10000 |}
        end).

(** [isTokenLimitExceeded()] *)
Definition isTokenLimitExceeded : Prog bool :=
  rethrow (
    stats <- getTokenUsage ;;
    Ret (total_tokens_used stats >=? total_limit stats)).

(** [getRecentChats(limit = 10)] *)
Definition getRecentChats (limit : Z) : Prog (list ChatRow) :=
  rethrow (
    getDb ;;
    chats <- perform (Get (SelectRecentChats limit)) ;;
    Ret chats).

(** [updateTokenLimit(newLimit)] *)
Definition updateTokenLimit (newLimit : JS.num) : Prog UsageRow :=
  rethrow (
    match newLimit with
    | JS.NaN => Throw InvalidTokenLimit
    | JS.Int n =>
        if n <=? 0 then Throw InvalidTokenLimit
        else
          getDb ;;
          perform (Run (SetTotalLimit n)) ;;
          getTokenUsage
    end).

Record Extension : Type := {
  success : bool;
  previousLimit : Z;
  newLimit : Z;
  amountAdded : Z;
  currentUsage : Z
}.

(** [extendTokenLimit(amountToAdd, maxAllowedExtension = 20000)]: the
    first test is [isNaN(amountToAdd) || amountToAdd <= 0]. *)
Definition extendTokenLimit (amountToAdd : JS.num) (maxAllowedExtension : Z)
  : Prog Extension :=
  rethrow (
    match amountToAdd with
    | JS.NaN => Throw InvalidExtensionAmount
    | JS.Int amount =>
        if amount <=? 0 then Throw InvalidExtensionAmount
        else if amount >? maxAllowedExtension then
          Throw (ExtensionExceedsMaximum maxAllowedExtension)
        else
          getDb ;;
          currentStats <- perform (Get SelectTotalLimit) ;;
          match currentStats with
          | None => Throw UsageStatsNotFound
          | Some current_limit =>
              let newLimit := current_limit + amount in
              perform (Run (SetTotalLimit newLimit)) ;;
              updatedStats <- getTokenUsage ;;
              Ret {| success := true;
                     previousLimit := current_limit;
                     newLimit := total_limit updatedStats;
                     amountAdded := amount;
                     currentUsage := total_tokens_used updatedStats |}
          end
    end).

(** [clearDatabase()] *)
Definition clearDatabase : Prog bool :=
  try_catch (
    getDb ;;
    perform (Run BeginTransaction) ;;
    perform (Run DeleteTokenComparisons) ;;
    perform (Run DeleteChatHistory) ;;
    perform (Run ResetTokensUsed) ;;
    perform (Run (DeleteSequence ["chat_history"; "token_comparisons"]%string)) ;;
    perform (Run Commit) ;;
    Ret true)
  (fun error =>
    try_catch (getDb ;; perform (Run Rollback) ;; Ret tt)
              (fun rollbackError => Ret tt) ;;
    Throw error).

(** ** config.js *)

Module config.
Definition defaultModel : JS.str := JS.lit "gemini-1.5-flash".
Definition defaultTokenLimit : Z := 100000.
Definition maxExtensionAmount : Z := 20000.
End config.

(** ** wsBroadcast.js *)

Definition jstr (s : string) : json := JStr (JS.lit s).

(** [error.message] *)
Definition error_message (e : Error) : json :=
  match e with
  | InvalidTokenLimit => jstr "Invalid token limit value"
  | InvalidExtensionAmount => jstr "Invalid extension amount"
  | ExtensionExceedsMaximum m =>
      JTemplate [jstr "Extension amount exceeds the maximum allowed (";
                 JNum m; jstr " tokens)"]
  | UsageStatsNotFound => jstr "Usage stats not found in database"
  | SqliteError m => jstr m
  | SendError => jstr "WebSocket is not open"
  | UpstreamError m => jstr m
  end.

(** The [usage] object of an update message:
    [{ totalTokensUsed, limit, remaining: Math.max(0, limit - used),
       exceeded: used >= limit }]. *)
Definition usage_object (usage : UsageRow) : json :=
  JObj [("totalTokensUsed", JNum (total_tokens_used usage));
        ("limit", JNum (total_limit usage));
        ("remaining",
          JNum (Z.max 0 (total_limit usage - total_tokens_used usage)));
        ("exceeded",
          JBool (total_tokens_used usage >=? total_limit usage))]%string.

Record BroadcastCount : Type := {
  sent : Z;
  closed : Z
}.

(** [cleanupClosedConnections()] *)
Definition cleanupClosedConnections : Prog Z :=
  before <- perform Clients ;;
  let initialSize := Z.of_nat (List.length before) in
  toDelete <- fold_each before [] (fun toDelete entry =>
    state <- perform (ReadyStateOf (fst entry)) ;;
    if is_closed_or_closing state then Ret (toDelete ++ [fst entry])
    else Ret toDelete) ;;
  for_each toDelete (fun client => perform (ClientsDelete client)) ;;
  after <- perform Clients ;;
  let removedCount := initialSize - Z.of_nat (List.length after) in
  Ret removedCount.

(** [broadcastToAll(data)] *)
Definition broadcastToAll (data : json) : Prog BroadcastCount :=
  let message := data in
  entries <- perform Clients ;;
  counts <- fold_each entries (0, 0) (fun counts entry =>
    let client := fst entry in
    let activeSent := fst counts in
    let closedClients := snd counts in
    state <- perform (ReadyStateOf client) ;;
    if is_open state then
      try_catch (perform (Send client message) ;;
                 Ret (activeSent + 1, closedClients))
                (fun error => Ret (activeSent, closedClients))
    else if is_closed_or_closing state then
      Ret (activeSent, closedClients + 1)
    else Ret (activeSent, closedClients)) ;;
  let activeSent := fst counts in
  let closedClients := snd counts in
  (if closedClients >? 0 then cleanupClosedConnections ;; Ret tt
   else Ret tt) ;;
  Ret {| sent := activeSent; closed := closedClients |}.

(** [broadcastToOthers(excludeWs, data)] *)
Definition broadcastToOthers (excludeWs : WsId) (data : json) : Prog Z :=
  let message := data in
  entries <- perform Clients ;;
  fold_each entries 0 (fun sent entry =>
    let client := fst entry in
    state <- perform (ReadyStateOf client) ;;
    if negb (Nat.eqb client excludeWs) && is_open state then
      try_catch (perform (Send client message) ;; Ret (sent + 1))
                (fun error => Ret sent)
    else Ret sent).

(** [sendToClient(clientId, data)] *)
Fixpoint sendToClient_loop (entries : list (WsId * ClientInfo))
  (clientId : JS.str) (message : json) : Prog bool :=
  match entries with
  | [] => Ret false
  | (client, clientInfo) :: rest =>
      state <- perform (ReadyStateOf client) ;;
      if JS.str_eqb (client_id clientInfo) clientId && is_open state then
        try_catch (perform (Send client message) ;; Ret true)
                  (fun error => Ret false)
      else sendToClient_loop rest clientId message
  end.

Definition sendToClient (clientId : JS.str) (data : json) : Prog bool :=
  entries <- perform Clients ;;
  sendToClient_loop entries clientId data.

(** [broadcastUpdate()] *)
Definition broadcastUpdate : Prog unit :=
  clients <- perform Clients ;;
  let clientCount := List.length clients in
  if Nat.eqb clientCount 0 then Ret tt
  else
    try_catch (
      usage <- getTokenUsage ;;
      chats <- getRecentChats 20 ;;
      now <- perform Now ;;
      let updateData :=
        JObj [("type", jstr "update");
              ("usage", usage_object usage);
              ("chats", JChats chats);
              ("timestamp", JDate now);
              ("source", jstr "system")]%string in
      broadcastToAll updateData ;;
      Ret tt)
    (fun error => Ret tt).

(** ** wsServer.js *)

(** [listConnectedClients()] *)
Definition listConnectedClients : Prog (list (ClientInfo * ReadyState)) :=
  entries <- perform Clients ;;
  fold_each entries [] (fun clients entry =>
    state <- perform (ReadyStateOf (fst entry)) ;;
    Ret (clients ++ [(snd entry, state)])).

(** ** wsHandlers.js *)

(** A parsed inbound message: its [type] (when it is a string) and the
    string its [amount] field converts to, which is what the log line of
    [handleExtendLimit] and [parseInt] work on: the text of a string, the
    literal of a number (["5000"], ["12.9"], ["1e+21"]), ["undefined"]
    for a missing field. *)
Record Message : Type := {
  msg_type : option JS.str;
  msg_amount : JS.str
}.

(** [message.type === name] *)
Definition type_is (message : Message) (name : string) : bool :=
  match msg_type message with
  | Some t => JS.str_eqb t (JS.lit name)
  | None => false
  end.

(** [handleRequestUpdate(ws, clientIp, clientId)] *)
Definition handleRequestUpdate (ws : WsId) (clientIp clientId : JS.str)
  : Prog unit :=
  try_catch (
    usage <- getTokenUsage ;;
    chats <- getRecentChats 20 ;;
    now <- perform Now ;;
    perform (Send ws
      (JObj [("type", jstr "update");
             ("usage", usage_object usage);
             ("chats", JChats chats);
             ("timestamp", JDate now);
             ("requestedBy", JStr clientId)]%string)))
  (fun error =>
    perform (Send ws
      (JObj [("type", jstr "error");
             ("message", jstr "Failed to retrieve update data");
             ("error", error_message error)]%string))).

Definition extendLimit_failure (clientId : JS.str) (error : json) : json :=
  JObj [("type", jstr "extendLimitResponse");
        ("success", JBool false);
        ("error", error);
        ("clientId", JStr clientId)]%string.

(** [handleExtendLimit(ws, message, clientIp, clientId)]; the first test
    is [!amountToExtend || isNaN(amountToExtend) || amountToExtend <= 0]. *)
Definition handleExtendLimit (ws : WsId) (message : Message)
  (clientIp clientId : JS.str) : Prog unit :=
  let amountToExtend := JS.parseInt (msg_amount message) in
  match amountToExtend with
  | JS.NaN =>
      perform (Send ws (extendLimit_failure clientId
        (jstr "Invalid or negative extension amount provided")))
  | JS.Int amount =>
      if (amount =? 0) || (amount <=? 0) then
        perform (Send ws (extendLimit_failure clientId
          (jstr "Invalid or negative extension amount provided")))
      else if amount >? config.maxExtensionAmount then
        perform (Send ws (extendLimit_failure clientId
          (JTemplate [jstr "Extension amount exceeds the maximum allowed (";
                      JNum config.maxExtensionAmount; jstr " tokens)"])))
      else
        try_catch (
          getDb ;;
          currentStats <- perform (Get SelectTotalLimit) ;;
          let currentLimit :=
            match currentStats with
            | Some l => l
            | None => config.defaultTokenLimit
            end in
          let newLimit := currentLimit + amount in
          perform (Run (SetTotalLimit newLimit)) ;;
          usage <- getTokenUsage ;;
          now <- perform Now ;;
          perform (Send ws
            (JObj [("type", jstr "extendLimitResponse");
                   ("success", JBool true);
                   ("message", JTemplate [jstr "Token limit extended by ";
                                          JNum amount; jstr "."]);
                   ("previousLimit", JNum currentLimit);
                   ("newLimit", JNum (total_limit usage));
                   ("currentUsage", JNum (total_tokens_used usage));
                   ("requestedBy", JStr clientId);
                   ("timestamp", JDate now)]%string)) ;;
          broadcastToOthers ws
            (JObj [("type", jstr "update");
                   ("usage", usage_object usage);
                   ("message",
                     JTemplate [jstr "Token limit extended by "; JNum amount;
                                jstr " tokens by administrator (Client ID: ";
                                JStr clientId; jstr ")."]);
                   ("initiatedBy", JStr clientId);
                   ("timestamp", JDate now)]%string) ;;
          Ret tt)
        (fun error =>
          perform (Send ws (extendLimit_failure clientId
            (JTemplate [jstr "Failed to extend token limit: ";
                        error_message error]))))
  end.

(** The hard-coded [usage] object of the clear responses. *)
Definition cleared_usage_object (usage : UsageRow) : json :=
  JObj [("totalTokensUsed", JNum 0);
        ("limit", JNum (total_limit usage));
        ("remaining", JNum (total_limit usage));
        ("exceeded", JBool false)]%string.

(** [handleClearDatabase(ws, clientIp, clientId)] *)
Definition handleClearDatabase (ws : WsId) (clientIp clientId : JS.str)
  : Prog unit :=
  try_catch (
    getDb ;;
    perform (Run BeginTransaction) ;;
    perform (Run DeleteChatHistory) ;;
    perform (Run ResetTokensUsed) ;;
    perform (Run (DeleteSequence ["chat_history"]%string)) ;;
    perform (Run Commit) ;;
    usage <- getTokenUsage ;;
    now <- perform Now ;;
    perform (Send ws
      (JObj [("type", jstr "clearDatabaseResponse");
             ("success", JBool true);
             ("message", jstr "Database cleared successfully");
             ("usage", cleared_usage_object usage);
             ("requestedBy", JStr clientId);
             ("timestamp", JDate now)]%string)) ;;
    broadcastToOthers ws
      (JObj [("type", jstr "update");
             ("usage", cleared_usage_object usage);
             ("chats", JArr []);
             ("message",
               JTemplate [jstr "Database has been cleared by administrator (Client ID: ";
                          JStr clientId; jstr ")"]);
             ("initiatedBy", JStr clientId);
             ("timestamp", JDate now)]%string) ;;
    Ret tt)
  (fun error =>
    try_catch (getDb ;; perform (Run Rollback) ;; Ret tt)
              (fun rollbackError => Ret tt) ;;
    perform (Send ws
      (JObj [("type", jstr "clearDatabaseResponse");
             ("success", JBool false);
             ("error", JTemplate [jstr "Failed to clear database: ";
                                  error_message error]);
             ("clientId", JStr clientId)]%string))).

(** [handlePing(ws, clientId)] *)
Definition handlePing (ws : WsId) (clientId : JS.str) : Prog unit :=
  now <- perform Now ;;
  perform (Send ws
    (JObj [("type", jstr "pong");
           ("clientId", JStr clientId);
           ("timestamp", JDate now)]%string)).

(** [require(path)] in an ES module, which [wsHandlers.js] is: the name
    is not defined there, and the reference throws. *)
Definition require (path : string) : Prog unit :=
  Throw (UpstreamError "require is not defined").

(** [handleGetClients(ws, clientId)]: the [require] of its first line
    throws, so that the [catch] block answers. *)
Definition handleGetClients (ws : WsId) (clientId : JS.str) : Prog unit :=
  try_catch (
    require "./wsServer.js" ;;
    clients <- listConnectedClients ;;
    let clientList :=
      map (fun client =>
             JObj [("id", JStr (client_id (fst client)));
                   ("connectedAt", JDate (connectedAt (fst client)));
                   ("lastActivity", JDate (lastActivity (fst client)));
                   ("isActive", JBool (is_open (snd client)))]%string)
          clients in
    now <- perform Now ;;
    perform (Send ws
      (JObj [("type", jstr "clientList");
             ("clients", JArr clientList);
             ("count", JNum (Z.of_nat (List.length clientList)));
             ("requestedBy", JStr clientId);
             ("timestamp", JDate now)]%string)))
  (fun error =>
    perform (Send ws
      (JObj [("type", jstr "error");
             ("message", jstr "Failed to retrieve client list");
             ("error", error_message error)]%string))).

(** [handleMessage(ws, message, clientIp, clientId)]: the [switch] on
    [message.type]. *)
Definition handleMessage (ws : WsId) (message : Message)
  (clientIp clientId : JS.str) : Prog unit :=
  if type_is message "requestUpdate" then
    handleRequestUpdate ws clientIp clientId
  else if type_is message "extendLimit" then
    handleExtendLimit ws message clientIp clientId
  else if type_is message "clearDatabase" then
    handleClearDatabase ws clientIp clientId
  else if type_is message "ping" then
    handlePing ws clientId
  else if type_is message "getClients" then
    handleGetClients ws clientId
  else
    perform (Send ws
      (JObj [("type", jstr "error");
             ("error", jstr "Unknown message type")]%string)).

(** ** streamService.js *)

(** The body of a chat request whose [message], [model] and [format]
    are strings or falsy; an absent or falsy field is the empty string,
    which is falsy as well (a document that is a number, a string, a
    boolean or an array has no fields). *)
Record ChatBody : Type := {
  body_message : JS.str;
  body_model : JS.str;
  body_options : Options;
  body_format : JS.str
}.

(** A request to a chat endpoint, as the first lines of its handler see
    it. *)
Inductive ChatRequest : Type :=
| InvalidJson (error : Error)
    (* not a JSON document: [c.req.json()] rejects with [error] *)
| NullBody
    (* the document [null]: reading [body.message] throws *)
| ModelUnconvertible
    (* a [model] without a string conversion, as [{"toString": 1}]: the
       first log line of the handler throws *)
| MessageNotText
    (* a [message] that is truthy and no string, as in [{"message": 5}]:
       it passes the test [!userMessage], and has no [substring] to call
       for the second log line *)
| Body (body : ChatBody).

(** What the model client delivers for one request: the text of each
    chunk of [result.stream], the error that ends the stream early (if
    any), and the final [result.response]. *)
Record Generation : Type := {
  chunks : list JS.str;
  stream_error : option Error;
  finalResponse : option ApiResponse
}.

Inductive HttpResponse : Type :=
| JsonResponse (status : Z) (body : json)
| StreamResponse (contentType : string).

(** [a || b] on strings *)
Definition str_or (a b : JS.str) : JS.str :=
  match a with [] => b | _ => a end.

(** The item enqueued for a chunk of text: an NDJSON line or raw text. *)
Definition chunk_item (json_format : bool) (text : JS.str) : json :=
  if json_format then
    JObj [("chunk", JStr text); ("done", JBool false)]%string
  else JStr text.

(** The completion line of the NDJSON format. *)
Definition done_item (geminiTokenCount : JS.val) (usage : UsageRow)
  (dbEntry : ChatEntry) : json :=
  let isOverLimit := total_tokens_used usage >=? total_limit usage in
  JObj [("chunk", jstr "");
        ("done", JBool true);
        ("usage",
          JObj [("geminiTokenCount", JVal geminiTokenCount);
                ("totalTokensUsed", JNum (total_tokens_used usage));
                ("limit", JNum (total_limit usage));
                ("remaining",
                  JNum (Z.max 0 (total_limit usage - total_tokens_used usage)));
                ("tokensAdded", JNum (tokensAdded dbEntry));
                ("limitExceeded", JBool isOverLimit)]);
        ("warning",
          if isOverLimit then
            JTemplate [jstr "Token limit exceeded after this request. You've used ";
                       JNum (total_tokens_used usage);
                       jstr " out of ";
                       JNum (total_limit usage); jstr " tokens."]
          else JNull)]%string.

(** The line that reports an error in the NDJSON format. *)
Definition error_item (error : Error) : json :=
  JObj [("error", error_message error); ("done", JBool true)]%string.

(** [await c.req.json()] and the reads of a chat handler that come
    before its [try]: no operation of the process is performed in
    between, and what they throw leaves the handler. *)
Definition chat_body (request : ChatRequest) : Prog ChatBody :=
  match request with
  | InvalidJson error => Throw error
  | NullBody =>
      Throw (UpstreamError "Cannot read properties of null (reading 'message')")
  | ModelUnconvertible =>
      Throw (UpstreamError "Cannot convert object to primitive value")
  | MessageNotText =>
      Throw (UpstreamError "userMessage.substring is not a function")
  | Body body => Ret body
  end.

(** [handleStreamingChat(c)]: the body of the stream's [start] is run
    before the response is returned. *)
Definition handleStreamingChat (request : ChatRequest) (gen : Generation)
  : Prog HttpResponse :=
  body <- chat_body request ;;
  let userMessage := body_message body in
  let modelName := str_or (body_model body) config.defaultModel in
  let options := body_options body in
  let format := str_or (body_format body) (JS.lit "json") in
  let json_format := JS.str_eqb format (JS.lit "json") in
  match userMessage with
  | [] => Ret (JsonResponse 400 (JObj [("error", jstr "No message provided")]%string))
  | _ =>
      try_catch (
        fullResponse <- fold_each (chunks gen) [] (fun fullResponse text =>
          match text with
          | [] => Ret fullResponse
          | _ =>
              perform (Enqueue (chunk_item json_format text)) ;;
              Ret (fullResponse ++ text)
          end) ;;
        match stream_error gen with
        | Some e => Throw e
        | None => Ret tt
        end ;;
        let geminiTokenCount := extractGeminiTokenCount (finalResponse gen) in
        dbEntry <- addChatEntry userMessage fullResponse geminiTokenCount
                     modelName options ;;
        usage <- getTokenUsage ;;
        (if json_format then
           perform (Enqueue (done_item geminiTokenCount usage dbEntry))
         else Ret tt) ;;
        perform CloseStream ;;
        broadcastUpdate)
      (fun error =>
        (if json_format then perform (Enqueue (error_item error))
         else Ret tt) ;;
        perform (ErrorStream error)) ;;
      Ret (StreamResponse
             (if json_format then "application/x-ndjson" else "text/plain"))
  end.

(** ** apiRoutes.js *)

(** The handler of [GET /api/usage]. *)
Definition apiUsage : Prog HttpResponse :=
  try_catch (
    usage <- getTokenUsage ;;
    if total_tokens_used usage >=? total_limit usage then
      Ret (JsonResponse 200
        (JObj [("error", jstr "Token limit exceeded");
               ("totalTokensUsed", JNum (total_tokens_used usage));
               ("limit", JNum (total_limit usage));
               ("remaining", JNum 0);
               ("exceeded", JBool true);
               ("message",
                 JTemplate [jstr "You've used ";
                            JNum (total_tokens_used usage); jstr " out of ";
                            JNum (total_limit usage); jstr " tokens."]);
               ("product", jstr "GBOT");
               ("tier", jstr "tier0");
               ("upgradeMessage",
                 jstr "Upgrade to GBOX for 10x more tokens!")]%string))
    else
      Ret (JsonResponse 200
        (JObj [("totalTokensUsed", JNum (total_tokens_used usage));
               ("limit", JNum (total_limit usage));
               ("remaining",
                 JNum (Z.max 0 (total_limit usage - total_tokens_used usage)));
               ("exceeded", JBool false);
               ("product", jstr "GBOT");
               ("tier", jstr "tier0")]%string)))
  (fun error =>
    Ret (JsonResponse 500
      (JObj [("error", jstr "Failed to get token usage");
             ("details", error_message error);
             ("product", jstr "GBOT");
             ("tier", jstr "tier0")]%string))).

(** ** States and scenarios the properties speak about *)

(** The current tables, as the next statement sees them. *)
Definition tables (w : World) : Tables := Sql.view (store w).

(** The database is open, no transaction is pending and the store does
    not fail. *)
Definition ready (w : World) : Prop :=
  db w = true /\ working (store w) = None /\ faults (store w) = [].

(** The ledger example of the design document, on [db.js]: an increment
    is the commit of an entry with a reported count. *)
Definition ledger_scenario (userInput response model : JS.str)
  (options : Options)
  : Prog (UsageRow * Extension * bool * UsageRow * bool) :=
  addChatEntry userInput response (JS.Number (JS.Int 4000)) model options ;;
  s1 <- getTokenUsage ;;
  e <- extendTokenLimit (JS.Int 5000) 20000 ;;
  b1 <- isTokenLimitExceeded ;;
  addChatEntry userInput response (JS.Number (JS.Int 11000)) model options ;;
  s2 <- getTokenUsage ;;
  b2 <- isTokenLimitExceeded ;;
  Ret (s1, e, b1, s2, b2).

(** A database file that has just been created. *)
Definition fresh_world : World :=
  {| db := false;
     store := {| committed := {| usage_stats := []; chat_history := [];
                                 token_comparisons := [];
                                 sqlite_sequence := [] |};
                 working := None; faults := [] |};
     clock := 0; wsClients := [];
     readyState := fun _ => OPEN; send_throws := fun _ => false;
     trace := [] |}.

(** The server after start-up. *)
Definition started_world : World := fst (run initializeDatabase fresh_world).

Definition no_options : Options :=
  {| opt_temperature := None; opt_maxTokens := JS.Undefined |}.

(** ** Descriptions of a broadcast pass *)

Definition log_all (w : World) (evs : list Event) : World :=
  {| db := db w; store := store w; clock := clock w; wsClients := wsClients w;
     readyState := readyState w; send_throws := send_throws w;
     trace := trace w ++ evs |}.

(** A registered socket a send reaches: OPEN, and its [send] does not
    throw. *)
Definition deliverable (w : World) (entry : WsId * ClientInfo) : bool :=
  is_open (readyState w (fst entry)) && negb (send_throws w (fst entry)).

(** A registered socket whose transport is CLOSED or CLOSING. *)
Definition dead (w : World) (entry : WsId * ClientInfo) : bool :=
  is_closed_or_closing (readyState w (fst entry)).

Definition broadcast_events (w : World) (data : json) : list Event :=
  map (fun entry => EvSend (fst entry) data)
      (filter (deliverable w) (wsClients w)).

Definition is_send_to (ws : WsId) (ev : Event) : bool :=
  match ev with
  | EvSend ws' _ => Nat.eqb ws' ws
  | _ => false
  end.

Definition registered (w : World) (ws : WsId) : bool :=
  existsb (fun entry => Nat.eqb (fst entry) ws) (wsClients w).

(** The registry after the closed and closing sockets are dropped. *)
Definition live_clients (w : World) : list (WsId * ClientInfo) :=
  filter (fun entry => negb (dead w entry)) (wsClients w).

(** Three sockets A, B, C registered in this order; B's transport was
    closed out of band. *)
Definition client_named (name : string) : ClientInfo :=
  {| client_id := JS.lit name; ip := JS.lit "127.0.0.1"; connectedAt := 0;
     isAdmin := true; lastActivity := 0 |}.

Definition three_clients_world : World :=
  {| db := db started_world; store := store started_world;
     clock := 0;
     wsClients := [(0%nat, client_named "A"); (1%nat, client_named "B");
                   (2%nat, client_named "C")];
     readyState := fun ws => if Nat.eqb ws 1 then CLOSED else OPEN;
     send_throws := fun _ => false;
     trace := [] |}.

(** ** What a program may write to the trace *)

(** Every event the operation can log satisfies [P]. *)
Definition eff_emits {R : Type} (P : Event -> Prop) (eff : Eff R) : Prop :=
  match eff with
  | Run c => forall i, P (EvRun c i)
  | Send ws m => P (EvSend ws m)
  | Enqueue item => P (EvEnqueue item)
  | CloseStream => P EvClose
  | ErrorStream e => P (EvError e)
  | _ => True
  end.

(** Every event the program can log, on any path, satisfies [P]. *)
Fixpoint emits {A : Type} (P : Event -> Prop) (p : Prog A) : Prop :=
  match p with
  | Do eff k => eff_emits P eff /\ forall r, emits P (k r)
  | _ => True
  end.

(** A usage object is consistent when [remaining] is
    [max(0, limit - consumed)] and [exceeded] tells [consumed >= limit]. *)
Definition usage_consistent (u : json) : Prop :=
  exists used limit remaining exceeded,
    field "totalTokensUsed" u = Some (JNum used)
    /\ field "limit" u = Some (JNum limit)
    /\ field "remaining" u = Some (JNum remaining)
    /\ field "exceeded" u = Some (JBool exceeded)
    /\ remaining = Z.max 0 (limit - used)
    /\ 0 <= remaining
    /\ (exceeded = true <-> used >= limit).

(** An update message carries a usage object, and a usage object that a
    message carries is consistent. *)
Definition carries_consistent_usage (m : json) : Prop :=
  (field "type" m = Some (jstr "update") ->
   exists u, field "usage" m = Some u)
  /\ (forall u, field "usage" m = Some u -> usage_consistent u).

Definition sends_consistent_usage (ev : Event) : Prop :=
  match ev with
  | EvSend _ m => carries_consistent_usage m
  | _ => True
  end.

(** The usage object [u] reports the ledger row [row]: the consumed
    tokens and the limit are the row's, [remaining] is
    [max(0, limit - consumed)] and [exceeded] tells [consumed >= limit]. *)
Definition reports (row : UsageRow) (u : json) : Prop :=
  field "totalTokensUsed" u = Some (JNum (total_tokens_used row))
  /\ field "limit" u = Some (JNum (total_limit row))
  /\ field "remaining" u
     = Some (JNum (Z.max 0 (total_limit row - total_tokens_used row)))
  /\ field "exceeded" u
     = Some (JBool (total_tokens_used row >=? total_limit row)).

(** What may be sent when [getTokenUsage] answered [read]: an update
    message carries a usage object, and a usage object that a message
    carries reports the row read; no message carries a usage object when
    the read failed. *)
Definition sends_usage_of (read : Result UsageRow) (ev : Event) : Prop :=
  match ev with
  | EvSend _ m =>
      (field "type" m = Some (jstr "update") ->
       exists u, field "usage" m = Some u)
      /\ (forall u, field "usage" m = Some u ->
          exists row, read = Ok row /\ reports row u)
  | _ => True
  end.

(** ** Inbound messages *)

(** The [case] labels of [handleMessage]. *)
Definition known_message_types : list string :=
  ["requestUpdate"; "extendLimit"; "clearDatabase"; "ping"; "getClients"]%string.

Definition unknown_type (message : Message) : Prop :=
  existsb (type_is message) known_message_types = false.

(** ** The cleared store *)

(** The tables after every statement of [clearDatabase] has been applied. *)
Definition cleared (t : Tables) : Tables :=
  {| usage_stats := map Sql.reset_tokens (usage_stats t);
     chat_history := [];
     token_comparisons := [];
     sqlite_sequence :=
       filter (fun p => negb (existsb (String.eqb (fst p))
                                ["chat_history"; "token_comparisons"]%string))
              (sqlite_sequence t) |}.

(** A store with history: two entries and 900 tokens consumed. *)
Definition used_world : World :=
  fst (run (addChatEntry (JS.lit "hello") (JS.lit "world")
              (JS.Number (JS.Int 400)) config.defaultModel no_options ;;
            addChatEntry (JS.lit "again") (JS.lit "sure")
              (JS.Number (JS.Int 500)) config.defaultModel no_options)
           started_world).

(** The same store when its [n+1]-th next statement fails. *)
Definition failing_at (n : nat) (w : World) : World :=
  with_store w {| committed := committed (store w);
                  working := working (store w);
                  faults := repeat false n ++ [true] |}.

(** ** Descriptions of a commit *)

Definition with_tables (w : World) (t : Tables) : World :=
  with_store w (Sql.write (store w) t).

(** The registry after a broadcast pass: swept when a dead socket was
    counted. *)
Definition swept (w : World) : World :=
  if Z.of_nat (List.length (filter (dead w) (wsClients w))) >? 0
  then with_clients w (live_clients w) else w.

(** The usage row [getTokenUsage] reads. *)
Definition current_usage (w : World) : UsageRow :=
  match hd_error (usage_stats (tables w)) with
  | Some s => s
  | None => {| total_tokens_used := 0; total_limit := 10000 |}
  end.

(** The update [broadcastUpdate] composes in a ready state. *)
Definition update_message (w : World) : json :=
  JObj [("type", jstr "update");
        ("usage", usage_object (current_usage w));
        ("chats", JChats (Sql.sql_limit 20
                            (Sql.order_by_timestamp_desc
                               (chat_history (tables w)))));
        ("timestamp", JDate (clock w));
        ("source", jstr "system")]%string.

(** The items enqueued for the chunks of a generation. *)
Definition chunk_events (json_format : bool) (chunks : list JS.str)
  : list Event :=
  flat_map (fun text =>
              match text with
              | [] => []
              | _ => [EvEnqueue (chunk_item json_format text)]
              end) chunks.

(** The token count committed for a finished generation. *)
Definition generation_tokens (body : ChatBody) (gen : Generation) : Z :=
  entry_tokenCount (body_message body) (List.concat (chunks gen))
    (extractGeminiTokenCount (finalResponse gen)).

(** The statement that appends the entry of a finished generation with
    [n] tokens. *)
Definition insert_entry (body : ChatBody) (gen : Generation) (n : Z) : Command :=
  InsertChatHistory (body_message body) (List.concat (chunks gen)) n None
    (str_or (body_model body) config.defaultModel)
    (temperature_or (body_options body) (7 # 10))
    (JS.int_or (opt_maxTokens (body_options body)) 1024).

(** [format === 'json'] for the request. *)
Definition wants_json (body : ChatBody) : bool :=
  JS.str_eqb (str_or (body_format body) (JS.lit "json")) (JS.lit "json").

(** The world once the entry and the increment are committed. *)
Definition after_commit (w : World) (body : ChatBody) (gen : Generation)
  : World :=
  let n := generation_tokens body gen in
  let insert := insert_entry body gen n in
  log_all
    (with_tables w
       (fst (Sql.apply (clock w) (AddTokensUsed n)
               (fst (Sql.apply (clock w) insert (tables w))))))
    (chunk_events (wants_json body) (chunks gen)
     ++ [EvRun insert (Sql.next_chat_id (tables w));
         EvRun (AddTokensUsed n) 0]).

(** The completion line, if the format has one. *)
Definition done_events (w : World) (body : ChatBody) (gen : Generation)
  : list Event :=
  if wants_json body then
    [EvEnqueue (done_item (extractGeminiTokenCount (finalResponse gen))
                  (current_usage (after_commit w body gen))
                  {| chatId := Sql.next_chat_id (tables w);
                     tokensAdded := generation_tokens body gen |})]
  else [].

(** The world once the response stream is closed. *)
Definition after_close (w : World) (body : ChatBody) (gen : Generation)
  : World :=
  log_all (after_commit w body gen) (done_events w body gen ++ [EvClose]).

(** A request and a generation in three chunks, the second one empty;
    the model reports no token count. *)
Definition hello_body : ChatBody :=
  {| body_message := JS.lit "hello"; body_model := [];
     body_options := no_options; body_format := [] |}.

Definition hello_generation : Generation :=
  {| chunks := [JS.lit "Hi"; []; JS.lit " there"];
     stream_error := None;
     finalResponse := None |}.

(** ** Concurrent commits and extensions *)

(** The arguments of one call of [addChatEntry]. *)
Record Task : Type := {
  task_input : JS.str;
  task_response : JS.str;
  task_count : JS.val;
  task_model : JS.str;
  task_options : Options
}.

Definition task_tokens (t : Task) : Z :=
  entry_tokenCount (task_input t) (task_response t) (task_count t).

Definition task_insert (t : Task) : Command :=
  InsertChatHistory (task_input t) (task_response t) (task_tokens t) None
    (task_model t) (temperature_or (task_options t) (7 # 10))
    (JS.int_or (opt_maxTokens (task_options t)) 1024).

(** How far a call of [addChatEntry] has got when it is suspended. *)
Inductive Phase : Type :=
| Started
| Opened
| Inserted (lastID : Z)
| Committed (lastID : Z).

(** What remains of the call in each phase. *)
Definition task_prog (t : Task) (ph : Phase) : Prog ChatEntry :=
  match ph with
  | Started =>
      addChatEntry (task_input t) (task_response t) (task_count t)
        (task_model t) (task_options t)
  | Opened =>
      rethrow (
        lastID <- perform (Run (task_insert t)) ;;
        perform (Run (AddTokensUsed (task_tokens t))) ;;
        Ret {| chatId := lastID; tokensAdded := task_tokens t |})
  | Inserted lastID =>
      rethrow (
        perform (Run (AddTokensUsed (task_tokens t))) ;;
        Ret {| chatId := lastID; tokensAdded := task_tokens t |})
  | Committed lastID =>
      Ret {| chatId := lastID; tokensAdded := task_tokens t |}
  end.

(** The phase after the next operation, in world [w]. *)
Definition next_phase (w : World) (ph : Phase) : Phase :=
  match ph with
  | Started => Opened
  | Opened => Inserted (Sql.next_chat_id (tables w))
  | Inserted i => Committed i
  | Committed i => Committed i
  end.

(** The tokens the next operation adds to the counter. *)
Definition gained (t : Task) (ph : Phase) : Z :=
  match ph with Inserted _ => task_tokens t | _ => 0 end.

(** The tokens the call has added to the counter so far. *)
Definition credited (tp : Task * Phase) : Z :=
  match snd tp with Committed _ => task_tokens (fst tp) | _ => 0 end.

Definition pool_progs (st : list (Task * Phase)) : list (Prog ChatEntry) :=
  map (fun tp => task_prog (fst tp) (snd tp)) st.

Definition sum (l : list Z) : Z := fold_right Z.add 0 l.

(** Two administrators extend the limit by 5000 at the same time. *)
Definition two_extensions : list (Prog Extension) :=
  [extendTokenLimit (JS.Int 5000) 20000; extendTokenLimit (JS.Int 5000) 20000].

(** Both calls read the limit before either writes it: each task runs up
    to its SELECT, then each performs its UPDATE, then each reads the
    usage back. *)
Definition both_read_first : list nat :=
  [0; 0; 1; 1; 0; 1; 0; 0; 1; 1]%nat.

(** The first call runs to its end before the second starts. *)
Definition one_after_the_other : list nat :=
  [0; 0; 0; 0; 0; 1; 1; 1; 1; 1]%nat.

(** The three sockets connected to the store with history. *)
Definition busy_world : World :=
  {| db := db used_world; store := store used_world; clock := 0;
     wsClients := wsClients three_clients_world;
     readyState := readyState three_clients_world;
     send_throws := send_throws three_clients_world;
     trace := [] |}.

(** The same sockets once 15000 tokens are consumed of a limit of 10000. *)
Definition over_limit_world : World :=
  with_tables three_clients_world
    {| usage_stats := [{| total_tokens_used := 15000; total_limit := 10000 |}];
       chat_history := []; token_comparisons := []; sqlite_sequence := [] |}.

(** ** Descriptions of the socket handlers *)

(** The sockets a broadcast to the others reaches. *)
Definition other_deliverable (w : World) (excludeWs : nat)
  (entry : nat * ClientInfo) : bool :=
  negb (Nat.eqb (fst entry) excludeWs) && deliverable w entry.

Definition others_events (w : World) (excludeWs : nat) (data : json)
  : list Event :=
  map (fun entry => EvSend (fst entry) data)
      (filter (other_deliverable w excludeWs) (wsClients w)).

(** The tables after the statements of [handleClearDatabase]. *)
Definition handler_cleared (t : Tables) : Tables :=
  {| usage_stats := map Sql.reset_tokens (usage_stats t);
     chat_history := [];
     token_comparisons := token_comparisons t;
     sqlite_sequence :=
       filter (fun p => negb (existsb (String.eqb (fst p))
                                ["chat_history"]%string))
              (sqlite_sequence t) |}.

(** ** Sequences of ledger operations *)

(** The operations of [db.js] that write to the store. *)
Inductive LedgerOp : Type :=
| OpCommit (userInput response : JS.str) (geminiTokenCount : JS.val)
    (model : JS.str) (options : Options)
| OpExtend (amountToAdd : JS.num) (maxAllowedExtension : Z)
| OpSetLimit (newLimit : JS.num)
| OpClear.

Definition ledger_op (op : LedgerOp) : Prog unit :=
  match op with
  | OpCommit u r g m o => addChatEntry u r g m o ;; Ret tt
  | OpExtend a m => extendTokenLimit a m ;; Ret tt
  | OpSetLimit n => updateTokenLimit n ;; Ret tt
  | OpClear => clearDatabase ;; Ret tt
  end.

(** Runs the operations one after the other; a caller goes on after an
    operation that threw. *)
Definition run_ops (ops : list LedgerOp) (w : World) : World :=
  fold_left (fun w op => fst (run (ledger_op op) w)) ops w.

(** The tokens recorded in the history. *)
Definition history_tokens (t : Tables) : Z :=
  sum (map gemini_token_count (chat_history t)).

(** The usage row exists, its counter is the sum of the recorded token
    counts and its limit is positive. *)
Definition ledger_consistent (t : Tables) : Prop :=
  usage_stats t <> []
  /\ Forall (fun row => total_tokens_used row = history_tokens t
                        /\ 0 < total_limit row) (usage_stats t).

(** [timestamp] decreases along the list. *)
Definition newest_first (l : list ChatRow) : Prop :=
  StronglySorted (fun a b => timestamp b <= timestamp a) l.


(** ** Replies to a socket *)

(** The message an operation hands to socket [ws], with the outcome of
    the operation when the send does not throw. *)
Definition reply_of {R : Type} (ws : nat) (eff : Eff R)
  : option (json * Result R) :=
  match eff in Eff R return option (json * Result R) with
  | Send ws' m => if Nat.eqb ws' ws then Some (m, Ok tt) else None
  | _ => None
  end.

(** The operations that can fail: those of the store and the sends. *)
Definition can_fail {R : Type} (eff : Eff R) : bool :=
  match eff with
  | OpenDatabase | Run _ | Get _ | Send _ _ => true
  | _ => false
  end.

Definition possible {R : Type} (eff : Eff R) (r : Result R) : Prop :=
  match r with
  | Ok _ => True
  | Fail _ => can_fail eff = true
  end.

(** On every path of [p] on which the sends to [ws] succeed, whatever
    the other operations return, [post] holds of the messages handed to
    [ws] (after [sent]) and of the outcome. *)
Fixpoint answers {A : Type} (ws : nat) (p : Prog A) (sent : list json)
  (post : list json -> Result A -> Prop) : Prop :=
  match p with
  | Ret a => post sent (Ok a)
  | Throw e => post sent (Fail e)
  | Do eff k =>
      match reply_of ws eff with
      | Some (m, r) => answers ws (k r) (sent ++ [m]) post
      | None => forall r, possible eff r -> answers ws (k r) sent post
      end
  end.

(** The program hands nothing to [ws] and does not throw. *)
Definition quiet {A : Type} (ws : nat) (p : Prog A) : Prop :=
  forall sent, answers ws p sent (fun s r => s = sent /\ exists a, r = Ok a).




(** ** chatService.js *)

(** What [model.generateContent] resolves to: the text of the response
    and the result object the token count is extracted from. *)
Record Content : Type := {
  content_text : JS.str;
  content_result : ApiResponse
}.

(** [s.includes(needle)] *)
Fixpoint includes (needle s : string) : bool :=
  String.prefix needle s
  || match s with
     | EmptyString => false
     | String _ s' => includes needle s'
     end.

(** [err.message && err.message.includes('429 Too Many Requests')]; only
    the errors of the store and of the model API carry a free text. *)
Definition is_quota_error (err : Error) : bool :=
  match err with
  | SqliteError m | UpstreamError m => includes "429 Too Many Requests" m
  | _ => false
  end.

(** [p()] called without [await]: its operations are run, and the caller
    does not see a rejection. *)
Definition detached (p : Prog unit) : Prog unit :=
  try_catch p (fun error => Ret tt).

(** [handleNonStreamingChat(c)].  [apiKey] tells whether
    [config.geminiApiKey] is set ([getGeminiClient()] is null otherwise),
    [generateContent] is the answer of the model API for a model name,
    and [stack] renders [error.stack]. *)
Definition handleNonStreamingChat (apiKey : bool)
  (generateContent : JS.str -> Result Content) (stack : Error -> json)
  (request : ChatRequest) : Prog HttpResponse :=
  body <- chat_body request ;;
  let userMessage := body_message body in
  let modelName := str_or (body_model body) config.defaultModel in
  let options := body_options body in
  match userMessage with
  | [] => Ret (JsonResponse 400 (JObj [("error", jstr "No message provided")]%string))
  | _ =>
      try_catch (
        (if apiKey then Ret tt
         else Throw (UpstreamError
                       "Cannot read properties of null (reading 'getGenerativeModel')")) ;;
        result <- try_catch (of_result (generateContent modelName))
          (fun err =>
             if is_quota_error err
                && JS.str_eqb modelName (JS.lit "gemini-1.5-pro")
             then of_result (generateContent (JS.lit "gemini-1.5-flash"))
             else Throw err) ;;
        let response := content_text result in
        let geminiTokenCount :=
          extractGeminiTokenCount (Some (content_result result)) in
        dbEntry <- addChatEntry userMessage response geminiTokenCount
                     modelName options ;;
        usage <- getTokenUsage ;;
        detached broadcastUpdate ;;
        if total_tokens_used usage >=? total_limit usage then
          Ret (JsonResponse 200
            (JObj [("response", JStr response);
                   ("warning", jstr "Token limit exceeded after this request");
                   ("exceeded", JBool true);
                   ("usage",
                     JObj [("geminiTokenCount", JVal geminiTokenCount);
                           ("totalTokensUsed", JNum (total_tokens_used usage));
                           ("limit", JNum (total_limit usage));
                           ("remaining", JNum 0);
                           ("tokensAdded", JNum (tokensAdded dbEntry))]);
                   ("message",
                     JTemplate [jstr "You've used ";
                                JNum (total_tokens_used usage);
                                jstr " out of ";
                                JNum (total_limit usage);
                                jstr " tokens."])]%string))
        else
          Ret (JsonResponse 200
            (JObj [("response", JStr response);
                   ("usage",
                     JObj [("geminiTokenCount", JVal geminiTokenCount);
                           ("totalTokensUsed", JNum (total_tokens_used usage));
                           ("limit", JNum (total_limit usage));
                           ("remaining",
                             JNum (Z.max 0 (total_limit usage
                                            - total_tokens_used usage)));
                           ("tokensAdded", JNum (tokensAdded dbEntry))])]%string)))
      (fun error =>
        Ret (JsonResponse 500
          (JObj [("error", jstr "Failed to generate response");
                 ("details", error_message error);
                 ("stack", stack error)]%string)))
  end.

(** ** chatRoutes.js *)

(** The answer of the chat endpoints once the limit is reached. *)
Definition limit_exceeded_response (usage : UsageRow) : HttpResponse :=
  JsonResponse 200
    (JObj [("error", jstr "Token limit exceeded");
           ("totalTokensUsed", JNum (total_tokens_used usage));
           ("limit", JNum (total_limit usage));
           ("exceeded", JBool true);
           ("message",
             JTemplate [jstr "You've used ";
                        JNum (total_tokens_used usage);
                        jstr " out of ";
                        JNum (total_limit usage);
                        jstr " tokens."])]%string).

Definition key_missing_response : HttpResponse :=
  JsonResponse 500
    (JObj [("error", jstr "GEMINI_API_KEY not configured on server")]%string).

(** The handler of [POST /api/chat]. *)
Definition apiChat (apiKey : bool)
  (generateContent : JS.str -> Result Content) (stack : Error -> json)
  (request : ChatRequest) : Prog HttpResponse :=
  if negb apiKey then Ret key_missing_response
  else
    tokenLimitExceeded <- isTokenLimitExceeded ;;
    if tokenLimitExceeded then
      usage <- getTokenUsage ;;
      Ret (limit_exceeded_response usage)
    else handleNonStreamingChat apiKey generateContent stack request.

(** The handler of [POST /api/stream]. *)
Definition apiStream (apiKey : bool) (request : ChatRequest)
  (gen : Generation) : Prog HttpResponse :=
  if negb apiKey then Ret key_missing_response
  else
    tokenLimitExceeded <- isTokenLimitExceeded ;;
    if tokenLimitExceeded then
      usage <- getTokenUsage ;;
      Ret (limit_exceeded_response usage)
    else handleStreamingChat request gen.

(** The handler of [POST /api/chat/complete]. *)
Definition apiChatComplete (apiKey : bool)
  (generateContent : JS.str -> Result Content) (stack : Error -> json)
  (request : ChatRequest) : Prog HttpResponse :=
  handleNonStreamingChat apiKey generateContent stack request.

(** The entry [handleNonStreamingChat] commits for a model answer. *)
Definition chat_tokens (body : ChatBody) (content : Content) : Z :=
  entry_tokenCount (body_message body) (content_text content)
    (extractGeminiTokenCount (Some (content_result content))).

(** A model API that answers every model but [gemini-1.5-pro], which is
    out of quota. *)
Definition hello_content : Content :=
  {| content_text := JS.lit "Hi there";
     content_result := {| usageMetadata := None; candidates := None;
                          response_usageMetadata := None |} |}.

Definition pro_out_of_quota (modelName : JS.str) : Result Content :=
  if JS.str_eqb modelName (JS.lit "gemini-1.5-pro")
  then Fail (UpstreamError "[429 Too Many Requests] Resource has been exhausted")
  else Ok hello_content.

Definition no_stack (error : Error) : json := JNull.

(** The answer [handleNonStreamingChat] works with: the one of the
    requested model, or the one of [gemini-1.5-flash] when
    [gemini-1.5-pro] is out of quota. *)
Definition model_answer (generateContent : JS.str -> Result Content)
  (modelName : JS.str) : Result Content :=
  match generateContent modelName with
  | Ok content => Ok content
  | Fail err =>
      if is_quota_error err && JS.str_eqb modelName (JS.lit "gemini-1.5-pro")
      then generateContent (JS.lit "gemini-1.5-flash")
      else Fail err
  end.

(** The statement that appends the entry of an answered request. *)
Definition chat_insert (body : ChatBody) (content : Content) : Command :=
  InsertChatHistory (body_message body) (content_text content)
    (chat_tokens body content) None
    (str_or (body_model body) config.defaultModel)
    (temperature_or (body_options body) (7 # 10))
    (JS.int_or (opt_maxTokens (body_options body)) 1024).

(** The world once the entry and the increment are committed. *)
Definition chat_committed (w : World) (body : ChatBody) (content : Content)
  : World :=
  log_all
    (with_tables w
       (fst (Sql.apply (clock w) (AddTokensUsed (chat_tokens body content))
               (fst (Sql.apply (clock w) (chat_insert body content)
                       (tables w))))))
    [EvRun (chat_insert body content) (Sql.next_chat_id (tables w));
     EvRun (AddTokensUsed (chat_tokens body content)) 0].

(** ** What a client reads from a response stream *)

(** The text an enqueued item carries: raw text, or the [chunk] of an
    NDJSON line. *)
Definition item_text (item : json) : JS.str :=
  match item with
  | JStr text => text
  | JObj _ =>
      match field "chunk" item with
      | Some (JStr text) => text
      | _ => []
      end
  | _ => []
  end.

(** The text received on the stream, in order. *)
Definition streamed_text (evs : list Event) : JS.str :=
  flat_map (fun ev =>
              match ev with
              | EvEnqueue item => item_text item
              | _ => []
              end) evs.

(** A generation that breaks off after two chunks. *)
Definition broken_generation : Generation :=
  {| chunks := [JS.lit "Hi"; JS.lit " th"];
     stream_error := Some (UpstreamError "fetch failed");
     finalResponse := None |}.

(** ** Programs that only read the store *)

(** The operation leaves the tables and the handle alone. *)
Definition reads {R : Type} (eff : Eff R) : bool :=
  match eff with
  | OpenDatabase | Run _ => false
  | _ => true
  end.

(** What reading the handle returns once the database is open. *)
Definition handle_open {R : Type} (eff : Eff R) : option (Result R) :=
  match eff in Eff R return option (Result R) with
  | ReadHandle => Some (Ok true)
  | _ => None
  end.

(** With the database open, the program performs no operation that
    writes: where it reads the handle, the path of the open handle is
    followed; elsewhere, every path is. *)
Fixpoint reads_only {A : Type} (p : Prog A) : Prop :=
  match p with
  | Do eff k =>
      reads eff = true
      /\ match handle_open eff with
         | Some r => reads_only (k r)
         | None => forall r, reads_only (k r)
         end
  | _ => True
  end.

(** The handle and the tables, committed and uncommitted, are the same. *)
Definition same_tables (w w' : World) : Prop :=
  db w' = db w
  /\ committed (store w') = committed (store w)
  /\ working (store w') = working (store w).

(** ** adminService.js *)

Module adminService.

(** [extendTokenLimit(amountToExtend, maxAllowedExtension)] *)
Definition extendTokenLimit (amountToExtend : JS.num)
  (maxAllowedExtension : Z) : Prog Extension :=
  rethrow (
    match amountToExtend with
    | JS.NaN => Throw InvalidExtensionAmount
    | JS.Int amount =>
        if amount <=? 0 then Throw InvalidExtensionAmount
        else if amount >? maxAllowedExtension then
          Throw (ExtensionExceedsMaximum maxAllowedExtension)
        else
          result <- extendTokenLimit amountToExtend maxAllowedExtension ;;
          detached broadcastUpdate ;;
          Ret result
    end).

(** [clearDatabase()] *)
Definition clearDatabase : Prog bool :=
  rethrow (
    clearDatabase ;;
    detached broadcastUpdate ;;
    Ret true).

End adminService.

(** ** adminRoutes.js *)

(** The body of a request to [POST /api/admin/extend-limit], as far as
    the handler looks at it. *)
Inductive ExtendBody : Type :=
| ExtendInvalidJson (error : Error)
    (* not a JSON document: [c.req.json()] rejects with [error] *)
| ExtendNull
    (* the document [null]: reading [body.amount] throws *)
| ExtendUnconvertible
    (* an [amount] without a string conversion, as [{"toString": 1}] *)
| ExtendAmount (text : JS.str).
    (* any other document; [text] is the string [body.amount] converts
       to, ["undefined"] when the body has no such field *)

(** [await c.req.json()] followed by the conversion [parseInt] starts
    with. *)
Definition amount_text (body : ExtendBody) : Prog JS.str :=
  match body with
  | ExtendInvalidJson error => Throw error
  | ExtendNull =>
      Throw (UpstreamError "Cannot read properties of null (reading 'amount')")
  | ExtendUnconvertible =>
      Throw (UpstreamError "Cannot convert object to primitive value")
  | ExtendAmount text => Ret text
  end.

(** The handler of [POST /api/admin/extend-limit]. *)
Definition apiAdminExtendLimit (body : ExtendBody) : Prog HttpResponse :=
  try_catch (
    text <- amount_text body ;;
    let amountToExtend := JS.parseInt text in
    match amountToExtend with
    | JS.NaN =>
        Ret (JsonResponse 400
          (JObj [("error",
                  jstr "Invalid or negative extension amount provided")]%string))
    | JS.Int n =>
        if (n =? 0) || (n <=? 0) then
          Ret (JsonResponse 400
            (JObj [("error",
                    jstr "Invalid or negative extension amount provided")]%string))
        else if n >? config.maxExtensionAmount then
          Ret (JsonResponse 400
            (JObj [("error",
                    JTemplate [jstr "Extension amount exceeds the maximum allowed (";
                               JNum config.maxExtensionAmount;
                               jstr " tokens)"])]%string))
        else
          result <- adminService.extendTokenLimit amountToExtend
                      config.maxExtensionAmount ;;
          Ret (JsonResponse 200
            (JObj [("success", JBool true);
                   ("message", JTemplate [jstr "Token limit extended by ";
                                          JNum n; jstr "."]);
                   ("previousLimit", JNum (previousLimit result));
                   ("newLimit", JNum (newLimit result));
                   ("currentUsage", JNum (currentUsage result))]%string))
    end)
  (fun error =>
    Ret (JsonResponse 500
      (JObj [("error", jstr "Failed to extend token limit");
             ("details", error_message error)]%string))).

(** The handler of [POST /api/admin/clear-database]. *)
Definition apiAdminClearDatabase : Prog HttpResponse :=
  try_catch (
    adminService.clearDatabase ;;
    Ret (JsonResponse 200
      (JObj [("success", JBool true);
             ("message", jstr "Database cleared successfully")]%string)))
  (fun error =>
    Ret (JsonResponse 500
      (JObj [("error", jstr "Failed to clear database");
             ("details", error_message error)]%string))).

(** The world after an update was broadcast from state [w]. *)
Definition broadcast_done (w : World) : World :=
  if Nat.eqb (List.length (wsClients w)) 0 then w
  else log_all (swept w) (broadcast_events w (update_message w)).

(** The statements of a completed [clearDatabase()]. *)
Definition clear_events : list Event :=
  [EvRun BeginTransaction 0; EvRun DeleteTokenComparisons 0;
   EvRun DeleteChatHistory 0; EvRun ResetTokensUsed 0;
   EvRun (DeleteSequence ["chat_history"; "token_comparisons"]%string) 0;
   EvRun Commit 0].

(** The event is a statement of the store. *)
Definition is_run (ev : Event) : Prop :=
  match ev with EvRun _ _ => True | _ => False end.

(** ** utils/helpers.js *)

(** [text.substring(0, end)]: a negative [end] counts as 0, one beyond
    the length as the length. *)
Definition substring0 (text : JS.str) (finish : Z) : JS.str :=
  firstn (Z.to_nat finish) text.

(** [truncate(text, maxLength = 100)] *)
Definition truncate (text : JS.str) (maxLength : Z) : JS.str :=
  match text with
  | [] => []
  | _ =>
      if JS.length text <=? maxLength then text
      else substring0 text maxLength ++ JS.lit "..."
  end.

(** The code units the class [\s] matches: the white space and the line
    terminators of the language. *)
Definition is_space (c : JS.code_unit) : bool :=
  ((9 <=? c) && (c <=? 13) || (c =? 32) || (c =? 160) || (c =? 5760)
   || (8192 <=? c) && (c <=? 8202) || (c =? 8232) || (c =? 8233)
   || (c =? 8239) || (c =? 8287) || (c =? 12288) || (c =? 65279))%N.

(** [s.replace(/\s+/g, ' ')]; [in_run] tells that the code unit before
    was white space, already replaced. *)
Fixpoint collapse_spaces (in_run : bool) (s : JS.str) : JS.str :=
  match s with
  | [] => []
  | c :: rest =>
      if is_space c then
        if in_run then collapse_spaces true rest
        else 32%N :: collapse_spaces true rest
      else c :: collapse_spaces false rest
  end.

(** [sanitizeForLog(input, maxLength = 500)] for a string [input]. *)
Definition sanitizeForLog (input : JS.str) (maxLength : Z) : JS.str :=
  match input with
  | [] => []
  | _ =>
      let str := input in
      let truncated := truncate str maxLength in
      collapse_spaces false truncated
  end.

(** No two neighbours are both white space. *)
Fixpoint single_spaced (s : JS.str) : Prop :=
  match s with
  | c :: ((d :: _) as rest) =>
      (is_space c = true -> is_space d = false) /\ single_spaced rest
  | _ => True
  end.

(** ** utils/logging.js *)

Module logging.

Inductive Level : Type := DEBUG | INFO | HTTP | SUCCESS | WARN | ERROR | FATAL.

Definition level_name (level : Level) : string :=
  match level with
  | DEBUG => "DEBUG" | INFO => "INFO" | HTTP => "HTTP"
  | SUCCESS => "SUCCESS" | WARN => "WARN" | ERROR => "ERROR"
  | FATAL => "FATAL"
  end.

Definition levels : list Level :=
  [DEBUG; INFO; HTTP; SUCCESS; WARN; ERROR; FATAL].

(** The value of a property of the object [LOG_LEVELS]: one of its seven
    numbers, a member inherited from [Object.prototype], or
    [undefined]. *)
Inductive Property : Type :=
| Own (n : Z)
| Inherited
| Absent.

Definition level_number (level : Level) : Z :=
  match level with
  | DEBUG => 0 | INFO => 1 | HTTP => 2 | SUCCESS => 3 | WARN => 4
  | ERROR => 5 | FATAL => 6
  end.

Definition object_prototype_keys : list string :=
  ["constructor"; "hasOwnProperty"; "isPrototypeOf"; "propertyIsEnumerable";
   "toLocaleString"; "toString"; "valueOf"; "__proto__";
   "__defineGetter__"; "__defineSetter__"; "__lookupGetter__";
   "__lookupSetter__"]%string.

(** [LOG_LEVELS[name]] *)
Definition LOG_LEVELS (name : string) : Property :=
  match find (fun level => String.eqb (level_name level) name) levels with
  | Some level => Own (level_number level)
  | None =>
      if existsb (String.eqb name) object_prototype_keys then Inherited
      else Absent
  end.

(** [LOG_LEVELS[config.logLevel] || LOG_LEVELS.INFO]: [0] and [undefined]
    are falsy. *)
Definition MIN_LOG_LEVEL (logLevel : string) : Property :=
  match LOG_LEVELS logLevel with
  | Own n => if n =? 0 then Own (level_number INFO) else Own n
  | Inherited => Inherited
  | Absent => Own (level_number INFO)
  end.

(** The module once loaded: [config.logLevel], which [setLogLevel]
    assigns, and the constant [MIN_LOG_LEVEL], computed at load time. *)
Record Logger : Type := {
  config_logLevel : string;
  min_log_level : Property
}.

Definition load (logLevel : string) : Logger :=
  {| config_logLevel := logLevel; min_log_level := MIN_LOG_LEVEL logLevel |}.

(** [logger.setLogLevel(level)] *)
Definition setLogLevel (level : string) (l : Logger) : Logger :=
  match LOG_LEVELS level with
  | Absent =>
      {| config_logLevel := "INFO"; min_log_level := min_log_level l |}
  | _ => {| config_logLevel := level; min_log_level := min_log_level l |}
  end.

(** The test of [log(level, ...)]: [LOG_LEVELS[level] >= MIN_LOG_LEVEL];
    compared with a function or an object, a number is neither smaller
    nor greater. *)
Definition prints (l : Logger) (level : Level) : bool :=
  match min_log_level l with
  | Own m => level_number level >=? m
  | _ => false
  end.

End logging.

(** ** wsServer.js *)

Module wsServer.

(** [wsClients.set(ws, info)]: a key that is present keeps its place. *)
Fixpoint map_set (ws : nat) (info : ClientInfo) (l : list (nat * ClientInfo))
  : list (nat * ClientInfo) :=
  match l with
  | [] => [(ws, info)]
  | p :: l' =>
      if Nat.eqb (fst p) ws then (ws, info) :: l'
      else p :: map_set ws info l'
  end.

(** [wsClients.get(ws)] *)
Definition map_get (ws : nat) (l : list (nat * ClientInfo))
  : option ClientInfo :=
  option_map snd (find (fun p => Nat.eqb (fst p) ws) l).

(** [handleConnection(ws, req)] up to the registration of the listeners;
    [clientIp] is [req.socket.remoteAddress] and [clientId] the
    identifier [uuidv4()] returns. *)
Definition handleConnection (ws : nat) (clientIp clientId : JS.str)
  (w : World) : World :=
  let w1 :=
    with_clients w
      (map_set ws {| client_id := clientId; ip := clientIp;
                     connectedAt := clock w; isAdmin := true;
                     lastActivity := clock w |} (wsClients w)) in
  fst (run (try_catch
              (perform (Send ws
                 (JObj [("type", jstr "welcome");
                        ("clientId", JStr clientId);
                        ("message",
                          jstr "Connected to Gemini API Admin Dashboard WebSocket");
                        ("time", JDate (clock w1));
                        ("clientCount",
                          JNum (Z.of_nat (List.length (wsClients w1))))]%string)))
              (fun error => Ret tt)) w1).

(** What a socket delivers: data that parses to a message object, or
    data [JSON.parse] rejects. *)
Inductive Data : Type :=
| Parsed (message : Message)
| Malformed (error : Error).

(** [clientInfo.lastActivity = new Date()] when the socket is registered *)
Definition touch (ws : nat) (w : World) : World :=
  match map_get ws (wsClients w) with
  | Some clientInfo =>
      with_clients w
        (map_set ws {| client_id := client_id clientInfo;
                       ip := ip clientInfo;
                       connectedAt := connectedAt clientInfo;
                       isAdmin := isAdmin clientInfo;
                       lastActivity := clock w |} (wsClients w))
  | None => w
  end.

(** The listener of ['message']; [handleMessage] is called without
    [await]. *)
Definition onMessage (ws : nat) (clientIp clientId : JS.str) (data : Data)
  (w : World) : World :=
  let w1 := touch ws w in
  match data with
  | Parsed message =>
      fst (run (detached (handleMessage ws message clientIp clientId)) w1)
  | Malformed error =>
      fst (run (try_catch
                  (perform (Send ws
                     (JObj [("type", jstr "error");
                            ("message", jstr "Failed to process message");
                            ("error", error_message error)]%string)))
                  (fun sendError => Ret tt)) w1)
  end.

(** The listener of ['close'] *)
Definition onClose (ws : nat) (w : World) : World :=
  with_clients w (map_delete ws (wsClients w)).

Record SentCount : Type := {
  total : Z;
  successful : Z;
  failed : Z
}.

(** [{ ...message, receivedAs, timestamp }]: a key of [message] keeps its
    place and takes the new value. *)
Fixpoint obj_set (key : string) (value : json) (fields : list (string * json))
  : list (string * json) :=
  match fields with
  | [] => [(key, value)]
  | p :: rest =>
      if String.eqb (fst p) key then (key, value) :: rest
      else p :: obj_set key value rest
  end.

Definition envelope (message : list (string * json)) (receivedAs : string)
  (now : Z) : json :=
  JObj (obj_set "timestamp" (JDate now)
          (obj_set "receivedAs" (jstr receivedAs) message)).

(** [broadcastToAll(message)] *)
Definition broadcastToAll (message : list (string * json))
  : Prog SentCount :=
  entries <- perform Clients ;;
  fold_each entries {| total := 0; successful := 0; failed := 0 |}
    (fun sentCount entry =>
       let ws := fst entry in
       let sentCount := {| total := total sentCount + 1;
                           successful := successful sentCount;
                           failed := failed sentCount |} in
       state <- perform (ReadyStateOf ws) ;;
       if is_open state then
         try_catch (
           now <- perform Now ;;
           perform (Send ws (envelope message "broadcast" now)) ;;
           Ret {| total := total sentCount;
                  successful := successful sentCount + 1;
                  failed := failed sentCount |})
         (fun error =>
           Ret {| total := total sentCount;
                  successful := successful sentCount;
                  failed := failed sentCount + 1 |})
       else
         Ret {| total := total sentCount;
                successful := successful sentCount;
                failed := failed sentCount + 1 |}).

(** [cleanupInactiveConnections(maxInactiveTime)] on the registry: [now]
    is the time of the call, [close_throws] tells the sockets whose
    [close] throws.  The result is the registry left and [closedCount]. *)
Definition cleanupInactiveConnections (maxInactiveTime now : Z)
  (close_throws : nat -> bool) (clients : list (nat * ClientInfo))
  : list (nat * ClientInfo) * Z :=
  fold_left
    (fun (state : list (nat * ClientInfo) * Z) (entry : nat * ClientInfo) =>
       let ws := fst entry in
       let clientInfo := snd entry in
       let inactiveDuration := now - lastActivity clientInfo in
       if inactiveDuration >? maxInactiveTime then
         if close_throws ws then state
         else (map_delete ws (fst state), snd state + 1)
       else state)
    clients (clients, 0).

End wsServer.

(** The program deletes no socket from the registry. *)
Fixpoint keeps_registry {A : Type} (p : Prog A) : Prop :=
  match p with
  | Do eff k =>
      match eff with ClientsDelete _ => False | _ => True end
      /\ forall r, keeps_registry (k r)
  | _ => True
  end.

(** The sockets [cleanupInactiveConnections] closes. *)
Definition expired (maxInactiveTime now : Z) (close_throws : nat -> bool)
  (entry : nat * ClientInfo) : bool :=
  (now - lastActivity (snd entry) >? maxInactiveTime)
  && negb (close_throws (fst entry)).

(** ** utils/auth.js *)

(** The canonical form of a code unit under the flag [i]; letters outside
    ASCII never become ASCII letters, so for the pattern below only the
    ASCII letters matter. *)
Definition upper (c : JS.code_unit) : JS.code_unit :=
  if ((97 <=? c) && (c <=? 122))%N then (c - 32)%N else c.

(** The code units [.] does not match. *)
Definition is_line_terminator (c : JS.code_unit) : bool :=
  ((c =? 10) || (c =? 13) || (c =? 8232) || (c =? 8233))%N.

(** [^Bearer] under the flag [i]: what follows the prefix. *)
Fixpoint strip_prefix_ci (pattern s : JS.str) : option JS.str :=
  match pattern, s with
  | [], _ => Some s
  | p :: pattern', c :: s' =>
      if (upper p =? upper c)%N then strip_prefix_ci pattern' s' else None
  | _ :: _, [] => None
  end.

(** [(.+)$]: the rest of the input, when it is not empty and holds no
    line terminator. *)
Definition rest_of_line (s : JS.str) : option JS.str :=
  match s with
  | [] => None
  | _ =>
      if forallb (fun c => negb (is_line_terminator c)) s then Some s
      else None
  end.

(** [\s+(.+)$]: the longest run of white space is tried first, then the
    shorter ones; the result is the group. *)
Fixpoint spaces_then_rest (s : JS.str) : option JS.str :=
  match s with
  | [] => None
  | c :: s' =>
      if is_space c then
        match spaces_then_rest s' with
        | Some group => Some group
        | None => rest_of_line s'
        end
      else None
  end.

(** [authHeader.match(/^Bearer\s+(.+)$/i)], reduced to its group 1. *)
Definition tokenMatch (authHeader : JS.str) : option JS.str :=
  match strip_prefix_ci (JS.lit "Bearer") authHeader with
  | Some after => spaces_then_rest after
  | None => None
  end.

(** [verifyAdminAccess(c)]: [authHeader] is the Authorization header of
    the request, if any, and [adminAuthToken] the configured token. *)
Definition verifyAdminAccess (authHeader : option JS.str)
  (adminAuthToken : JS.str) : bool :=
  match authHeader with
  | None | Some [] => false
  | Some header =>
      match tokenMatch header with
      | None => false
      | Some token =>
          if negb (JS.str_eqb token adminAuthToken) then false else true
      end
  end.
(** * Properties *)

(** ** JavaScript values *)

Lemma int_or_truthy (v : JS.val) (d : Z) :
  JS.truthy v = true -> JS.Number (JS.Int (JS.int_or v d)) = v.
Proof.
  destruct v as [| |[|z]]; simpl; try discriminate.
  destruct (z =? 0); simpl; [discriminate|reflexivity].
Qed.

Lemma int_or_falsy (v : JS.val) (d : Z) :
  JS.truthy v = false -> JS.int_or v d = d.
Proof.
  destruct v as [| |[|z]]; simpl; try reflexivity.
  destruct (z =? 0); simpl; [reflexivity|discriminate].
Qed.

Lemma str_eqb_eq (a b : JS.str) : JS.str_eqb a b = true <-> a = b.
Proof.
  unfold JS.str_eqb. destruct (list_eq_dec N.eq_dec a b); split;
    intros; congruence.
Qed.

Lemma length_app (a b : JS.str) :
  JS.length (a ++ b) = JS.length a + JS.length b.
Proof. unfold JS.length. rewrite List.length_app. lia. Qed.

(** ** Laws of the sequential semantics *)

Lemma run_bind {A B : Type} (p : Prog A) (f : A -> Prog B) (w : World) :
  run (bind p f) w =
  match run p w with
  | (w', Ok a) => run (f a) w'
  | (w', Fail e) => (w', Fail e)
  end.
Proof.
  revert w. induction p as [a|e|R eff k IH]; intros w; simpl; auto.
  destruct (exec eff w) as [w' r]. apply IH.
Qed.

Lemma run_try_catch {A : Type} (p : Prog A) (h : Error -> Prog A) (w : World) :
  run (try_catch p h) w =
  match run p w with
  | (w', Ok a) => (w', Ok a)
  | (w', Fail e) => run (h e) w'
  end.
Proof.
  revert w. induction p as [a|e|R eff k IH]; intros w; simpl; auto.
  destruct (exec eff w) as [w' r]. apply IH.
Qed.

Lemma run_rethrow {A : Type} (p : Prog A) (w : World) :
  run (rethrow p) w = run p w.
Proof.
  unfold rethrow. rewrite run_try_catch.
  destruct (run p w) as [w' [a|e]]; reflexivity.
Qed.

Lemma run_perform {R : Type} (eff : Eff R) (w : World) :
  run (perform eff) w = exec eff w.
Proof.
  unfold perform. simpl. destruct (exec eff w) as [w' [r|e]]; reflexivity.
Qed.

Lemma run_getDb_open (w : World) : db w = true -> run getDb w = (w, Ok tt).
Proof. intros H. unfold getDb. simpl. rewrite H. reflexivity. Qed.

(** Exposes the fields of a ready world, so that runs compute. *)
Ltac expose w :=
  let dbh := fresh "dbh" in
  let t := fresh "t" in
  let wk := fresh "wk" in
  let fs := fresh "fs" in
  destruct w as [dbh [t wk fs] ? ? ? ? ?];
  unfold ready, tables in *; simpl in * |-.

Ltac expose_ready w H :=
  expose w; destruct H as (? & ? & ?); subst; simpl in * |-.

(** Enters a chat handler with a request whose body was read. *)
Ltac open_request :=
  match goal with
  | |- context [bind (chat_body (Body ?b)) ?f] =>
      change (bind (chat_body (Body b)) f) with (f b); cbv beta
  end.

(** Evaluates the run the goal speaks about. *)
Ltac compute_run :=
  match goal with
  | |- context [run ?p ?w] =>
      let res := fresh "res" in
      let Hres := fresh "Hres" in
      remember (run p w) as res eqn:Hres; vm_compute in Hres; subst res
  end.

(** Executes the next statement of a run on an exposed world. *)
Ltac sql_step :=
  rewrite run_bind, run_perform;
  cbv [exec Sql.pop_fault Sql.run Sql.apply Sql.view Sql.write Sql.query
       Sql.set_usage_stats faults working committed store clock db trace
       wsClients readyState send_throws log with_store with_db
       usage_stats chat_history token_comparisons sqlite_sequence];
  cbv iota beta.

(** ** The usage ledger *)

Lemma run_getTokenUsage_ready (w : World) :
  ready w ->
  run getTokenUsage w =
  (w, Ok match hd_error (usage_stats (tables w)) with
         | Some s => s
         | None => {| total_tokens_used := 0; total_limit := 10000 |}
         end).
Proof. intros H. expose_ready w H. reflexivity. Qed.

Lemma run_isTokenLimitExceeded_ready (w : World) (row : UsageRow)
  (rest : list UsageRow) :
  ready w ->
  usage_stats (tables w) = row :: rest ->
  run isTokenLimitExceeded w =
  (w, Ok (total_tokens_used row >=? total_limit row)).
Proof.
  intros H Hrow. unfold isTokenLimitExceeded.
  rewrite run_rethrow, run_bind, run_getTokenUsage_ready by assumption.
  rewrite Hrow. reflexivity.
Qed.

(** What a commit of an entry does to a ready world. *)
Lemma run_addChatEntry_ready (w : World) (userInput response : JS.str)
  (geminiTokenCount : JS.val) (model : JS.str) (options : Options) :
  ready w ->
  let n := entry_tokenCount userInput response geminiTokenCount in
  let i := Sql.next_chat_id (tables w) in
  let insert :=
    InsertChatHistory userInput response n None model
      (temperature_or options (7 # 10))
      (JS.int_or (opt_maxTokens options) 1024) in
  exists w',
    run (addChatEntry userInput response geminiTokenCount model options) w
    = (w', Ok {| chatId := i; tokensAdded := n |})
    /\ ready w'
    /\ usage_stats (tables w') = map (Sql.add_tokens n) (usage_stats (tables w))
    /\ chat_history (tables w')
       = chat_history (fst (Sql.apply (clock w) insert (tables w)))
    /\ trace w' = trace w ++ [EvRun insert i; EvRun (AddTokensUsed n) 0]
    /\ wsClients w' = wsClients w
    /\ clock w' = clock w.
Proof.
  intros H n i insert. expose_ready w H.
  eexists. split; [reflexivity|]. simpl.
  rewrite <- app_assoc. repeat split; reflexivity.
Qed.

(** C1. From the ledger state {consumed 0, limit 10000}, the sequence
    increment(4000); extend(5000, 20000); isExceeded(); increment(11000);
    isExceeded() yields {4000,10000}, {previousLimit 10000, newLimit
    15000}, false, {15000,15000}, true.  In any ready state [w2] an
    increment is accepted whatever the counter and the limit are, and
    isExceeded() is [consumed >= limit]. *)
Theorem ledger_example (w : World) (userInput response model : JS.str)
  (options : Options) (w2 : World) (row : UsageRow) (rest : list UsageRow)
  (geminiTokenCount : JS.val) :
  ready w ->
  usage_stats (tables w) = [{| total_tokens_used := 0; total_limit := 10000 |}] ->
  ready w2 ->
  usage_stats (tables w2) = row :: rest ->
  snd (run (ledger_scenario userInput response model options) w)
  = Ok ({| total_tokens_used := 4000; total_limit := 10000 |},
        {| success := true; previousLimit := 10000; newLimit := 15000;
           amountAdded := 5000; currentUsage := 4000 |},
        false,
        {| total_tokens_used := 15000; total_limit := 15000 |},
        true)
  /\ run isTokenLimitExceeded w2
     = (w2, Ok (total_tokens_used row >=? total_limit row))
  /\ (let n := entry_tokenCount userInput response geminiTokenCount in
      exists w2' entry,
        run (addChatEntry userInput response geminiTokenCount model options) w2
        = (w2', Ok entry)
        /\ tokensAdded entry = n
        /\ hd_error (usage_stats (tables w2'))
           = Some {| total_tokens_used := total_tokens_used row + n;
                     total_limit := total_limit row |}).
Proof.
  intros Hw Hstart Hw2 Hrow. split; [|split].
  - expose_ready w Hw. destruct t as [us ch tc sq]. simpl in Hstart.
    subst us. reflexivity.
  - now apply run_isTokenLimitExceeded_ready with (rest := rest).
  - intros n.
    destruct (run_addChatEntry_ready w2 userInput response geminiTokenCount
                model options Hw2) as (w2' & Hrun & _ & Hus & _).
    exists w2'. eexists. split; [exact Hrun|]. split; [reflexivity|].
    rewrite Hus, Hrow. reflexivity.
Qed.

Lemma ledger_example_witness :
  snd (run (ledger_scenario (JS.lit "hello") (JS.lit "world")
              config.defaultModel no_options) started_world)
  = Ok ({| total_tokens_used := 4000; total_limit := 10000 |},
        {| success := true; previousLimit := 10000; newLimit := 15000;
           amountAdded := 5000; currentUsage := 4000 |},
        false,
        {| total_tokens_used := 15000; total_limit := 15000 |},
        true).
Proof.
  refine (proj1 (@ledger_example started_world (JS.lit "hello")
                   (JS.lit "world") config.defaultModel no_options
                   started_world
                   {| total_tokens_used := 0; total_limit := 10000 |} []
                   (JS.Number (JS.Int 4000)) _ _ _ _)).
  - repeat split; reflexivity.
  - reflexivity.
  - repeat split; reflexivity.
  - reflexivity.
Defined.

(** ** The broadcaster *)

Lemma log_all_nil (w : World) : log_all w [] = w.
Proof. destruct w. unfold log_all. simpl. now rewrite app_nil_r. Qed.

Lemma log_all_app (w : World) (a b : list Event) :
  log_all (log_all w a) b = log_all w (a ++ b).
Proof. unfold log_all. simpl. now rewrite app_assoc. Qed.

Lemma log_log_all (w : World) (ev : Event) : log w ev = log_all w [ev].
Proof. reflexivity. Qed.

(** A loop whose iterations only write to the trace. *)
Lemma run_fold_each_log {X S : Type} (body : S -> X -> Prog S)
  (ev : World -> X -> list Event) (upd : World -> S -> X -> S) :
  (forall s x w, run (body s x) w = (log_all w (ev w x), Ok (upd w s x))) ->
  (forall w evs x, ev (log_all w evs) x = ev w x) ->
  (forall w evs s x, upd (log_all w evs) s x = upd w s x) ->
  forall (l : list X) (s : S) (w : World),
    run (fold_each l s body) w
    = (log_all w (flat_map (ev w) l), Ok (fold_left (upd w) l s)).
Proof.
  intros Hbody Hev Hupd l. induction l as [|x l IH]; intros s w; simpl.
  - now rewrite log_all_nil.
  - rewrite run_bind, Hbody, IH, log_all_app.
    f_equal.
    + f_equal. f_equal. apply flat_map_ext. intros y. apply Hev.
    + f_equal. clear IH. generalize (upd w s x). induction l as [|y l IHl];
        intros s'; simpl; [reflexivity|]. rewrite Hupd. apply IHl.
Qed.

Lemma flat_map_filter {X Y : Type} (f : X -> bool) (g : X -> Y) (l : list X) :
  flat_map (fun x => if f x then [g x] else []) l = map g (filter f l).
Proof.
  induction l as [|x l IH]; simpl; [reflexivity|].
  destruct (f x); simpl; now rewrite IH.
Qed.

(** The per-socket step of [broadcastToAll]. *)
Lemma run_broadcast_step (message : json) (counts : Z * Z)
  (entry : WsId * ClientInfo) (w : World) :
  run (state <- perform (ReadyStateOf (fst entry)) ;;
       if is_open state then
         try_catch (perform (Send (fst entry) message) ;;
                    Ret (fst counts + 1, snd counts))
                   (fun error => Ret (fst counts, snd counts))
       else if is_closed_or_closing state then
         Ret (fst counts, snd counts + 1)
       else Ret (fst counts, snd counts)) w
  = (log_all w (if deliverable w entry then [EvSend (fst entry) message] else []),
     Ok (fst counts + (if deliverable w entry then 1 else 0),
         snd counts + (if dead w entry then 1 else 0))).
Proof.
  simpl. unfold deliverable, dead.
  destruct (readyState w (fst entry)); simpl;
    try (rewrite log_all_nil, !Z.add_0_r; reflexivity).
  destruct (send_throws w (fst entry)); simpl.
  - now rewrite log_all_nil, !Z.add_0_r.
  - now rewrite Z.add_0_r.
Qed.

Lemma fold_left_counts (f g : WsId * ClientInfo -> bool)
  (l : list (WsId * ClientInfo)) (a c : Z) :
  fold_left (fun (counts : Z * Z) entry =>
               (fst counts + (if f entry then 1 else 0),
                snd counts + (if g entry then 1 else 0))) l (a, c)
  = (a + Z.of_nat (List.length (filter f l)),
     c + Z.of_nat (List.length (filter g l))).
Proof.
  revert a c. induction l as [|x l IH]; intros a c; simpl.
  - now rewrite !Z.add_0_r.
  - rewrite IH. destruct (f x), (g x); simpl List.length; f_equal; lia.
Qed.

Lemma with_clients_same (w : World) : with_clients w (wsClients w) = w.
Proof. now destruct w. Qed.

Lemma map_delete_filter (ws : WsId) (l : list (WsId * ClientInfo)) :
  map_delete ws l = filter (fun entry => negb (Nat.eqb (fst entry) ws)) l.
Proof.
  induction l as [|p l IH]; simpl; [reflexivity|].
  destruct (Nat.eqb (fst p) ws); simpl; now rewrite IH.
Qed.

Lemma run_for_each_delete (keys : list WsId) (w : World) :
  run (for_each keys (fun client => perform (ClientsDelete client))) w
  = (with_clients w (fold_left (fun l k => map_delete k l) keys (wsClients w)),
     Ok tt).
Proof.
  revert w. induction keys as [|k keys IH]; intros w; simpl.
  - now rewrite with_clients_same.
  - rewrite IH. reflexivity.
Qed.

Lemma fold_left_map_delete (keys : list WsId) (l : list (WsId * ClientInfo)) :
  fold_left (fun l k => map_delete k l) keys l
  = filter (fun entry => negb (existsb (Nat.eqb (fst entry)) keys)) l.
Proof.
  revert l. induction keys as [|k keys IH]; intros l; simpl.
  - induction l as [|p l IHl]; simpl; [reflexivity|]. now rewrite <- IHl.
  - rewrite IH, map_delete_filter. clear IH.
    induction l as [|p l IHl]; simpl; [reflexivity|].
    destruct (Nat.eqb (fst p) k); simpl; [exact IHl|].
    destruct (existsb (Nat.eqb (fst p)) keys); simpl; now rewrite IHl.
Qed.

(** Deleting the keys of the dead entries leaves the live entries. *)
Lemma delete_dead_keys (w : World) :
  fold_left (fun l k => map_delete k l)
            (map fst (filter (dead w) (wsClients w))) (wsClients w)
  = live_clients w.
Proof.
  rewrite fold_left_map_delete. unfold live_clients.
  apply filter_ext_in. intros e He. f_equal.
  destruct (dead w e) eqn:Hd.
  - apply existsb_exists. exists (fst e). split; [|apply Nat.eqb_refl].
    apply in_map. apply filter_In. now split.
  - destruct (existsb _ _) eqn:Hex; [|reflexivity].
    apply existsb_exists in Hex. destruct Hex as (k & Hk & Heq).
    apply Nat.eqb_eq in Heq. apply in_map_iff in Hk.
    destruct Hk as (e' & Hfst & He'). apply filter_In in He'.
    destruct He' as [_ Hd']. unfold dead in *. congruence.
Qed.

Lemma fold_left_collect (w : World) (l : list (WsId * ClientInfo))
  (acc : list WsId) :
  fold_left (fun toDelete entry =>
               if dead w entry then toDelete ++ [fst entry] else toDelete)
            l acc
  = acc ++ map fst (filter (dead w) l).
Proof.
  revert acc. induction l as [|x l IH]; intros acc; simpl.
  - now rewrite app_nil_r.
  - rewrite IH. destruct (dead w x); simpl; [|reflexivity].
    now rewrite <- app_assoc.
Qed.

Lemma run_cleanupClosedConnections (w : World) :
  run cleanupClosedConnections w
  = (with_clients w (live_clients w),
     Ok (Z.of_nat (List.length (wsClients w))
         - Z.of_nat (List.length (live_clients w)))).
Proof.
  unfold cleanupClosedConnections.
  rewrite run_bind, run_perform. simpl exec. cbv iota beta.
  rewrite run_bind.
  rewrite (run_fold_each_log _ (fun _ _ => [])
             (fun w toDelete entry =>
                if dead w entry then toDelete ++ [fst entry] else toDelete)).
  - rewrite fold_left_collect. simpl app.
    replace (flat_map (fun _ : WsId * ClientInfo => []) (wsClients w))
      with (@nil Event) by (induction (wsClients w); simpl; auto).
    rewrite log_all_nil, run_bind, run_for_each_delete, delete_dead_keys.
    reflexivity.
  - intros s x w0. simpl. unfold dead. rewrite log_all_nil.
    destruct (is_closed_or_closing (readyState w0 (fst x))); reflexivity.
  - reflexivity.
  - reflexivity.
Qed.

Lemma run_broadcastToAll (data : json) (w : World) :
  let n_sent := Z.of_nat (List.length (filter (deliverable w) (wsClients w))) in
  let n_dead := Z.of_nat (List.length (filter (dead w) (wsClients w))) in
  run (broadcastToAll data) w
  = (log_all (if n_dead >? 0 then with_clients w (live_clients w) else w)
             (broadcast_events w data),
     Ok {| sent := n_sent; closed := n_dead |}).
Proof.
  intros n_sent n_dead. unfold broadcastToAll.
  rewrite run_bind, run_perform. simpl exec. cbv iota beta.
  rewrite run_bind.
  rewrite (run_fold_each_log _
             (fun w entry =>
                if deliverable w entry then [EvSend (fst entry) data] else [])
             (fun w (counts : Z * Z) entry =>
                (fst counts + (if deliverable w entry then 1 else 0),
                 snd counts + (if dead w entry then 1 else 0)))).
  - rewrite fold_left_counts, flat_map_filter. simpl fst. simpl snd.
    fold n_sent n_dead. fold (broadcast_events w data).
    rewrite run_bind. destruct (n_dead >? 0).
    + rewrite run_bind, run_cleanupClosedConnections. reflexivity.
    + reflexivity.
  - intros s x w0. apply run_broadcast_step.
  - reflexivity.
  - reflexivity.
Qed.

(** A broadcast to all sockets but one. *)
Lemma fold_left_sent (f : nat * ClientInfo -> bool)
  (l : list (nat * ClientInfo)) (a : Z) :
  fold_left (fun (sent : Z) entry => sent + (if f entry then 1 else 0)) l a
  = a + Z.of_nat (List.length (filter f l)).
Proof.
  revert a. induction l as [|x l IH]; intros a; simpl.
  - now rewrite Z.add_0_r.
  - rewrite IH. destruct (f x); simpl List.length; lia.
Qed.

Lemma run_broadcastToOthers (excludeWs : nat) (data : json) (w : World) :
  run (broadcastToOthers excludeWs data) w
  = (log_all w (others_events w excludeWs data),
     Ok (Z.of_nat (List.length (filter (other_deliverable w excludeWs)
                                  (wsClients w))))).
Proof.
  unfold broadcastToOthers.
  rewrite run_bind, run_perform. simpl exec. cbv iota beta.
  rewrite (run_fold_each_log _
             (fun w entry =>
                if other_deliverable w excludeWs entry
                then [EvSend (fst entry) data] else [])
             (fun w (sent : Z) entry =>
                sent + (if other_deliverable w excludeWs entry then 1 else 0))).
  - now rewrite fold_left_sent, flat_map_filter.
  - intros s x w0. simpl. unfold other_deliverable, deliverable.
    destruct (Nat.eqb (fst x) excludeWs); simpl;
      [now rewrite log_all_nil, Z.add_0_r|].
    destruct (readyState w0 (fst x)); simpl;
      try (now rewrite log_all_nil, Z.add_0_r).
    destruct (send_throws w0 (fst x)); simpl;
      [now rewrite log_all_nil, Z.add_0_r|reflexivity].
  - reflexivity.
  - reflexivity.
Qed.

Lemma count_key_NoDup (ws : WsId) (l : list (WsId * ClientInfo)) :
  NoDup (map fst l) ->
  List.length (filter (fun entry => Nat.eqb (fst entry) ws) l)
  = if existsb (fun entry => Nat.eqb (fst entry) ws) l then 1%nat else 0%nat.
Proof.
  induction l as [|e l IH]; simpl; intros Hnd; [reflexivity|].
  inversion Hnd as [|k ks Hnotin Hnd']; subst.
  destruct (Nat.eqb (fst e) ws) eqn:Heq; simpl.
  - apply Nat.eqb_eq in Heq. subst ws.
    rewrite (IH Hnd').
    destruct (existsb _ l) eqn:Hex; [|reflexivity].
    exfalso. apply Hnotin. apply existsb_exists in Hex.
    destruct Hex as (e' & Hin & He'). apply Nat.eqb_eq in He'.
    rewrite <- He'. now apply in_map.
  - now apply IH.
Qed.

Lemma filter_key_deliverable (w : World) (ws : WsId)
  (l : list (WsId * ClientInfo)) :
  filter (fun entry => Nat.eqb (fst entry) ws) (filter (deliverable w) l)
  = if is_open (readyState w ws) && negb (send_throws w ws)
    then filter (fun entry => Nat.eqb (fst entry) ws) l
    else [].
Proof.
  induction l as [|e l IH]; simpl.
  - now destruct (_ && _).
  - destruct (Nat.eqb (fst e) ws) eqn:Heq.
    + apply Nat.eqb_eq in Heq. unfold deliverable at 1. rewrite Heq.
      destruct (is_open (readyState w ws) && negb (send_throws w ws)) eqn:Hd;
        simpl; rewrite IH, ?Heq, ?Nat.eqb_refl; reflexivity.
    + destruct (deliverable w e); simpl; rewrite ?Heq, IH; reflexivity.
Qed.

Lemma sends_to (ws : WsId) (data : json) (l : list (WsId * ClientInfo)) :
  filter (is_send_to ws) (map (fun entry => EvSend (fst entry) data) l)
  = map (fun entry => EvSend (fst entry) data)
        (filter (fun entry => Nat.eqb (fst entry) ws) l).
Proof.
  induction l as [|e l IH]; simpl; [reflexivity|].
  destruct (Nat.eqb (fst e) ws); simpl; now rewrite IH.
Qed.

(** C7. [broadcastToAll] hands the payload exactly once to every
    registered socket that is OPEN (and whose send does not throw) and to
    no other socket, whatever the state of the other sockets; when a
    CLOSED or CLOSING socket is met, the registry afterwards holds the
    remaining sockets only. *)
Theorem broadcastToAll_fan_out (w : World) (data : json) :
  NoDup (map fst (wsClients w)) ->
  exists w' counts evs,
    run (broadcastToAll data) w = (w', Ok counts)
    /\ trace w' = trace w ++ evs
    /\ (forall ws,
          List.length (filter (is_send_to ws) evs)
          = if registered w ws && is_open (readyState w ws)
               && negb (send_throws w ws)
            then 1%nat else 0%nat)
    /\ (forall ev, In ev evs ->
          exists ws, ev = EvSend ws data /\ registered w ws = true
                     /\ readyState w ws = OPEN)
    /\ ((exists ws, registered w ws = true
                    /\ is_closed_or_closing (readyState w ws) = true) ->
        wsClients w' = live_clients w
        /\ forall ws, is_closed_or_closing (readyState w ws) = true ->
                      registered w' ws = false)
    /\ store w' = store w.
Proof.
  intros Hnd. pose proof (run_broadcastToAll data w) as Hrun. simpl in Hrun.
  eexists. eexists. exists (broadcast_events w data).
  split; [exact Hrun|].
  split; [now destruct (_ >? 0)|].
  split; [|split; [|split; [|now destruct (_ >? 0)] ] ].
  - intros ws. unfold broadcast_events.
    rewrite sends_to, length_map, filter_key_deliverable.
    unfold registered.
    destruct (is_open (readyState w ws) && negb (send_throws w ws)) eqn:Hd.
    + rewrite (count_key_NoDup ws _ Hnd).
      rewrite <- andb_assoc, Hd, andb_true_r. reflexivity.
    + rewrite <- andb_assoc, Hd, andb_false_r. reflexivity.
  - intros ev Hin. unfold broadcast_events in Hin.
    apply in_map_iff in Hin. destruct Hin as (e & Hev & He).
    apply filter_In in He. destruct He as [He Hd].
    exists (fst e). split; [now symmetry|]. split.
    + apply existsb_exists. exists e. split; [exact He|apply Nat.eqb_refl].
    + unfold deliverable in Hd. apply andb_prop in Hd. destruct Hd as [Ho _].
      now destruct (readyState w (fst e)).
  - intros (ws & Hreg & Hdead).
    assert (Hpos : (Z.of_nat (List.length (filter (dead w) (wsClients w))) >? 0)
                   = true).
    { apply existsb_exists in Hreg. destruct Hreg as (e & He & Heq).
      apply Nat.eqb_eq in Heq. subst ws.
      assert (Hin : In e (filter (dead w) (wsClients w)))
        by (apply filter_In; now split).
      destruct (filter (dead w) (wsClients w)); [destruct Hin|].
      simpl List.length. apply Z.gtb_lt. lia. }
    rewrite Hpos. simpl. split; [reflexivity|].
    intros ws' Hd'. unfold registered. simpl.
    destruct (existsb _ _) eqn:Hex; [|reflexivity].
    apply existsb_exists in Hex. destruct Hex as (e & He & Heq).
    apply Nat.eqb_eq in Heq. subst ws'. unfold live_clients in He.
    apply filter_In in He. destruct He as [_ Hlive].
    unfold dead in Hlive. rewrite Hd' in Hlive. discriminate.
Qed.

Lemma broadcastToAll_fan_out_witness :
  exists w' counts evs,
    run (broadcastToAll (jstr "payload")) three_clients_world
    = (w', Ok counts)
    /\ trace w' = trace three_clients_world ++ evs
    /\ (forall ws,
          List.length (filter (is_send_to ws) evs)
          = if registered three_clients_world ws
               && is_open (readyState three_clients_world ws)
               && negb (send_throws three_clients_world ws)
            then 1%nat else 0%nat)
    /\ (forall ev, In ev evs ->
          exists ws, ev = EvSend ws (jstr "payload")
                     /\ registered three_clients_world ws = true
                     /\ readyState three_clients_world ws = OPEN)
    /\ ((exists ws, registered three_clients_world ws = true
                    /\ is_closed_or_closing
                         (readyState three_clients_world ws) = true) ->
        wsClients w' = live_clients three_clients_world
        /\ forall ws,
             is_closed_or_closing (readyState three_clients_world ws) = true ->
             registered w' ws = false)
    /\ store w' = store three_clients_world.
Proof.
  apply (broadcastToAll_fan_out three_clients_world (jstr "payload")).
  simpl. repeat constructor; simpl; intuition discriminate.
Defined.

(** The example of the design document: A and C receive one copy each,
    and B is dropped from the registry. *)
Example broadcast_skips_closed :
  let r := run (broadcastToAll (jstr "payload")) three_clients_world in
  trace (fst r) = [EvSend 0%nat (jstr "payload"); EvSend 2%nat (jstr "payload")]
  /\ map fst (wsClients (fst r)) = [0%nat; 2%nat]
  /\ snd r = Ok {| sent := 2; closed := 1 |}.
Proof. repeat split; reflexivity. Qed.

(** ** Events a program can emit *)

Section Emits.

Variable P : Event -> Prop.

Lemma exec_emits {R : Type} (eff : Eff R) (w : World) :
  eff_emits P eff ->
  exists evs, trace (fst (exec eff w)) = trace w ++ evs /\ Forall P evs.
Proof.
  intros H.
  assert (Hnil : exists evs, trace w = trace w ++ evs /\ Forall P evs)
    by (exists []; split; [now rewrite app_nil_r|constructor]).
  destruct eff; simpl in *; try exact Hnil.
  - destruct (Sql.pop_fault (store w)) as [[|] d]; exact Hnil.
  - destruct (Sql.pop_fault (store w)) as [[|] d]; [exact Hnil|].
    destruct (Sql.run (clock w) c d) as [d' [i|e]]; [|exact Hnil].
    exists [EvRun c i]. split; [reflexivity|]. constructor; [apply H|constructor].
  - destruct (Sql.pop_fault (store w)) as [[|] d]; exact Hnil.
  - destruct (send_throws w ws); [exact Hnil|].
    exists [EvSend ws message]. split; [reflexivity|]. now repeat constructor.
  - exists [EvEnqueue item]. split; [reflexivity|]. now repeat constructor.
  - exists [EvClose]. split; [reflexivity|]. now repeat constructor.
  - exists [EvError e]. split; [reflexivity|]. now repeat constructor.
Qed.

Lemma run_emits {A : Type} (p : Prog A) :
  emits P p ->
  forall w, exists evs,
    trace (fst (run p w)) = trace w ++ evs /\ Forall P evs.
Proof.
  induction p as [a|e|R eff k IH]; simpl; intros H w.
  - exists []. split; [now rewrite app_nil_r|constructor].
  - exists []. split; [now rewrite app_nil_r|constructor].
  - destruct H as [Heff Hk].
    destruct (exec_emits eff w Heff) as (evs1 & Ht1 & Hp1).
    destruct (exec eff w) as [w1 r]. simpl in Ht1.
    destruct (IH r (Hk r) w1) as (evs2 & Ht2 & Hp2).
    exists (evs1 ++ evs2). split.
    + now rewrite Ht2, Ht1, app_assoc.
    + apply Forall_app. now split.
Qed.

Lemma emits_bind {A B : Type} (p : Prog A)
  (f : A -> Prog B) :
  emits P p -> (forall a, emits P (f a)) -> emits P (bind p f).
Proof.
  intros Hp Hf. induction p as [a|e|R eff k IH]; simpl in *; auto.
  destruct Hp as [Heff Hk]. split; auto.
Qed.

Lemma emits_try_catch {A : Type} (p : Prog A)
  (h : Error -> Prog A) :
  emits P p -> (forall e, emits P (h e)) -> emits P (try_catch p h).
Proof.
  intros Hp Hh. induction p as [a|e|R eff k IH]; simpl in *; auto.
  destruct Hp as [Heff Hk]. split; auto.
Qed.

Lemma emits_perform {R : Type} (eff : Eff R) :
  eff_emits P eff -> emits P (perform eff).
Proof. intros H. simpl. split; [exact H|]. now intros [r|e]. Qed.

Lemma emits_rethrow {A : Type} (p : Prog A) :
  emits P p -> emits P (rethrow p).
Proof. intros H. apply emits_try_catch; simpl; auto. Qed.

Lemma emits_fold_each {X S : Type} (l : list X)
  (body : S -> X -> Prog S) :
  (forall s x, emits P (body s x)) -> forall s, emits P (fold_each l s body).
Proof.
  intros H. induction l as [|x l IH]; intros s; simpl; auto.
  apply emits_bind; auto.
Qed.

Lemma emits_for_each {X : Type} (l : list X)
  (body : X -> Prog unit) :
  (forall x, emits P (body x)) -> emits P (for_each l body).
Proof.
  intros H. induction l as [|x l IH]; simpl; auto.
  apply emits_bind; auto.
Qed.

End Emits.

(** Proves [emits P p] by following the structure of [p]; what is left
    are the obligations of the operations performed. *)
Ltac emits_tac :=
  repeat first
    [ exact I
    | apply emits_perform
    | apply emits_rethrow
    | apply emits_try_catch; [|intros ?]
    | apply emits_bind; [|intros ?]
    | apply emits_fold_each; intros ? ?
    | apply emits_for_each; intros ?
    | match goal with
      | |- emits _ (if ?b then _ else _) => destruct b
      | |- emits _ (match ?x with _ => _ end) => destruct x
      end ].

(** ** Usage payloads *)

Lemma usage_object_consistent (usage : UsageRow) :
  usage_consistent (usage_object usage).
Proof.
  exists (total_tokens_used usage), (total_limit usage),
    (Z.max 0 (total_limit usage - total_tokens_used usage)),
    (total_tokens_used usage >=? total_limit usage).
  repeat split; try reflexivity; lia.
Qed.

Lemma emits_getDb (P : Event -> Prop) :
  (forall c i, P (EvRun c i)) -> emits P getDb.
Proof.
  intros H. unfold getDb, initializeDatabase. emits_tac; simpl; auto.
Qed.

Lemma emits_getTokenUsage (P : Event -> Prop) :
  (forall c i, P (EvRun c i)) -> emits P getTokenUsage.
Proof.
  intros H. unfold getTokenUsage. emits_tac; simpl; auto.
Qed.


Lemma emits_cleanupClosedConnections (P : Event -> Prop) :
  emits P cleanupClosedConnections.
Proof. unfold cleanupClosedConnections. emits_tac. Qed.

Lemma emits_broadcastToAll (P : Event -> Prop) (data : json) :
  (forall ws, P (EvSend ws data)) -> emits P (broadcastToAll data).
Proof.
  intros H. unfold broadcastToAll. emits_tac;
    try apply emits_cleanupClosedConnections. apply H.
Qed.

Lemma update_carries_consistent_usage (usage : UsageRow)
  (rest : list (string * json)) :
  carries_consistent_usage
    (JObj (("type", jstr "update") :: ("usage", usage_object usage) :: rest)%string).
Proof.
  split.
  - intros _. now exists (usage_object usage).
  - intros u Hu. simpl in Hu. injection Hu as <-.
    apply usage_object_consistent.
Qed.

Lemma emits_broadcastUpdate : emits sends_consistent_usage broadcastUpdate.
Proof.
  unfold broadcastUpdate. emits_tac; simpl; auto.
  all: try apply update_carries_consistent_usage.
Qed.

Lemma emits_handleRequestUpdate (ws : WsId) (clientIp clientId : JS.str) :
  emits sends_consistent_usage (handleRequestUpdate ws clientIp clientId).
Proof.
  unfold handleRequestUpdate. emits_tac; simpl; auto.
  all: try apply update_carries_consistent_usage.
  - split; simpl; intros; discriminate.
Qed.

Lemma run_apiUsage (w : World) :
  exists status body,
    snd (run apiUsage w) = Ok (JsonResponse status body)
    /\ (status = 200 -> usage_consistent body)
    /\ (status = 200 \/ status = 500).
Proof.
  unfold apiUsage. rewrite run_try_catch, run_bind.
  destruct (run getTokenUsage w) as [w1 [usage|e]].
  - destruct (total_tokens_used usage >=? total_limit usage) eqn:Hex; simpl;
      eexists; eexists; (split; [reflexivity|]); (split; [intros _|now left]).
    + exists (total_tokens_used usage), (total_limit usage), 0, true.
      repeat split; try reflexivity; lia.
    + exists (total_tokens_used usage), (total_limit usage),
        (Z.max 0 (total_limit usage - total_tokens_used usage)), false.
      repeat split; try reflexivity; try lia; try discriminate.
  - simpl. eexists. eexists. split; [reflexivity|].
    split; [discriminate|now right].
Qed.

Lemma usage_object_reports (usage : UsageRow) :
  reports usage (usage_object usage).
Proof. repeat split. Qed.

Lemma reports_consistent (row : UsageRow) (u : json) :
  reports row u -> usage_consistent u.
Proof.
  intros (H1 & H2 & H3 & H4).
  exists (total_tokens_used row), (total_limit row),
    (Z.max 0 (total_limit row - total_tokens_used row)),
    (total_tokens_used row >=? total_limit row).
  repeat split; try assumption; lia.
Qed.

Lemma sends_usage_of_consistent (read : Result UsageRow) (ev : Event) :
  sends_usage_of read ev -> sends_consistent_usage ev.
Proof.
  destruct ev; simpl; auto. intros [H1 H2]. split; [exact H1|].
  intros u Hu. destruct (H2 u Hu) as (row & _ & Hr).
  now apply reports_consistent with row.
Qed.

Lemma run_try_catch_bind {A B : Type} (p : Prog A) (f : A -> Prog B)
  (h : Error -> Prog B) (w : World) :
  run (try_catch (bind p f) h) w
  = match run p w with
    | (w1, Ok a) => run (try_catch (f a) h) w1
    | (w1, Fail e) => run (h e) w1
    end.
Proof.
  rewrite run_try_catch, run_bind.
  destruct (run p w) as [w1 [a|e]]; [|reflexivity].
  now rewrite run_try_catch.
Qed.

Lemma update_sends_usage_of (usage : UsageRow) (ws : WsId)
  (rest : list (string * json)) :
  sends_usage_of (Ok usage)
    (EvSend ws
       (JObj (("type", jstr "update") :: ("usage", usage_object usage)
              :: rest)%string)).
Proof.
  split.
  - intros _. now exists (usage_object usage).
  - intros u Hu. simpl in Hu. injection Hu as <-.
    exists usage. split; [reflexivity|apply usage_object_reports].
Qed.

(** The events of a program that starts by reading the usage row. *)
Lemma run_emits_after_read {B : Type} (f : UsageRow -> Prog B)
  (h : Error -> Prog B) (w : World) :
  (forall usage, emits (sends_usage_of (Ok usage)) (f usage)) ->
  (forall usage e, emits (sends_usage_of (Ok usage)) (h e)) ->
  (forall e' e, emits (sends_usage_of (Fail e')) (h e)) ->
  exists evs,
    trace (fst (run (try_catch (bind getTokenUsage f) h) w)) = trace w ++ evs
    /\ Forall (sends_usage_of (snd (run getTokenUsage w))) evs.
Proof.
  intros Hf Hh Hfail. rewrite run_try_catch_bind.
  destruct (run getTokenUsage w) as [w1 read] eqn:Hread.
  destruct (run_emits (sends_usage_of read) getTokenUsage
              (emits_getTokenUsage _ (fun _ _ => I)) w) as (evs1 & Ht1 & Hp1).
  rewrite Hread in Ht1. cbn [fst snd] in *.
  destruct read as [usage|e].
  - destruct (run_emits (sends_usage_of (Ok usage)) (try_catch (f usage) h))
      with (w := w1) as (evs2 & Ht2 & Hp2).
    { apply emits_try_catch; [apply Hf | intros e; apply Hh]. }
    exists (evs1 ++ evs2). split.
    + now rewrite Ht2, Ht1, app_assoc.
    + apply Forall_app. now split.
  - destruct (run_emits (sends_usage_of (Fail e)) (h e) (Hfail e e) w1)
      as (evs2 & Ht2 & Hp2).
    exists (evs1 ++ evs2). split.
    + now rewrite Ht2, Ht1, app_assoc.
    + apply Forall_app. now split.
Qed.

Lemma broadcastUpdate_sends_usage_read (w : World) :
  exists evs,
    trace (fst (run broadcastUpdate w)) = trace w ++ evs
    /\ Forall (sends_usage_of (snd (run getTokenUsage w))) evs.
Proof.
  unfold broadcastUpdate. rewrite run_bind.
  change (run (perform Clients) w) with (w, @Ok (list (nat * ClientInfo)) (wsClients w)).
  cbv iota beta.
  destruct (Nat.eqb (List.length (wsClients w)) 0).
  - exists []. split; [now rewrite app_nil_r|constructor].
  - apply run_emits_after_read.
    + intros usage. emits_tac; cbn [eff_emits]; try (intros; exact I).
      all: apply update_sends_usage_of.
    + intros usage e. exact I.
    + intros e' e. exact I.
Qed.

Lemma handleRequestUpdate_sends_usage_read (w : World) (ws : WsId)
  (clientIp clientId : JS.str) :
  exists evs,
    trace (fst (run (handleRequestUpdate ws clientIp clientId) w))
    = trace w ++ evs
    /\ Forall (sends_usage_of (snd (run getTokenUsage w))) evs.
Proof.
  unfold handleRequestUpdate. apply run_emits_after_read.
  - intros usage. emits_tac; cbn [eff_emits]; try (intros; exact I).
    all: apply update_sends_usage_of.
  - intros usage e. emits_tac. split; simpl; intros; discriminate.
  - intros e' e. emits_tac. split; simpl; intros; discriminate.
Qed.

Lemma run_apiUsage_read (w : World) :
  exists status body,
    snd (run apiUsage w) = Ok (JsonResponse status body)
    /\ (status = 200 \/ status = 500)
    /\ (status = 200 <-> exists row, snd (run getTokenUsage w) = Ok row)
    /\ (forall row, snd (run getTokenUsage w) = Ok row -> reports row body).
Proof.
  unfold apiUsage. rewrite run_try_catch, run_bind.
  destruct (run getTokenUsage w) as [w1 [usage|e]]; cbn [snd].
  - destruct (total_tokens_used usage >=? total_limit usage) eqn:Hex; simpl;
      eexists; eexists; (split; [reflexivity|]); (split; [now left|]);
      (split; [split; [intros _; now exists usage|reflexivity]|]);
      intros row [= <-]; repeat split; cbn [field find fst snd String.eqb Ascii.eqb Bool.eqb];
      try reflexivity.
    + simpl. do 2 f_equal. apply Z.geb_le in Hex. lia.
    + simpl. now rewrite Hex.
    + simpl. now rewrite Hex.
  - simpl. eexists. eexists. split; [reflexivity|]. split; [now right|].
    split; [split; [discriminate|intros [row H]; discriminate H]|].
    intros row H. discriminate H.
Qed.

Lemma getTokenUsage_reads_ledger (w : World) (row : UsageRow) :
  snd (run getTokenUsage w) = Ok row ->
  row = current_usage (fst (run getTokenUsage w))
  /\ (db w = true -> row = current_usage w).
Proof.
  expose w. destruct t as [us ch tc sq].
  destruct dbh.
  - destruct fs as [|[|] fs]; destruct wk as [[us' ch' tc' sq']|];
      intros H; vm_compute in H; try discriminate H; injection H as <-;
      (split; [reflexivity | intros _; reflexivity]).
  - destruct wk as [[us' ch' tc' sq']|];
    destruct fs as [|[|] [|[|] [|[|] [|[|] [|[|] fs]]]]];
    try destruct us' as [|r' us']; try destruct us as [|r us];
      intros H; vm_compute in H; try discriminate H; injection H as <-;
      (split; [reflexivity | intros H'; discriminate H']).
Qed.

(** ** Dispatch of inbound messages *)



(** The five labels are dispatched: none of them reaches the default
    branch, and a message without a string [type] does. *)
Example known_types_are_known :
  forallb (fun name =>
             existsb (type_is {| msg_type := Some (JS.lit name);
                                 msg_amount := JS.lit "undefined" |})
                     known_message_types)
          known_message_types = true
  /\ unknown_type {| msg_type := None; msg_amount := JS.lit "undefined" |}.
Proof. split; reflexivity. Qed.

(** ** Extending the limit *)

Lemma run_extendTokenLimit_ready (w : World) (amount maxAllowed : Z)
  (row : UsageRow) (rest : list UsageRow) :
  0 < amount <= maxAllowed ->
  ready w ->
  usage_stats (tables w) = row :: rest ->
  exists w',
    run (extendTokenLimit (JS.Int amount) maxAllowed) w
    = (w', Ok {| success := true;
                 previousLimit := total_limit row;
                 newLimit := total_limit row + amount;
                 amountAdded := amount;
                 currentUsage := total_tokens_used row |})
    /\ ready w'
    /\ usage_stats (tables w')
       = map (Sql.set_limit (total_limit row + amount)) (row :: rest)
    /\ chat_history (tables w') = chat_history (tables w)
    /\ trace w' = trace w ++ [EvRun (SetTotalLimit (total_limit row + amount)) 0].
Proof.
  intros [Hpos Hmax] Hw Hrow. unfold extendTokenLimit.
  rewrite run_rethrow.
  destruct (amount <=? 0) eqn:H0; [apply Z.leb_le in H0; lia|].
  destruct (amount >? maxAllowed) eqn:H1; [apply Z.gtb_lt in H1; lia|].
  expose_ready w Hw. destruct t as [us ch tc sq]. simpl in Hrow. subst us.
  simpl. eexists. split; [reflexivity|]. repeat split; reflexivity.
Qed.

(** C3. [extendTokenLimit(amount, maxAllowed)]: a non-positive amount (or
    NaN) is rejected as an invalid argument, a positive amount above
    [maxAllowed] as exceeding the limit, and both rejections leave the
    whole process state as it was; any other amount is added to the
    stored limit, the counter is untouched, and the result reports the
    limit before, the limit after ([previous + amount]) and the usage. *)
Theorem extendTokenLimit_contract (w : World) (amount maxAllowed : Z)
  (row : UsageRow) (rest : list UsageRow) :
  (amount <= 0 ->
   exists e, run (extendTokenLimit (JS.Int amount) maxAllowed) w = (w, Fail e)
             /\ error_kind e = InvalidArgument)
  /\ (exists e, run (extendTokenLimit JS.NaN maxAllowed) w = (w, Fail e)
                /\ error_kind e = InvalidArgument)
  /\ (0 < amount -> amount > maxAllowed ->
      exists e, run (extendTokenLimit (JS.Int amount) maxAllowed) w = (w, Fail e)
                /\ error_kind e = LimitExceeded)
  /\ (0 < amount <= maxAllowed ->
      ready w ->
      usage_stats (tables w) = row :: rest ->
      exists w',
        run (extendTokenLimit (JS.Int amount) maxAllowed) w
        = (w', Ok {| success := true;
                     previousLimit := total_limit row;
                     newLimit := total_limit row + amount;
                     amountAdded := amount;
                     currentUsage := total_tokens_used row |})
        /\ usage_stats (tables w')
           = {| total_tokens_used := total_tokens_used row;
                total_limit := total_limit row + amount |}
             :: map (Sql.set_limit (total_limit row + amount)) rest
        /\ chat_history (tables w') = chat_history (tables w)).
Proof.
  split; [|split; [|split] ].
  - intros H. exists InvalidExtensionAmount. split; [|reflexivity].
    unfold extendTokenLimit. rewrite run_rethrow.
    apply Z.leb_le in H. now rewrite H.
  - exists InvalidExtensionAmount. split; reflexivity.
  - intros Hpos Hmax. exists (ExtensionExceedsMaximum maxAllowed).
    split; [|reflexivity].
    unfold extendTokenLimit. rewrite run_rethrow.
    destruct (amount <=? 0) eqn:H0; [apply Z.leb_le in H0; lia|].
    destruct (amount >? maxAllowed) eqn:H1; [reflexivity|].
    rewrite Z.gtb_ltb in H1. apply Z.ltb_ge in H1. lia.
  - intros Hrange Hw Hrow.
    destruct (run_extendTokenLimit_ready w amount maxAllowed row rest
                Hrange Hw Hrow) as (w' & Hrun & _ & Hus & Hch & _).
    exists w'. repeat split; assumption.
Qed.

Lemma extendTokenLimit_contract_witness :
  (exists e, run (extendTokenLimit (JS.Int (-5)) 20000) started_world
             = (started_world, Fail e)
             /\ error_kind e = InvalidArgument)
  /\ (exists e, run (extendTokenLimit (JS.Int 0) 20000) started_world
                = (started_world, Fail e)
                /\ error_kind e = InvalidArgument)
  /\ (exists e, run (extendTokenLimit (JS.Int 20001) 20000) started_world
                = (started_world, Fail e)
                /\ error_kind e = LimitExceeded)
  /\ (exists w',
        run (extendTokenLimit (JS.Int 5000) 20000) started_world
        = (w', Ok {| success := true; previousLimit := 10000;
                     newLimit := 15000; amountAdded := 5000;
                     currentUsage := 0 |})
        /\ usage_stats (tables w')
           = [{| total_tokens_used := 0; total_limit := 15000 |}]
        /\ chat_history (tables w') = chat_history (tables started_world)).
Proof.
  pose (row0 := {| total_tokens_used := 0; total_limit := 10000 |}).
  split; [|split; [|split] ].
  - apply (proj1 (extendTokenLimit_contract started_world (-5) 20000 row0 [])).
    lia.
  - apply (proj1 (extendTokenLimit_contract started_world 0 20000 row0 [])).
    lia.
  - apply (proj1 (proj2 (proj2
             (extendTokenLimit_contract started_world 20001 20000 row0 []))));
      lia.
  - apply (proj2 (proj2 (proj2
             (extendTokenLimit_contract started_world 5000 20000 row0 [])))).
    + lia.
    + repeat split; reflexivity.
    + reflexivity.
Defined.

(** The socket handler applies the same two tests before it touches the
    store: a rejected amount is answered with [success: false]. *)
Lemma handleExtendLimit_rejects (w : World) (ws : WsId) (message : Message)
  (clientIp clientId : JS.str) :
  (JS.parseInt (msg_amount message) = JS.NaN
   \/ exists z, JS.parseInt (msg_amount message) = JS.Int z
                /\ (z <= 0 \/ z > config.maxExtensionAmount)) ->
  exists w' r,
    run (handleExtendLimit ws message clientIp clientId) w = (w', r)
    /\ store w' = store w /\ db w' = db w /\ wsClients w' = wsClients w
    /\ (send_throws w ws = false ->
        exists m, trace w' = trace w ++ [EvSend ws m]
                  /\ field "type" m = Some (jstr "extendLimitResponse")
                  /\ field "success" m = Some (JBool false)).
Proof.
  intros H. unfold handleExtendLimit.
  assert (Hsend : forall m,
    field "type" m = Some (jstr "extendLimitResponse") ->
    field "success" m = Some (JBool false) ->
    exists w' r,
      run (perform (Send ws m)) w = (w', r)
      /\ store w' = store w /\ db w' = db w /\ wsClients w' = wsClients w
      /\ (send_throws w ws = false ->
          exists m, trace w' = trace w ++ [EvSend ws m]
                    /\ field "type" m = Some (jstr "extendLimitResponse")
                    /\ field "success" m = Some (JBool false))).
  { intros m Ht Hs. simpl. destruct (send_throws w ws); simpl.
    - exists w. eexists. repeat split; try reflexivity. discriminate.
    - eexists. eexists. split; [reflexivity|]. simpl.
      repeat split. intros _. now exists m. }
  destruct H as [Hnan|(z & Hz & Hrange)].
  - rewrite Hnan. now apply Hsend.
  - rewrite Hz. destruct ((z =? 0) || (z <=? 0)) eqn:H0; [now apply Hsend|].
    apply orb_false_elim in H0. destruct H0 as [_ H0]. apply Z.leb_gt in H0.
    destruct Hrange as [Hle|Hgt]; [lia|].
    destruct (z >? config.maxExtensionAmount) eqn:H1; [now apply Hsend|].
    rewrite Z.gtb_ltb in H1. apply Z.ltb_ge in H1. lia.
Qed.

(** An accepted amount is added to the limit by the handler too, which
    answers the sender and informs the other sockets. *)
Lemma run_handleExtendLimit_ready (w : World) (ws : nat) (message : Message)
  (clientIp clientId : JS.str) (amount : Z) (row : UsageRow)
  (rest : list UsageRow) :
  ready w ->
  send_throws w ws = false ->
  usage_stats (tables w) = row :: rest ->
  JS.parseInt (msg_amount message) = JS.Int amount ->
  0 < amount <= config.maxExtensionAmount ->
  exists w' response update,
    run (handleExtendLimit ws message clientIp clientId) w = (w', Ok tt)
    /\ usage_stats (tables w')
       = map (Sql.set_limit (total_limit row + amount)) (row :: rest)
    /\ chat_history (tables w') = chat_history (tables w)
    /\ trace w'
       = trace w
         ++ [EvRun (SetTotalLimit (total_limit row + amount)) 0;
             EvSend ws response]
         ++ others_events w ws update
    /\ field "success" response = Some (JBool true)
    /\ field "previousLimit" response = Some (JNum (total_limit row))
    /\ field "newLimit" response = Some (JNum (total_limit row + amount))
    /\ field "currentUsage" response = Some (JNum (total_tokens_used row)).
Proof.
  intros Hw Hs Hrow Hparse [Hpos Hmax]. expose_ready w Hw.
  destruct t as [us ch tc sq]. simpl in Hrow. subst us.
  unfold handleExtendLimit. rewrite Hparse.
  replace ((amount =? 0) || (amount <=? 0)) with false
    by (symmetry; apply orb_false_intro; [apply Z.eqb_neq|apply Z.leb_gt]; lia).
  replace (amount >? config.maxExtensionAmount) with false
    by (symmetry; rewrite Z.gtb_ltb; apply Z.ltb_ge; lia).
  rewrite run_try_catch.
  rewrite run_bind, run_getDb_open by reflexivity. cbv iota beta.
  do 2 sql_step.
  rewrite run_bind, run_getTokenUsage_ready by (repeat split; reflexivity).
  cbv iota beta. sql_step. sql_step. rewrite Hs.
  rewrite run_bind, run_broadcastToOthers. cbv iota beta.
  eexists. eexists. eexists. split; [reflexivity|].
  split; [reflexivity|]. split; [reflexivity|].
  split; [cbv [log_all trace]; rewrite <- !app_assoc; reflexivity|].
  repeat split; reflexivity.
Qed.

(** ** Clearing the history *)

Lemma seq_of_cleared (t : Tables) :
  Sql.seq_of "chat_history" (sqlite_sequence (cleared t)) = 0.
Proof.
  unfold Sql.seq_of, cleared. simpl.
  destruct (find _ _) as [p|] eqn:Hfind; [|reflexivity].
  apply find_some in Hfind. destruct Hfind as [Hin Heq].
  apply filter_In in Hin. destruct Hin as [_ Hneg]. simpl in Hneg.
  rewrite Heq in Hneg. discriminate.
Qed.

Lemma next_chat_id_cleared (t : Tables) : Sql.next_chat_id (cleared t) = 1.
Proof. unfold Sql.next_chat_id. rewrite seq_of_cleared. reflexivity. Qed.

Lemma run_clearDatabase_ready (w : World) :
  ready w ->
  exists w',
    run clearDatabase w = (w', Ok true)
    /\ ready w'
    /\ tables w' = cleared (tables w)
    /\ wsClients w' = wsClients w.
Proof.
  intros H. expose_ready w H. compute_run.
  eexists. split; [reflexivity|]. repeat split; reflexivity.
Qed.

(** The store may fail at any statement: the committed tables are then
    either the tables before the call or the cleared ones. *)
Lemma clearDatabase_atomic (w : World) :
  db w = true ->
  working (store w) = None ->
  exists w' r,
    run clearDatabase w = (w', r)
    /\ db w' = true
    /\ ((r = Ok true
         /\ committed (store w') = cleared (committed (store w))
         /\ working (store w') = None)
        \/ (exists e, r = Fail e
                      /\ committed (store w') = committed (store w))).
Proof.
  intros Hdb Hwk. expose w. subst.
  match goal with
  | |- exists w' r, ?X = _ /\ _ => remember X as res eqn:Hres
  end.
  vm_compute in Hres.
  repeat match type of Hres with
         | context [match ?x with [] => _ | _ :: _ => _ end] =>
             is_var x; destruct x as [|[|] ?]; vm_compute in Hres
         end.
  all: subst res; eexists; eexists; (split; [reflexivity|]); simpl;
    (split; [reflexivity|]);
    first [ left; repeat split; reflexivity
          | right; eexists; split; reflexivity ].
Qed.

Lemma run_getRecentChats_ready (w : World) (limit : Z) :
  ready w ->
  run (getRecentChats limit) w
  = (w, Ok (Sql.sql_limit limit
              (Sql.order_by_timestamp_desc (chat_history (tables w))))).
Proof. intros H. expose_ready w H. reflexivity. Qed.

Lemma sql_limit_nil {A : Type} (n : Z) : Sql.sql_limit n (@nil A) = [].
Proof. unfold Sql.sql_limit. destruct (n <? 0); [reflexivity|apply firstn_nil]. Qed.

(** C4. [clearDatabase()], started with the database open and no
    transaction pending: when it completes, the history is empty (every
    [getRecentChats(N)] returns the empty list), the identifier sequence
    is reset (the next entry gets 1), the counter is 0 and the limit is
    the one from before the call; when it fails, whichever statement the
    store refused, nothing was committed; it completes when the store
    does not fail. *)
Theorem clearDatabase_resets (w : World) (row : UsageRow)
  (rest : list UsageRow) :
  db w = true ->
  working (store w) = None ->
  usage_stats (tables w) = row :: rest ->
  exists w' r,
    run clearDatabase w = (w', r)
    /\ (r = Ok true ->
        tables w' = cleared (tables w)
        /\ chat_history (tables w') = []
        /\ Sql.next_chat_id (tables w') = 1
        /\ hd_error (usage_stats (tables w'))
           = Some {| total_tokens_used := 0; total_limit := total_limit row |}
        /\ (faults (store w') = [] ->
            (forall N, run (getRecentChats N) w' = (w', Ok []))
            /\ run getTokenUsage w'
               = (w', Ok {| total_tokens_used := 0;
                            total_limit := total_limit row |})))
    /\ (forall e, r = Fail e -> committed (store w') = committed (store w))
    /\ (faults (store w) = [] -> r = Ok true).
Proof.
  intros Hdb Hwk Hrow.
  destruct (clearDatabase_atomic w Hdb Hwk) as (w' & r & Hrun & Hdb' & Hcases).
  exists w', r. split; [exact Hrun|].
  assert (Hview : tables w = committed (store w))
    by (unfold tables, Sql.view; now rewrite Hwk).
  split; [|split].
  - intros Hok. destruct Hcases as [(_ & Hc & Hwk')|(e & He & _)];
      [|congruence].
    assert (Ht : tables w' = cleared (tables w))
      by (unfold tables at 1, Sql.view; now rewrite Hwk', Hc, Hview).
    assert (Hhd : hd_error (usage_stats (tables w'))
                  = Some {| total_tokens_used := 0;
                            total_limit := total_limit row |})
      by (rewrite Ht; simpl; now rewrite Hrow).
    split; [exact Ht|]. split; [now rewrite Ht|].
    split; [rewrite Ht; apply next_chat_id_cleared|].
    split; [exact Hhd|].
    intros Hfs. assert (Hready : ready w') by (repeat split; assumption).
    split.
    + intros N. rewrite (run_getRecentChats_ready w' N Hready), Ht. simpl.
      now rewrite sql_limit_nil.
    + rewrite (run_getTokenUsage_ready w' Hready), Hhd. reflexivity.
  - intros e He. destruct Hcases as [(Hok & _)|(e' & _ & Hc)];
      [congruence|exact Hc].
  - intros Hfs.
    destruct (run_clearDatabase_ready w) as (w'' & Hrun' & _);
      [repeat split; assumption|].
    rewrite Hrun in Hrun'. now injection Hrun' as _ ->.
Qed.

Lemma clearDatabase_resets_witness :
  exists w' r,
    run clearDatabase used_world = (w', r)
    /\ (r = Ok true ->
        tables w' = cleared (tables used_world)
        /\ chat_history (tables w') = []
        /\ Sql.next_chat_id (tables w') = 1
        /\ hd_error (usage_stats (tables w'))
           = Some {| total_tokens_used := 0; total_limit := 10000 |}
        /\ (faults (store w') = [] ->
            (forall N, run (getRecentChats N) w' = (w', Ok []))
            /\ run getTokenUsage w'
               = (w', Ok {| total_tokens_used := 0; total_limit := 10000 |})))
    /\ (forall e, r = Fail e ->
        committed (store w') = committed (store used_world))
    /\ (faults (store used_world) = [] -> r = Ok true).
Proof.
  apply (clearDatabase_resets used_world
           {| total_tokens_used := 900; total_limit := 10000 |} []);
    reflexivity.
Defined.

(** The store before holds two entries and 900 tokens; a failure of the
    fourth statement of the transaction leaves both in place. *)
Example clearDatabase_rolls_back :
  List.length (chat_history (tables used_world)) = 2%nat
  /\ usage_stats (tables used_world)
     = [{| total_tokens_used := 900; total_limit := 10000 |}]
  /\ (let r := run clearDatabase (failing_at 3 used_world) in
      snd r = Fail (SqliteError "SQLITE_ERROR")
      /\ tables (fst r) = tables used_world)
  /\ (let r := run clearDatabase used_world in
      snd r = Ok true
      /\ usage_stats (tables (fst r))
         = [{| total_tokens_used := 0; total_limit := 10000 |}]
      /\ chat_history (tables (fst r)) = []).
Proof. repeat split; reflexivity. Qed.

(** The socket handler clears the history and the counter in the same
    way, in one transaction; it leaves [token_comparisons] alone. *)
Lemma run_handleClearDatabase_ready (w : World) (ws : nat)
  (clientIp clientId : JS.str) :
  ready w ->
  send_throws w ws = false ->
  exists w' response update,
    run (handleClearDatabase ws clientIp clientId) w = (w', Ok tt)
    /\ ready w'
    /\ tables w' = handler_cleared (tables w)
    /\ wsClients w' = wsClients w
    /\ trace w'
       = trace w
         ++ [EvRun BeginTransaction 0; EvRun DeleteChatHistory 0;
             EvRun ResetTokensUsed 0;
             EvRun (DeleteSequence ["chat_history"]%string) 0;
             EvRun Commit 0; EvSend ws response]
         ++ others_events w ws update
    /\ field "success" response = Some (JBool true)
    /\ field "usage" update
       = Some (cleared_usage_object (current_usage w')).
Proof.
  intros Hw Hs. expose_ready w Hw.
  unfold handleClearDatabase. rewrite run_try_catch.
  rewrite run_bind, run_getDb_open by reflexivity. cbv iota beta.
  do 5 sql_step.
  rewrite run_bind, run_getTokenUsage_ready by (repeat split; reflexivity).
  cbv iota beta. sql_step. sql_step. rewrite Hs.
  rewrite run_bind, run_broadcastToOthers. cbv iota beta.
  eexists. eexists. eexists. split; [reflexivity|].
  split; [repeat split; reflexivity|]. split; [reflexivity|].
  split; [reflexivity|].
  split; [cbv [log_all trace]; rewrite <- !app_assoc; reflexivity|].
  split; reflexivity.
Qed.

(** ** The commit of a finished generation *)

Lemma ready_log_all (w : World) (evs : list Event) :
  ready w -> ready (log_all w evs).
Proof. intros H. exact H. Qed.

Lemma run_addChatEntry_eq (w : World) (userInput response : JS.str)
  (geminiTokenCount : JS.val) (model : JS.str) (options : Options) :
  ready w ->
  let n := entry_tokenCount userInput response geminiTokenCount in
  let i := Sql.next_chat_id (tables w) in
  let insert :=
    InsertChatHistory userInput response n None model
      (temperature_or options (7 # 10))
      (JS.int_or (opt_maxTokens options) 1024) in
  run (addChatEntry userInput response geminiTokenCount model options) w
  = (log_all
       (with_tables w
          (fst (Sql.apply (clock w) (AddTokensUsed n)
                  (fst (Sql.apply (clock w) insert (tables w))))))
       [EvRun insert i; EvRun (AddTokensUsed n) 0],
     Ok {| chatId := i; tokensAdded := n |}).
Proof.
  intros H n i insert. expose_ready w H.
  cbv [run addChatEntry rethrow try_catch bind getDb perform of_result exec
       negb db store clock trace wsClients readyState send_throws
       Sql.pop_fault Sql.run Sql.apply Sql.view Sql.write
       faults working committed log log_all with_store with_tables fst snd].
  rewrite <- app_assoc. reflexivity.
Qed.

Lemma run_addChatEntry_insert_fails (w : World) (userInput response : JS.str)
  (geminiTokenCount : JS.val) (model : JS.str) (options : Options)
  (fs : list bool) :
  db w = true ->
  faults (store w) = true :: fs ->
  run (addChatEntry userInput response geminiTokenCount model options) w
  = (with_store w {| committed := committed (store w);
                     working := working (store w); faults := fs |},
     Fail (SqliteError "SQLITE_ERROR")).
Proof. intros Hdb Hfs. expose w. subst. reflexivity. Qed.

Lemma run_broadcastUpdate_ready (w : World) :
  ready w ->
  run broadcastUpdate w
  = (if Nat.eqb (List.length (wsClients w)) 0 then w
     else log_all (swept w) (broadcast_events w (update_message w)),
     Ok tt).
Proof.
  intros H. unfold broadcastUpdate.
  rewrite run_bind, run_perform. simpl exec. cbv iota beta.
  destruct (Nat.eqb (List.length (wsClients w)) 0); [reflexivity|].
  rewrite run_try_catch, run_bind, (run_getTokenUsage_ready w H).
  rewrite run_bind, (run_getRecentChats_ready w 20 H).
  rewrite run_bind, run_perform. simpl exec. cbv iota beta.
  rewrite run_bind, run_broadcastToAll. reflexivity.
Qed.

(** The answer to [requestUpdate] on a ready store. *)
Lemma run_handleRequestUpdate_ready (w : World) (ws : WsId)
  (clientIp clientId : JS.str) :
  ready w ->
  send_throws w ws = false ->
  exists m,
    run (handleRequestUpdate ws clientIp clientId) w
    = (log w (EvSend ws m), Ok tt)
    /\ field "type" m = Some (jstr "update")
    /\ field "usage" m = Some (usage_object (current_usage w)).
Proof.
  intros H Hs. unfold handleRequestUpdate.
  rewrite run_try_catch, run_bind, (run_getTokenUsage_ready w H).
  rewrite run_bind, (run_getRecentChats_ready w 20 H).
  rewrite run_bind, run_perform. simpl exec. cbv iota beta.
  rewrite run_perform. simpl exec. rewrite Hs.
  eexists. split; [reflexivity|]. split; reflexivity.
Qed.

(** C10. Every usage payload reports the row of the ledger that
    [getTokenUsage] reads in that state ([read]): the update messages of
    [broadcastUpdate], the answers of [handleRequestUpdate] and the body
    of [GET /api/usage] carry the consumed tokens and the limit of that
    row, [remaining = max(0, limit - consumed)], which is never negative,
    and [exceeded] exactly when [consumed >= limit].  When the read fails
    no message carries a usage object and the endpoint answers 500.  The
    row read is the first row of [usage_stats] (or {0, 10000} when there
    is none).  This holds in every state of the process, whatever the
    store does.  On a ready store the payloads are sent: the sender of a
    [requestUpdate] and every deliverable socket of a broadcast get the
    usage object of the current row. *)
Theorem usage_payloads_consistent (w : World) (ws : WsId)
  (clientIp clientId : JS.str) :
  let read := snd (run getTokenUsage w) in
  (exists evs,
     trace (fst (run broadcastUpdate w)) = trace w ++ evs
     /\ Forall (sends_usage_of read) evs
     /\ Forall sends_consistent_usage evs)
  /\ (exists evs,
        trace (fst (run (handleRequestUpdate ws clientIp clientId) w))
        = trace w ++ evs
        /\ Forall (sends_usage_of read) evs
        /\ Forall sends_consistent_usage evs)
  /\ (exists status body,
        snd (run apiUsage w) = Ok (JsonResponse status body)
        /\ (status = 200 \/ status = 500)
        /\ (status = 200 <-> exists row, read = Ok row)
        /\ (forall row, read = Ok row -> reports row body)
        /\ (status = 200 -> usage_consistent body))
  /\ (forall row, read = Ok row ->
        row = current_usage (fst (run getTokenUsage w))
        /\ (db w = true -> row = current_usage w))
  /\ (ready w ->
      read = Ok (current_usage w)
      /\ run broadcastUpdate w
         = (if Nat.eqb (List.length (wsClients w)) 0 then w
            else log_all (swept w) (broadcast_events w (update_message w)),
            Ok tt)
      /\ field "usage" (update_message w)
         = Some (usage_object (current_usage w))
      /\ (send_throws w ws = false ->
          exists m,
            run (handleRequestUpdate ws clientIp clientId) w
            = (log w (EvSend ws m), Ok tt)
            /\ field "type" m = Some (jstr "update")
            /\ field "usage" m = Some (usage_object (current_usage w)))).
Proof.
  cbv zeta. split; [|split; [|split; [|split]]].
  - destruct (broadcastUpdate_sends_usage_read w) as (evs & Ht & Hp).
    exists evs. split; [exact Ht|]. split; [exact Hp|].
    eapply Forall_impl; [|exact Hp].
    intros ev. apply sends_usage_of_consistent.
  - destruct (handleRequestUpdate_sends_usage_read w ws clientIp clientId)
      as (evs & Ht & Hp).
    exists evs. split; [exact Ht|]. split; [exact Hp|].
    eapply Forall_impl; [|exact Hp].
    intros ev. apply sends_usage_of_consistent.
  - destruct (run_apiUsage_read w) as (status & body & Hr & Hs & Hok & Hrep).
    exists status, body. split; [exact Hr|]. split; [exact Hs|].
    split; [exact Hok|]. split; [exact Hrep|].
    intros H200. apply Hok in H200. destruct H200 as [row Hrow].
    apply reports_consistent with row. now apply Hrep.
  - intros row Hrow. now apply getTokenUsage_reads_ledger.
  - intros Hready. split; [|split; [|split]].
    + rewrite (run_getTokenUsage_ready w Hready). reflexivity.
    + now apply run_broadcastUpdate_ready.
    + reflexivity.
    + intros Hs. now apply run_handleRequestUpdate_ready.
Qed.

Lemma fold_left_append (chunks : list JS.str) (acc : JS.str) :
  fold_left (fun (acc : JS.str) text => acc ++ text) chunks acc
  = acc ++ List.concat chunks.
Proof.
  revert acc. induction chunks as [|c chunks IH]; intros acc; simpl.
  - now rewrite app_nil_r.
  - now rewrite IH, app_assoc.
Qed.

(** The streaming loop: every non-empty chunk is enqueued once, in order,
    and appended to the accumulated response. *)
Lemma run_chunk_loop (json_format : bool) (chunks : list JS.str)
  (acc : JS.str) (w : World) :
  run (fold_each chunks acc (fun fullResponse text =>
         match text with
         | [] => Ret fullResponse
         | _ =>
             perform (Enqueue (chunk_item json_format text)) ;;
             Ret (fullResponse ++ text)
         end)) w
  = (log_all w (chunk_events json_format chunks),
     Ok (acc ++ List.concat chunks)).
Proof.
  rewrite (run_fold_each_log _
             (fun _ text =>
                match text with
                | [] => []
                | _ => [EvEnqueue (chunk_item json_format text)]
                end)
             (fun _ (acc : JS.str) text => acc ++ text)).
  - now rewrite fold_left_append.
  - intros s [|c text] w0; simpl.
    + now rewrite log_all_nil, app_nil_r.
    + reflexivity.
  - reflexivity.
  - reflexivity.
Qed.

Lemma ready_with_tables (w : World) (t : Tables) :
  ready w -> ready (with_tables w t).
Proof. intros H. expose_ready w H. repeat split; reflexivity. Qed.

Lemma tables_with_tables (w : World) (t : Tables) :
  ready w -> tables (with_tables w t) = t.
Proof. intros H. expose_ready w H. reflexivity. Qed.

Lemma with_tables_log_all (w : World) (t : Tables) (a b : list Event) :
  log_all (with_tables (log_all w a) t) b = log_all (with_tables w t) (a ++ b).
Proof. unfold log_all, with_tables, with_store. simpl. now rewrite app_assoc. Qed.

Lemma broadcast_events_empty (w : World) (data : json) :
  Nat.eqb (List.length (wsClients w)) 0 = true -> broadcast_events w data = [].
Proof.
  unfold broadcast_events. destruct (wsClients w); [reflexivity|discriminate].
Qed.

(** The end of a stream: close, then broadcast. *)
Lemma run_stream_end (w1 : World) (done : list Event) (p : Prog unit) :
  ready w1 ->
  run p w1 = (log_all w1 done, Ok tt) ->
  let w2 := log_all w1 (done ++ [EvClose]) in
  run (p ;; perform CloseStream ;; broadcastUpdate) w1
  = (log_all (if Nat.eqb (List.length (wsClients w1)) 0 then w2 else swept w2)
       (broadcast_events w1 (update_message w2)), Ok tt).
Proof.
  intros Hw1 Hp w2. rewrite run_bind, Hp, run_bind, run_perform.
  simpl exec. cbv iota beta. rewrite log_log_all, log_all_app. fold w2.
  rewrite (run_broadcastUpdate_ready w2 (ready_log_all w1 _ Hw1)).
  change (wsClients w2) with (wsClients w1).
  destruct (Nat.eqb (List.length (wsClients w1)) 0) eqn:Hn.
  - now rewrite (broadcast_events_empty w1 _ Hn), log_all_nil.
  - reflexivity.
Qed.

Lemma run_handleStreamingChat_ready (w : World) (body : ChatBody)
  (gen : Generation) :
  ready w ->
  body_message body <> [] ->
  stream_error gen = None ->
  let w2 := after_close w body gen in
  run (handleStreamingChat (Body body) gen) w
  = (log_all (if Nat.eqb (List.length (wsClients w)) 0 then w2 else swept w2)
       (broadcast_events w (update_message w2)),
     Ok (StreamResponse
           (if wants_json body then "application/x-ndjson" else "text/plain"))).
Proof.
  intros Hw Hmsg Herr w2.
  assert (Hw1 : ready (after_commit w body gen))
    by (apply ready_log_all, ready_with_tables, Hw).
  unfold handleStreamingChat. open_request. fold (wants_json body).
  destruct (body_message body) as [|c0 msg] eqn:Hbody; [contradiction|].
  rewrite <- Hbody.
  rewrite run_bind, run_try_catch, run_bind, run_chunk_loop.
  rewrite Herr. simpl app. rewrite run_bind. simpl (run (Ret tt) _).
  cbv iota beta.
  rewrite run_bind, run_addChatEntry_eq by exact Hw.
  rewrite run_bind. cbv iota beta.
  match goal with
  | |- context [run getTokenUsage ?W] =>
      replace W with (after_commit w body gen)
        by (symmetry; apply with_tables_log_all)
  end.
  rewrite (run_getTokenUsage_ready _ Hw1).
  fold (current_usage (after_commit w body gen)).
  rewrite (run_stream_end (after_commit w body gen) (done_events w body gen)
             _ Hw1).
  - reflexivity.
  - unfold done_events. destruct (wants_json body);
      [reflexivity|simpl; now rewrite log_all_nil].
Qed.

Lemma run_handleStreamingChat_append_fails (w : World) (body : ChatBody)
  (gen : Generation) (fs : list bool) :
  db w = true ->
  faults (store w) = true :: fs ->
  body_message body <> [] ->
  stream_error gen = None ->
  let error := SqliteError "SQLITE_ERROR" in
  run (handleStreamingChat (Body body) gen) w
  = (log_all
       (with_store w {| committed := committed (store w);
                        working := working (store w); faults := fs |})
       (chunk_events (wants_json body) (chunks gen)
        ++ (if wants_json body then [EvEnqueue (error_item error)] else [])
        ++ [EvError error]),
     Ok (StreamResponse
           (if wants_json body then "application/x-ndjson" else "text/plain"))).
Proof.
  intros Hdb Hfs Hmsg Herr error.
  unfold handleStreamingChat. open_request. fold (wants_json body).
  destruct (body_message body) as [|c0 msg] eqn:Hbody; [contradiction|].
  rewrite <- Hbody.
  rewrite run_bind, run_try_catch, run_bind, run_chunk_loop.
  rewrite Herr. simpl app. rewrite run_bind. simpl (run (Ret tt) _).
  cbv iota beta.
  rewrite run_bind.
  rewrite (run_addChatEntry_insert_fails _ _ _ _ _ _ fs) by assumption.
  cbv iota beta. fold error.
  destruct (wants_json body); simpl; unfold log, log_all, with_store; simpl;
    rewrite <- ?app_assoc; reflexivity.
Qed.

(** What the commit leaves behind. *)
Lemma trace_after_close (w : World) (body : ChatBody) (gen : Generation) :
  let n := generation_tokens body gen in
  trace (after_close w body gen)
  = trace w ++ chunk_events (wants_json body) (chunks gen)
    ++ [EvRun (insert_entry body gen n) (Sql.next_chat_id (tables w));
        EvRun (AddTokensUsed n) 0]
    ++ done_events w body gen ++ [EvClose].
Proof.
  intros n. unfold after_close, after_commit, log_all, with_tables, with_store.
  cbn [trace]. fold n. now rewrite <- !app_assoc.
Qed.

Lemma tables_after_close (w : World) (body : ChatBody) (gen : Generation) :
  ready w ->
  let n := generation_tokens body gen in
  tables (after_close w body gen)
  = fst (Sql.apply (clock w) (AddTokensUsed n)
           (fst (Sql.apply (clock w) (insert_entry body gen n) (tables w)))).
Proof.
  intros Hw n.
  change (tables (after_close w body gen))
    with (tables (with_tables w
            (fst (Sql.apply (clock w) (AddTokensUsed n)
                    (fst (Sql.apply (clock w) (insert_entry body gen n)
                            (tables w))))))).
  now apply tables_with_tables.
Qed.

Lemma swept_same (P : World -> Prop) (w : World) :
  P w -> P (with_clients w (live_clients w)) -> P (swept w).
Proof. intros H1 H2. unfold swept. now destruct (_ >? 0). Qed.

Lemma update_message_ext (w1 w2 : World) :
  tables w1 = tables w2 -> clock w1 = clock w2 ->
  update_message w1 = update_message w2.
Proof.
  intros Ht Hc. unfold update_message, current_usage. now rewrite Ht, Hc.
Qed.

(** C5. The commit of a finished generation in [handleStreamingChat]:
    after the chunks, the store executes the INSERT of the entry, then
    the UPDATE of the counter with the same token count, once; the stream
    is completed and closed, and only then the update is sent to the
    sockets.  When the INSERT fails, no statement is executed and nothing
    is sent: the tables and the registry are as before, and the error is
    delivered on the response stream. *)
Theorem commit_sequence (w : World) (body : ChatBody) (gen : Generation)
  (fs : list bool) :
  db w = true ->
  working (store w) = None ->
  body_message body <> [] ->
  stream_error gen = None ->
  let n := generation_tokens body gen in
  let content_type :=
    if wants_json body then "application/x-ndjson"%string
    else "text/plain"%string in
  (faults (store w) = [] ->
   exists w' i done,
     run (handleStreamingChat (Body body) gen) w = (w', Ok (StreamResponse content_type))
     /\ trace w'
        = trace w ++ chunk_events (wants_json body) (chunks gen)
          ++ [EvRun (insert_entry body gen n) i; EvRun (AddTokensUsed n) 0]
          ++ done ++ [EvClose]
          ++ broadcast_events w (update_message w')
     /\ Forall (fun ev => exists item, ev = EvEnqueue item) done
     /\ usage_stats (tables w') = map (Sql.add_tokens n) (usage_stats (tables w))
     /\ exists entry,
          chat_history (tables w') = chat_history (tables w) ++ [entry]
          /\ chat_id entry = i /\ gemini_token_count entry = n)
  /\ (faults (store w) = true :: fs ->
      exists w' error,
        run (handleStreamingChat (Body body) gen) w
        = (w', Ok (StreamResponse content_type))
        /\ tables w' = tables w
        /\ wsClients w' = wsClients w
        /\ trace w'
           = trace w ++ chunk_events (wants_json body) (chunks gen)
             ++ (if wants_json body then [EvEnqueue (error_item error)] else [])
             ++ [EvError error]).
Proof.
  intros Hdb Hwk Hmsg Herr n content_type. split.
  - intros Hfs. assert (Hw : ready w) by (repeat split; assumption).
    pose proof (run_handleStreamingChat_ready w body gen Hw Hmsg Herr) as Hrun.
    cbv zeta in Hrun.
    set (w2 := after_close w body gen) in *.
    set (w3 := if Nat.eqb (List.length (wsClients w)) 0 then w2 else swept w2)
      in *.
    assert (Htr : trace w3 = trace w2)
      by (unfold w3; destruct (Nat.eqb _ 0); [|apply swept_same]; reflexivity).
    assert (Htb : tables w3 = tables w2)
      by (unfold w3; destruct (Nat.eqb _ 0); [|apply swept_same]; reflexivity).
    assert (Hck : clock w3 = clock w2)
      by (unfold w3; destruct (Nat.eqb _ 0); [|apply swept_same]; reflexivity).
    pose proof (tables_after_close w body gen Hw) as Ht2.
    cbv zeta in Ht2. fold n w2 in Ht2.
    eexists. exists (Sql.next_chat_id (tables w)), (done_events w body gen).
    split; [exact Hrun|].
    change (tables (log_all w3 ?e)) with (tables w3).
    change (trace (log_all w3 ?e)) with (trace w3 ++ e).
    rewrite Htb, Htr, Ht2.
    split; [|split; [|split] ].
    + unfold w2. rewrite trace_after_close. fold n.
      rewrite <- !app_assoc. do 5 f_equal.
      apply (f_equal (broadcast_events w)). symmetry.
      apply update_message_ext; [exact Htb|exact Hck].
    + unfold done_events. destruct (wants_json body); repeat constructor.
      now eexists.
    + reflexivity.
    + eexists. split; [reflexivity|]. split; reflexivity.
  - intros Hfs.
    pose proof (run_handleStreamingChat_append_fails w body gen fs
                  Hdb Hfs Hmsg Herr) as Hrun.
    cbv zeta in Hrun.
    eexists. exists (SqliteError "SQLITE_ERROR").
    split; [exact Hrun|]. repeat split; reflexivity.
Qed.

Lemma commit_sequence_witness :
  (exists w' i done,
     run (handleStreamingChat (Body hello_body) hello_generation) three_clients_world
     = (w', Ok (StreamResponse "application/x-ndjson"))
     /\ trace w'
        = trace three_clients_world
          ++ chunk_events true (chunks hello_generation)
          ++ [EvRun (insert_entry hello_body hello_generation 4) i;
              EvRun (AddTokensUsed 4) 0]
          ++ done ++ [EvClose]
          ++ broadcast_events three_clients_world (update_message w')
     /\ Forall (fun ev => exists item, ev = EvEnqueue item) done
     /\ usage_stats (tables w')
        = map (Sql.add_tokens 4) (usage_stats (tables three_clients_world))
     /\ exists entry,
          chat_history (tables w')
          = chat_history (tables three_clients_world) ++ [entry]
          /\ chat_id entry = i /\ gemini_token_count entry = 4)
  /\ (exists w' error,
        run (handleStreamingChat (Body hello_body) hello_generation)
            (failing_at 0 three_clients_world)
        = (w', Ok (StreamResponse "application/x-ndjson"))
        /\ tables w' = tables (failing_at 0 three_clients_world)
        /\ wsClients w' = wsClients (failing_at 0 three_clients_world)
        /\ trace w'
           = trace (failing_at 0 three_clients_world)
             ++ chunk_events true (chunks hello_generation)
             ++ [EvEnqueue (error_item error)]
             ++ [EvError error]).
Proof.
  split.
  - apply (proj1 (commit_sequence three_clients_world hello_body
                    hello_generation [] eq_refl eq_refl
                    ltac:(discriminate) eq_refl)).
    reflexivity.
  - apply (proj2 (commit_sequence (failing_at 0 three_clients_world)
                    hello_body hello_generation [] eq_refl eq_refl
                    ltac:(discriminate) eq_refl)).
    reflexivity.
Defined.

(** The run of the example: two chunks are forwarded, the entry and the
    counter are committed with 4 tokens (13 characters), the stream is
    closed, and A and C receive the update. *)
Example commit_sequence_run :
  let r := run (handleStreamingChat (Body hello_body) hello_generation)
             three_clients_world in
  map (fun ev =>
         match ev with
         | EvRun (InsertChatHistory _ _ n _ _ _ _) _ => ("insert", n)
         | EvRun (AddTokensUsed n) _ => ("increment", n)
         | EvRun _ _ => ("statement", 0)
         | EvSend ws _ => ("send", Z.of_nat ws)
         | EvEnqueue _ => ("enqueue", 0)
         | EvClose => ("close", 0)
         | EvError _ => ("error", 0)
         end%string) (trace (fst r))
  = [("enqueue", 0); ("enqueue", 0); ("insert", 4); ("increment", 4);
     ("enqueue", 0); ("close", 0); ("send", 0); ("send", 2)]%string
  /\ usage_stats (tables (fst r))
     = [{| total_tokens_used := 4; total_limit := 10000 |}].
Proof. split; reflexivity. Qed.

(** ** The fallback estimate *)

Lemma ceil_div4_spec (n : Z) :
  4 * (ceil_div4 n - 1) < n <= 4 * ceil_div4 n.
Proof.
  unfold ceil_div4.
  pose proof (Z.div_mod (n + 3) 4 ltac:(lia)) as Hdiv.
  pose proof (Z.mod_pos_bound (n + 3) 4 ltac:(lia)) as Hmod.
  lia.
Qed.

Lemma simpleTokenEstimate_ceil (text : JS.str) :
  simpleTokenEstimate text = ceil_div4 (JS.length text).
Proof. destruct text; reflexivity. Qed.

Lemma entry_tokenCount_falsy (userInput response : JS.str) (g : JS.val) :
  JS.truthy g = false ->
  entry_tokenCount userInput response g
  = ceil_div4 (JS.length (userInput ++ response)).
Proof.
  intros H. unfold entry_tokenCount.
  now rewrite (int_or_falsy g _ H), simpleTokenEstimate_ceil.
Qed.

(** A commit without a usable reported count records and adds the
    estimate over the concatenated texts. *)
Lemma commit_with_estimate (w : World) (prompt output modelName : JS.str)
  (options : Options) (g : JS.val) (row : UsageRow) (rest : list UsageRow) :
  ready w ->
  usage_stats (tables w) = row :: rest ->
  JS.truthy g = false ->
  let n := ceil_div4 (JS.length (prompt ++ output)) in
  exists w' entry stored,
    run (addChatEntry prompt output g modelName options) w = (w', Ok entry)
    /\ tokensAdded entry = n
    /\ chat_history (tables w') = chat_history (tables w) ++ [stored]
    /\ chat_id stored = chatId entry
    /\ user_input stored = prompt
    /\ response stored = output
    /\ gemini_token_count stored = n
    /\ usage_stats (tables w')
       = {| total_tokens_used := total_tokens_used row + n;
            total_limit := total_limit row |}
         :: map (Sql.add_tokens n) rest
    /\ exists insert,
         trace w' = trace w ++ [EvRun insert (chatId entry);
                                EvRun (AddTokensUsed n) 0].
Proof.
  intros Hw Hrow Hg n.
  pose proof (run_addChatEntry_eq w prompt output g modelName options Hw)
    as Hrun.
  cbv zeta in Hrun. rewrite (entry_tokenCount_falsy _ _ _ Hg) in Hrun.
  fold n in Hrun.
  eexists. eexists. eexists. split; [exact Hrun|].
  change (tables (log_all ?W ?e)) with (tables W).
  rewrite (tables_with_tables w _ Hw). simpl. rewrite Hrow.
  repeat split; try reflexivity. eexists. reflexivity.
Qed.

(** C2. A commit with no reported token count (null or undefined)
    records one history entry and adds to the counter exactly
    [ceil(length(prompt + output) / 4)]: the estimate of the concatenated
    text, the least [n] with [length <= 4 n]. *)
Theorem estimate_over_concatenation (w : World)
  (prompt output modelName : JS.str) (options : Options) (g : JS.val)
  (row : UsageRow) (rest : list UsageRow) :
  ready w ->
  usage_stats (tables w) = row :: rest ->
  g = JS.Null \/ g = JS.Undefined ->
  let n := ceil_div4 (JS.length (prompt ++ output)) in
  4 * (n - 1) < JS.length prompt + JS.length output <= 4 * n
  /\ exists w' entry stored,
       run (addChatEntry prompt output g modelName options) w = (w', Ok entry)
       /\ tokensAdded entry = n
       /\ chat_history (tables w') = chat_history (tables w) ++ [stored]
       /\ chat_id stored = chatId entry
       /\ user_input stored = prompt
       /\ response stored = output
       /\ gemini_token_count stored = n
       /\ usage_stats (tables w')
          = {| total_tokens_used := total_tokens_used row + n;
               total_limit := total_limit row |}
            :: map (Sql.add_tokens n) rest
       /\ exists insert,
            trace w' = trace w ++ [EvRun insert (chatId entry);
                                   EvRun (AddTokensUsed n) 0].
Proof.
  intros Hw Hrow Hg n. split.
  - rewrite <- length_app. apply ceil_div4_spec.
  - apply commit_with_estimate; try assumption.
    destruct Hg as [-> | ->]; reflexivity.
Qed.

Lemma estimate_over_concatenation_witness :
  4 * (1 - 1) < JS.length (JS.lit "a") + JS.length (JS.lit "b") <= 4 * 1
  /\ exists w' entry stored,
       run (addChatEntry (JS.lit "a") (JS.lit "b") JS.Null
              config.defaultModel no_options) started_world
       = (w', Ok entry)
       /\ tokensAdded entry = 1
       /\ chat_history (tables w')
          = chat_history (tables started_world) ++ [stored]
       /\ chat_id stored = chatId entry
       /\ user_input stored = JS.lit "a"
       /\ response stored = JS.lit "b"
       /\ gemini_token_count stored = 1
       /\ usage_stats (tables w')
          = {| total_tokens_used := 0 + 1; total_limit := 10000 |}
            :: map (Sql.add_tokens 1) []
       /\ exists insert,
            trace w' = trace started_world
                       ++ [EvRun insert (chatId entry);
                           EvRun (AddTokensUsed 1) 0].
Proof.
  apply (estimate_over_concatenation started_world (JS.lit "a") (JS.lit "b")
           config.defaultModel no_options JS.Null
           {| total_tokens_used := 0; total_limit := 10000 |} []).
  - repeat split; reflexivity.
  - reflexivity.
  - now left.
Defined.

(** The sum of the estimates of the two texts is a different number:
    two tokens for "a" and "b", where the commit adds one. *)
Example estimate_is_not_the_sum :
  estimateCombinedTokens (JS.lit "a") (JS.lit "b") = 2
  /\ entry_tokenCount (JS.lit "a") (JS.lit "b") JS.Null = 1.
Proof. split; reflexivity. Qed.

(** C9. A reported count of zero is treated like a missing one: when the
    count is 0, null or undefined, the entry recorded and the increment
    of the counter both carry the estimate over the concatenated texts. *)
Theorem zero_count_falls_back (w : World)
  (prompt output modelName : JS.str) (options : Options) (g : JS.val)
  (row : UsageRow) (rest : list UsageRow) :
  ready w ->
  usage_stats (tables w) = row :: rest ->
  g = JS.Number (JS.Int 0) \/ g = JS.Null \/ g = JS.Undefined ->
  let estimate := ceil_div4 (JS.length (prompt ++ output)) in
  exists w' entry stored,
    run (addChatEntry prompt output g modelName options) w = (w', Ok entry)
    /\ tokensAdded entry = estimate
    /\ chat_history (tables w') = chat_history (tables w) ++ [stored]
    /\ gemini_token_count stored = estimate
    /\ hd_error (usage_stats (tables w'))
       = Some {| total_tokens_used := total_tokens_used row + estimate;
                 total_limit := total_limit row |}
    /\ In (EvRun (AddTokensUsed estimate) 0) (trace w').
Proof.
  intros Hw Hrow Hg estimate.
  destruct (commit_with_estimate w prompt output modelName options g row rest
              Hw Hrow)
    as (w' & entry & stored & Hrun & Hadd & Hch & _ & _ & _ & Hcnt & Hus
        & insert & Htr).
  { destruct Hg as [-> | [-> | ->] ]; reflexivity. }
  exists w', entry, stored. repeat split; try assumption.
  - now rewrite Hus.
  - rewrite Htr. apply in_or_app. right. simpl. auto.
Qed.

Lemma zero_count_falls_back_witness :
  exists w' entry stored,
    run (addChatEntry (JS.lit "hello") (JS.lit "Hi there")
           (JS.Number (JS.Int 0)) config.defaultModel no_options)
        started_world
    = (w', Ok entry)
    /\ tokensAdded entry = 4
    /\ chat_history (tables w')
       = chat_history (tables started_world) ++ [stored]
    /\ gemini_token_count stored = 4
    /\ hd_error (usage_stats (tables w'))
       = Some {| total_tokens_used := 0 + 4; total_limit := 10000 |}
    /\ In (EvRun (AddTokensUsed 4) 0) (trace w').
Proof.
  apply (zero_count_falls_back started_world (JS.lit "hello")
           (JS.lit "Hi there") config.defaultModel no_options
           (JS.Number (JS.Int 0))
           {| total_tokens_used := 0; total_limit := 10000 |} []).
  - repeat split; reflexivity.
  - reflexivity.
  - now left.
Defined.

(** What [extractGeminiTokenCount] returns for a response whose metadata
    report zero everywhere is falsy, and so is what it returns when no
    metadata is present; the generation is then committed with the
    estimate. *)
Lemma extract_zero_is_falsy :
  let zero := {| totalTokenCount := JS.Number (JS.Int 0);
                 promptTokenCount := JS.Number (JS.Int 0);
                 candidatesTokenCount := JS.Number (JS.Int 0) |} in
  JS.truthy (extractGeminiTokenCount
               (Some {| usageMetadata := Some zero;
                        candidates := Some [{| candidate_usageMetadata := Some zero |}];
                        response_usageMetadata := Some (Some zero) |})) = false
  /\ JS.truthy (extractGeminiTokenCount None) = false
  /\ JS.truthy (extractGeminiTokenCount
                  (Some {| usageMetadata := None; candidates := None;
                           response_usageMetadata := None |})) = false.
Proof. repeat split; reflexivity. Qed.

Lemma generation_tokens_falsy (body : ChatBody) (gen : Generation) :
  JS.truthy (extractGeminiTokenCount (finalResponse gen)) = false ->
  generation_tokens body gen
  = ceil_div4 (JS.length (body_message body ++ List.concat (chunks gen))).
Proof. intros H. now apply entry_tokenCount_falsy. Qed.

(** ** Interleaved calls *)

Lemma map_add_tokens_0 (l : list UsageRow) : map (Sql.add_tokens 0) l = l.
Proof.
  induction l as [|[u m] l IH]; simpl; [reflexivity|].
  unfold Sql.add_tokens at 1. simpl. now rewrite Z.add_0_r, IH.
Qed.

Lemma map_add_tokens_add (a b : Z) (l : list UsageRow) :
  map (Sql.add_tokens b) (map (Sql.add_tokens a) l)
  = map (Sql.add_tokens (a + b)) l.
Proof.
  rewrite map_map. apply map_ext. intros [u m]. unfold Sql.add_tokens. simpl.
  now rewrite Z.add_assoc.
Qed.

(** One operation of a commit, in a ready world. *)
Lemma step_task (t : Task) (ph : Phase) (w : World) :
  ready w ->
  exists w',
    step (task_prog t ph) w = (w', task_prog t (next_phase w ph))
    /\ ready w'
    /\ usage_stats (tables w')
       = map (Sql.add_tokens (gained t ph)) (usage_stats (tables w)).
Proof.
  intros Hw. expose_ready w Hw.
  destruct ph as [| |i|i]; eexists; (split; [reflexivity|]);
    (split; [repeat split; reflexivity|]); simpl;
    rewrite ?map_add_tokens_0; reflexivity.
Qed.

Lemma credited_next (t : Task) (ph : Phase) (w : World) :
  credited (t, next_phase w ph) = credited (t, ph) + gained t ph.
Proof. destruct ph; simpl; unfold credited; simpl; lia. Qed.

Lemma finished_task (t : Task) (ph : Phase) :
  finished (task_prog t ph) = true -> exists i, ph = Committed i.
Proof. destruct ph as [| |i|i]; simpl; try discriminate. now exists i. Qed.

(** One operation of one task of a pool of commits. *)
Lemma step_nth_tasks (i : nat) (st : list (Task * Phase)) (w : World) :
  ready w ->
  exists w' st',
    step_nth i (pool_progs st) w = (w', pool_progs st')
    /\ ready w'
    /\ map fst st' = map fst st
    /\ usage_stats (tables w')
       = map (Sql.add_tokens (sum (map credited st') - sum (map credited st)))
             (usage_stats (tables w)).
Proof.
  intros Hw. revert i. induction st as [|[t ph] st IH]; intros i.
  - exists w, []. destruct i; simpl; rewrite map_add_tokens_0; auto.
  - destruct i as [|j]; simpl.
    + destruct (step_task t ph w Hw) as (w' & Hstep & Hw' & Hus).
      rewrite Hstep. exists w', ((t, next_phase w ph) :: st).
      split; [reflexivity|]. split; [exact Hw'|]. split; [reflexivity|].
      rewrite Hus. f_equal. f_equal. simpl.
      rewrite (credited_next t ph w). lia.
    + destruct (IH j) as (w' & st' & Hstep & Hw' & Hfst & Hus).
      fold (pool_progs st). rewrite Hstep.
      exists w', ((t, ph) :: st'). simpl.
      split; [reflexivity|]. split; [exact Hw'|].
      split; [now rewrite Hfst|].
      rewrite Hus. f_equal. f_equal. lia.
Qed.

Lemma run_pool_tasks (schedule : list nat) (st : list (Task * Phase))
  (w : World) :
  ready w ->
  exists w' st',
    run_pool schedule (pool_progs st) w = (w', pool_progs st')
    /\ ready w'
    /\ map fst st' = map fst st
    /\ usage_stats (tables w')
       = map (Sql.add_tokens (sum (map credited st') - sum (map credited st)))
             (usage_stats (tables w)).
Proof.
  revert st w. induction schedule as [|i rest IH]; intros st w Hw; simpl.
  - exists w, st. split; [reflexivity|]. split; [exact Hw|].
    split; [reflexivity|]. now rewrite Z.sub_diag, map_add_tokens_0.
  - destruct (step_nth_tasks i st w Hw) as (w1 & st1 & Hstep & Hw1 & Hf1 & Hu1).
    rewrite Hstep.
    destruct (IH st1 w1 Hw1) as (w2 & st2 & Hrun & Hw2 & Hf2 & Hu2).
    exists w2, st2. split; [exact Hrun|]. split; [exact Hw2|].
    split; [congruence|].
    rewrite Hu2, Hu1, map_add_tokens_add. f_equal. f_equal. lia.
Qed.

Lemma credited_all_committed (st : list (Task * Phase)) :
  forallb finished (pool_progs st) = true ->
  sum (map credited st) = sum (map task_tokens (map fst st)).
Proof.
  induction st as [|[t ph] st IH]; simpl; [reflexivity|].
  intros H. apply andb_prop in H. destruct H as [Hf Hrest].
  destruct (finished_task t ph Hf) as [i ->].
  rewrite (IH Hrest). reflexivity.
Qed.

(** No increment is lost: however the operations of concurrent commits
    are interleaved, once all of them have finished the counter has grown
    by the sum of their token counts. *)
Theorem concurrent_commits_add_up (tasks : list Task) (schedule : list nat)
  (w : World) :
  ready w ->
  forallb finished
    (snd (run_pool schedule (map (fun t => task_prog t Started) tasks) w))
  = true ->
  usage_stats
    (tables (fst (run_pool schedule
                    (map (fun t => task_prog t Started) tasks) w)))
  = map (Sql.add_tokens (sum (map task_tokens tasks))) (usage_stats (tables w)).
Proof.
  intros Hw Hfin.
  destruct (run_pool_tasks schedule (map (fun t => (t, Started)) tasks) w Hw)
    as (w' & st' & Hrun & _ & Hfst & Hus).
  unfold pool_progs in Hrun at 1. rewrite map_map in Hrun.
  cbn [fst snd] in Hrun. rewrite Hrun in *. cbn [fst snd] in *.
  rewrite Hus, (credited_all_committed st' Hfin), Hfst, !map_map.
  cbn [fst snd].
  replace (sum (map (fun x : Task => credited (x, Started)) tasks)) with 0.
  - now rewrite Z.sub_0_r.
  - clear. induction tasks as [|t tasks IH]; simpl; [reflexivity|].
    now rewrite <- IH.
Qed.

(** Two commits of 400 and 500 tokens, interleaved operation by
    operation: both finish and the counter holds 900. *)
Example interleaved_commits :
  let tasks :=
    [{| task_input := JS.lit "hello"; task_response := JS.lit "world";
        task_count := JS.Number (JS.Int 400);
        task_model := config.defaultModel; task_options := no_options |};
     {| task_input := JS.lit "again"; task_response := JS.lit "sure";
        task_count := JS.Number (JS.Int 500);
        task_model := config.defaultModel; task_options := no_options |}] in
  let r := run_pool [0; 1; 1; 0; 1; 0]%nat
             (map (fun t => task_prog t Started) tasks) started_world in
  forallb finished (snd r) = true
  /\ usage_stats (tables (fst r))
     = [{| total_tokens_used := 900; total_limit := 10000 |}].
Proof. split; reflexivity. Qed.

(** C6, on the code: the limit is extended by a SELECT followed by an
    UPDATE of the value computed in between.  When two extensions of 5000
    start from the limit 10000 and both read before either writes, both
    report success with the new limit 15000 and the stored limit is
    15000: one extension is lost.  Run one after the other, the same two
    calls leave 20000. *)
Theorem concurrent_extensions_lose_update :
  let extended :=
    {| success := true; previousLimit := 10000; newLimit := 15000;
       amountAdded := 5000; currentUsage := 0 |} in
  let r := run_pool both_read_first two_extensions started_world in
  let s := run_pool one_after_the_other two_extensions started_world in
  usage_stats (tables started_world)
  = [{| total_tokens_used := 0; total_limit := 10000 |}]
  /\ snd r = [Ret extended; Ret extended]
  /\ usage_stats (tables (fst r))
     = [{| total_tokens_used := 0; total_limit := 15000 |}]
  /\ forallb finished (snd s) = true
  /\ usage_stats (tables (fst s))
     = [{| total_tokens_used := 0; total_limit := 20000 |}].
Proof. repeat split; reflexivity. Qed.

(** ** Further observations on the same operations *)

(** A failure of the store is not a rejection: when the read-back after
    the UPDATE fails, [extendTokenLimit] throws although the limit is
    already extended. *)
Example extension_fails_after_update :
  let r := run (extendTokenLimit (JS.Int 5000) 20000)
               (failing_at 2 started_world) in
  snd r = Fail (SqliteError "SQLITE_ERROR")
  /\ usage_stats (tables (fst r))
     = [{| total_tokens_used := 0; total_limit := 15000 |}].
Proof. split; reflexivity. Qed.

(** The socket handler clears the store in the same way, answers the
    sender (socket 0) and informs the other open socket (socket 2); a
    statement that fails inside its transaction leaves the tables as
    they were. *)
Example handleClearDatabase_clears :
  let r := run (handleClearDatabase 0%nat (JS.lit "127.0.0.1") (JS.lit "A"))
               busy_world in
  usage_stats (tables busy_world)
  = [{| total_tokens_used := 900; total_limit := 10000 |}]
  /\ usage_stats (tables (fst r))
     = [{| total_tokens_used := 0; total_limit := 10000 |}]
  /\ chat_history (tables (fst r)) = []
  /\ Sql.next_chat_id (tables (fst r)) = 1
  /\ map (fun ev => match ev with EvSend ws _ => Some ws | _ => None end)
         (trace (fst r))
     = [None; None; None; None; None; Some 0%nat; Some 2%nat]
  /\ forallb (fun k =>
                let f := run (handleClearDatabase 0%nat (JS.lit "127.0.0.1")
                                (JS.lit "A")) (failing_at k busy_world) in
                Nat.eqb (List.length (chat_history (committed (store (fst f)))))
                        2)
             [0; 1; 2; 3; 4]%nat = true.
Proof. repeat split; reflexivity. Qed.

(** The usage object the clear responses hard-code agrees with the
    cleared ledger as long as the limit is positive. *)
Lemma cleared_usage_consistent (usage : UsageRow) :
  0 < total_limit usage -> usage_consistent (cleared_usage_object usage).
Proof.
  intros H. exists 0, (total_limit usage), (total_limit usage), false.
  repeat split; try reflexivity; try lia; try discriminate.
Qed.

(** With 15000 tokens consumed of 10000, the broadcast reports no
    remaining capacity and an exceeded limit, and so does the endpoint. *)
Example over_limit_payloads :
  (forall ev, In ev (trace (fst (run broadcastUpdate over_limit_world))) ->
     exists ws m u,
       ev = EvSend ws m /\ field "usage" m = Some u
       /\ field "remaining" u = Some (JNum 0)
       /\ field "exceeded" u = Some (JBool true))
  /\ List.length (trace (fst (run broadcastUpdate over_limit_world))) = 2%nat
  /\ exists body,
       snd (run apiUsage over_limit_world) = Ok (JsonResponse 200 body)
       /\ field "remaining" body = Some (JNum 0)
       /\ field "exceeded" body = Some (JBool true).
Proof.
  split; [|split].
  - intros ev Hin. vm_compute in Hin.
    destruct Hin as [<- | [<- | [] ] ];
      eexists; eexists; eexists; repeat split; reflexivity.
  - reflexivity.
  - eexists. repeat split; reflexivity.
Qed.

(** * Further properties of the code *)

(** ** tokenUtils.js *)

(** X1. The estimate of two texts taken separately
    ([estimateCombinedTokens]) is the estimate of their concatenation or
    one more, never less; an estimate is zero only for the empty text. *)
Theorem combined_estimate_bounds (input output : JS.str) :
  simpleTokenEstimate (input ++ output)
  <= estimateCombinedTokens input output
  <= simpleTokenEstimate (input ++ output) + 1
  /\ (simpleTokenEstimate input = 0 <-> input = []).
Proof.
  unfold estimateCombinedTokens. rewrite !simpleTokenEstimate_ceil, length_app.
  assert (Hi : 0 <= JS.length input) by (unfold JS.length; lia).
  assert (Ho : 0 <= JS.length output) by (unfold JS.length; lia).
  split.
  - unfold ceil_div4. Z.div_mod_to_equations. lia.
  - split.
    + intros H. destruct input as [|c input]; [reflexivity|].
      unfold ceil_div4, JS.length in H. simpl List.length in H.
      Z.div_mod_to_equations. lia.
    + intros ->. reflexivity.
Qed.

(** X2. [extractGeminiTokenCount] looks at the top-level metadata first:
    a truthy [totalTokenCount] there is the result, whatever the
    candidates and the nested response say; and whenever the result is
    truthy it is the count of one of the three metadata of the response. *)
Theorem extract_prefers_top_level (r : ApiResponse) (m : UsageMetadata) :
  (usageMetadata r = Some m ->
   JS.truthy (totalTokenCount m) = true ->
   extractGeminiTokenCount (Some r) = totalTokenCount m)
  /\ (JS.truthy (extractGeminiTokenCount (Some r)) = true ->
      exists m',
        extractGeminiTokenCount (Some r) = metadata_count m'
        /\ (usageMetadata r = Some m'
            \/ (exists c rest, candidates r = Some (c :: rest)
                               /\ candidate_usageMetadata c = Some m')
            \/ response_usageMetadata r = Some (Some m'))).
Proof.
  split.
  - intros Hm Ht. unfold extractGeminiTokenCount. rewrite Hm.
    unfold metadata_count, JS.or.
    repeat (rewrite Ht; cbv iota zeta beta). reflexivity.
  - destruct r as [um cands resp]. unfold extractGeminiTokenCount.
    cbn [usageMetadata candidates response_usageMetadata].
    destruct um as [m0|]; [destruct (JS.truthy (metadata_count m0)) eqn:T0|];
      (destruct cands as [[|[[m1|]] rest]|];
       [| destruct (JS.truthy (metadata_count m1)) eqn:T1 | |]);
      (destruct resp as [[m2|]|];
       [destruct (JS.truthy (metadata_count m2)) eqn:T2| |]);
      cbn [candidate_usageMetadata JS.truthy];
      repeat (cbv iota zeta beta;
              match goal with H : JS.truthy _ = _ |- _ => rewrite H end);
      cbv iota zeta beta; cbn [JS.truthy];
      intros Ht;
      first [ discriminate Ht
            | congruence
            | solve [eexists; split; [reflexivity|]; eauto 7] ].
Qed.

Lemma extract_prefers_top_level_witness :
  let m := {| totalTokenCount := JS.Number (JS.Int 42);
              promptTokenCount := JS.Undefined;
              candidatesTokenCount := JS.Undefined |} in
  let other := {| totalTokenCount := JS.Number (JS.Int 7);
                  promptTokenCount := JS.Number (JS.Int 3);
                  candidatesTokenCount := JS.Number (JS.Int 4) |} in
  extractGeminiTokenCount
    (Some {| usageMetadata := Some m;
             candidates := Some [{| candidate_usageMetadata := Some other |}];
             response_usageMetadata := Some (Some other) |})
  = JS.Number (JS.Int 42).
Proof.
  intros m other.
  apply (proj1 (extract_prefers_top_level
                  {| usageMetadata := Some m;
                     candidates := Some [{| candidate_usageMetadata := Some other |}];
                     response_usageMetadata := Some (Some other) |} m));
    reflexivity.
Defined.

(** ** db.js *)

Lemma run_initializeDatabase (w : World) :
  working (store w) = None ->
  faults (store w) = [] ->
  run initializeDatabase w
  = (match usage_stats (tables w) with
     | [] =>
         log (with_tables (log (with_db w true) (EvRun CreateTables 0))
                (fst (Sql.apply (clock w) (InsertUsageStats 0 initialLimit)
                        (tables w))))
             (EvRun (InsertUsageStats 0 initialLimit)
                    (Sql.next_usage_id (tables w)))
     | _ :: _ => log (with_db w true) (EvRun CreateTables 0)
     end, Ok tt).
Proof.
  intros Hwk Hfs. expose w. subst.
  destruct t as [[|row rest] ch tc sq]; reflexivity.
Qed.

Lemma seq_of_set_seq_other (name other : string) (v : Z)
  (s : list (string * Z)) :
  String.eqb other name = false ->
  Sql.seq_of name (Sql.set_seq other v s) = Sql.seq_of name s.
Proof.
  intros Hne. unfold Sql.seq_of. induction s as [|p s IH]; simpl.
  - now rewrite Hne.
  - destruct (String.eqb (fst p) other) eqn:E; simpl.
    + rewrite Hne. apply String.eqb_eq in E. rewrite E, Hne. reflexivity.
    + destruct (String.eqb (fst p) name); [reflexivity | exact IH].
Qed.

(** X3. [initializeDatabase()] on a store that does not fail: it
    completes with the handle set; a usage row that exists is kept as it
    is (a restart resets neither the counter nor the limit) and then no
    table changes, the identifier sequences included; a missing one is
    created as {0, 10000}, and this INSERT into the AUTOINCREMENT table
    records the key of the new row under [usage_stats] in
    [sqlite_sequence]: one more than the largest key recorded, so
    [("usage_stats", 1)] in a file just created.  The history, its
    sequence entry and the identifier of the next chat entry are
    untouched in both cases; and running it again changes no table. *)
Theorem initializeDatabase_keeps_ledger (w : World) :
  working (store w) = None ->
  faults (store w) = [] ->
  exists w',
    run initializeDatabase w = (w', Ok tt)
    /\ ready w'
    /\ usage_stats (tables w')
       = match usage_stats (tables w) with
         | [] => [{| total_tokens_used := 0; total_limit := 10000 |}]
         | rows => rows
         end
    /\ chat_history (tables w') = chat_history (tables w)
    /\ sqlite_sequence (tables w')
       = match usage_stats (tables w) with
         | [] =>
             Sql.set_seq "usage_stats"
               (Z.max (Sql.seq_of "usage_stats" (sqlite_sequence (tables w)))
                      0 + 1)
               (sqlite_sequence (tables w))
         | _ :: _ => sqlite_sequence (tables w)
         end
    /\ (usage_stats (tables w) = [] -> sqlite_sequence (tables w) = [] ->
        sqlite_sequence (tables w') = [("usage_stats"%string, 1)])
    /\ Sql.seq_of "chat_history" (sqlite_sequence (tables w'))
       = Sql.seq_of "chat_history" (sqlite_sequence (tables w))
    /\ Sql.next_chat_id (tables w') = Sql.next_chat_id (tables w)
    /\ tables (fst (run initializeDatabase w')) = tables w'.
Proof.
  intros Hwk Hfs. eexists. split; [apply run_initializeDatabase; assumption|].
  expose w. subst. destruct t as [[|row rest] ch tc sq].
  - assert (Hseq : Sql.seq_of "chat_history"
                     (Sql.set_seq "usage_stats"
                        (Z.max (Sql.seq_of "usage_stats" sq) 0 + 1) sq)
                   = Sql.seq_of "chat_history" sq)
      by (apply seq_of_set_seq_other; reflexivity).
    repeat match goal with |- _ /\ _ => split end; try reflexivity.
    + intros _ Hsq. cbn in Hsq. subst sq. reflexivity.
    + exact Hseq.
    + change (Z.max (Sql.seq_of "chat_history"
                       (Sql.set_seq "usage_stats"
                          (Z.max (Sql.seq_of "usage_stats" sq) 0 + 1) sq))
                    (Sql.max_rowid ch) + 1
              = Z.max (Sql.seq_of "chat_history" sq) (Sql.max_rowid ch) + 1).
      rewrite Hseq. reflexivity.
  - repeat split; try reflexivity. intros H; discriminate H.
Qed.

Lemma initializeDatabase_keeps_ledger_witness :
  let w := fresh_world in
  exists w',
    run initializeDatabase w = (w', Ok tt)
    /\ ready w'
    /\ usage_stats (tables w')
       = match usage_stats (tables w) with
         | [] => [{| total_tokens_used := 0; total_limit := 10000 |}]
         | rows => rows
         end
    /\ chat_history (tables w') = chat_history (tables w)
    /\ sqlite_sequence (tables w')
       = match usage_stats (tables w) with
         | [] =>
             Sql.set_seq "usage_stats"
               (Z.max (Sql.seq_of "usage_stats" (sqlite_sequence (tables w)))
                      0 + 1)
               (sqlite_sequence (tables w))
         | _ :: _ => sqlite_sequence (tables w)
         end
    /\ (usage_stats (tables w) = [] -> sqlite_sequence (tables w) = [] ->
        sqlite_sequence (tables w') = [("usage_stats"%string, 1)])
    /\ Sql.seq_of "chat_history" (sqlite_sequence (tables w'))
       = Sql.seq_of "chat_history" (sqlite_sequence (tables w))
    /\ Sql.next_chat_id (tables w') = Sql.next_chat_id (tables w)
    /\ tables (fst (run initializeDatabase w')) = tables w'.
Proof.
  apply (initializeDatabase_keeps_ledger fresh_world); reflexivity.
Defined.

Lemma run_updateTokenLimit_ready (w : World) (n : Z) :
  0 < n ->
  ready w ->
  run (updateTokenLimit (JS.Int n)) w
  = (log (with_tables w (fst (Sql.apply (clock w) (SetTotalLimit n) (tables w))))
         (EvRun (SetTotalLimit n) 0),
     Ok match hd_error (map (Sql.set_limit n) (usage_stats (tables w))) with
        | Some s => s
        | None => {| total_tokens_used := 0; total_limit := 10000 |}
        end).
Proof.
  intros Hn Hw. unfold updateTokenLimit. rewrite run_rethrow.
  destruct (n <=? 0) eqn:H0; [apply Z.leb_le in H0; lia|].
  expose_ready w Hw. reflexivity.
Qed.

(** X4. [updateTokenLimit(newLimit)]: NaN and every value [<= 0] are
    rejected with the process state unchanged; any positive value replaces
    the limit, also one below the tokens already consumed: the counter and
    the history are untouched, the returned row is {consumed, newLimit},
    and [isTokenLimitExceeded()] then tells [consumed >= newLimit]. *)
Theorem updateTokenLimit_contract (w : World) (newLimit : JS.num) :
  (JS.isNaN newLimit || JS.le newLimit (JS.Int 0) = true ->
   run (updateTokenLimit newLimit) w = (w, Fail InvalidTokenLimit))
  /\ (forall n row rest,
        newLimit = JS.Int n -> 0 < n -> ready w ->
        usage_stats (tables w) = row :: rest ->
        exists w',
          run (updateTokenLimit newLimit) w
          = (w', Ok {| total_tokens_used := total_tokens_used row;
                       total_limit := n |})
          /\ ready w'
          /\ usage_stats (tables w') = map (Sql.set_limit n) (row :: rest)
          /\ chat_history (tables w') = chat_history (tables w)
          /\ snd (run isTokenLimitExceeded w')
             = Ok (total_tokens_used row >=? n)).
Proof.
  split.
  - destruct newLimit as [|n]; simpl; [reflexivity|].
    intros H. unfold updateTokenLimit. rewrite H. reflexivity.
  - intros n row rest -> Hn Hw Hrow.
    rewrite (run_updateTokenLimit_ready w n Hn Hw), Hrow.
    eexists. split; [reflexivity|].
    assert (Hw' : ready (log (with_tables w
                     (fst (Sql.apply (clock w) (SetTotalLimit n) (tables w))))
                     (EvRun (SetTotalLimit n) 0))).
    { expose_ready w Hw. repeat split; reflexivity. }
    split; [exact Hw'|].
    assert (Hus : usage_stats (tables (log (with_tables w
                     (fst (Sql.apply (clock w) (SetTotalLimit n) (tables w))))
                     (EvRun (SetTotalLimit n) 0)))
                  = map (Sql.set_limit n) (row :: rest)).
    { expose_ready w Hw. simpl. simpl in Hrow. now rewrite Hrow. }
    split; [exact Hus|]. split.
    + expose_ready w Hw. reflexivity.
    + rewrite (run_isTokenLimitExceeded_ready _ _ _ Hw' Hus). reflexivity.
Qed.

Lemma updateTokenLimit_contract_witness :
  run (updateTokenLimit (JS.Int (-5))) used_world
  = (used_world, Fail InvalidTokenLimit)
  /\ exists w',
       run (updateTokenLimit (JS.Int 500)) used_world
       = (w', Ok {| total_tokens_used := 900; total_limit := 500 |})
       /\ snd (run isTokenLimitExceeded w') = Ok true.
Proof.
  split.
  - apply (proj1 (updateTokenLimit_contract used_world (JS.Int (-5)))).
    reflexivity.
  - destruct (proj2 (updateTokenLimit_contract used_world (JS.Int 500))
                500 {| total_tokens_used := 900; total_limit := 10000 |} [])
      as (w' & Hrun & _ & _ & _ & Hex);
      [reflexivity|lia|repeat split; reflexivity|reflexivity|].
    exists w'. split; [exact Hrun|exact Hex].
Defined.

Lemma insert_desc_perm (r : ChatRow) (l : list ChatRow) :
  Permutation (Sql.insert_desc r l) (r :: l).
Proof.
  induction l as [|x xs IH]; simpl; [reflexivity|].
  destruct (timestamp x <=? timestamp r); [reflexivity|].
  rewrite IH. apply perm_swap.
Qed.

Lemma order_by_timestamp_desc_perm (l : list ChatRow) :
  Permutation (Sql.order_by_timestamp_desc l) l.
Proof.
  induction l as [|x xs IH]; simpl; [reflexivity|].
  rewrite insert_desc_perm. now constructor.
Qed.

Lemma insert_desc_sorted (r : ChatRow) (l : list ChatRow) :
  newest_first l -> newest_first (Sql.insert_desc r l).
Proof.
  unfold newest_first. induction l as [|x xs IH]; simpl; intros Hs.
  - repeat constructor.
  - inversion Hs as [|? ? Hxs Hx]; subst.
    destruct (timestamp x <=? timestamp r) eqn:Hle.
    + apply Z.leb_le in Hle. constructor; [exact Hs|].
      constructor; [exact Hle|].
      eapply Forall_impl; [|exact Hx]. simpl. intros a Ha. lia.
    + apply Z.leb_gt in Hle. constructor; [now apply IH|].
      eapply Permutation_Forall; [symmetry; apply insert_desc_perm|].
      constructor; [lia|exact Hx].
Qed.

Lemma order_by_timestamp_desc_sorted (l : list ChatRow) :
  newest_first (Sql.order_by_timestamp_desc l).
Proof.
  induction l as [|x xs IH]; simpl; [constructor|].
  now apply insert_desc_sorted.
Qed.

(** X5. [getRecentChats(limit)] on a ready store reads without writing
    and returns the newest entries first: the result followed by the
    entries it leaves out is the whole history, ordered by decreasing
    timestamp; for a limit [>= 0] the result has [min(limit, size)]
    entries, and a negative limit leaves nothing out. *)
Theorem getRecentChats_newest_first (w : World) (limit : Z) :
  ready w ->
  exists chats older,
    run (getRecentChats limit) w = (w, Ok chats)
    /\ newest_first (chats ++ older)
    /\ Permutation (chats ++ older) (chat_history (tables w))
    /\ (0 <= limit ->
        Z.of_nat (List.length chats)
        = Z.min limit (Z.of_nat (List.length (chat_history (tables w)))))
    /\ (limit < 0 -> older = []).
Proof.
  intros Hw. rewrite (run_getRecentChats_ready w limit Hw).
  set (sorted := Sql.order_by_timestamp_desc (chat_history (tables w))).
  assert (Hperm : Permutation sorted (chat_history (tables w)))
    by apply order_by_timestamp_desc_perm.
  assert (Hsort : newest_first sorted)
    by apply order_by_timestamp_desc_sorted.
  unfold Sql.sql_limit. destruct (limit <? 0) eqn:Hneg.
  - apply Z.ltb_lt in Hneg. exists sorted, [].
    rewrite app_nil_r. repeat split; try assumption; lia.
  - apply Z.ltb_ge in Hneg.
    exists (firstn (Z.to_nat limit) sorted), (skipn (Z.to_nat limit) sorted).
    rewrite firstn_skipn. split; [reflexivity|].
    split; [exact Hsort|]. split; [exact Hperm|]. split; [|lia].
    intros _. rewrite length_firstn, (Permutation_length Hperm). lia.
Qed.

Lemma getRecentChats_newest_first_witness :
  exists chats older,
    run (getRecentChats 1) used_world = (used_world, Ok chats)
    /\ newest_first (chats ++ older)
    /\ Permutation (chats ++ older) (chat_history (tables used_world))
    /\ (0 <= 1 ->
        Z.of_nat (List.length chats)
        = Z.min 1 (Z.of_nat (List.length (chat_history (tables used_world)))))
    /\ (1 < 0 -> older = []).
Proof.
  apply (getRecentChats_newest_first used_world 1).
  repeat split; reflexivity.
Defined.

Lemma max_rowid_bound (rows : list ChatRow) (row : ChatRow) :
  In row rows -> chat_id row <= Sql.max_rowid rows.
Proof.
  unfold Sql.max_rowid. induction rows as [|x xs IH]; simpl; [contradiction|].
  intros [->|Hin]; [lia|]. specialize (IH Hin). lia.
Qed.

Lemma max_rowid_app (a b : list ChatRow) :
  Sql.max_rowid (a ++ b) = Z.max (Sql.max_rowid a) (Sql.max_rowid b).
Proof.
  unfold Sql.max_rowid. induction a as [|x xs IH]; simpl.
  - assert (0 <= fold_right Z.max 0 (map chat_id b)).
    { induction b; simpl; lia. }
    lia.
  - rewrite IH. lia.
Qed.

Lemma seq_of_set_seq (name : string) (v : Z) (s : list (string * Z)) :
  Sql.seq_of name (Sql.set_seq name v s) = v.
Proof.
  unfold Sql.seq_of. induction s as [|p s IH]; simpl.
  - now rewrite String.eqb_refl.
  - destruct (String.eqb (fst p) name) eqn:E; simpl.
    + now rewrite String.eqb_refl.
    + rewrite E. exact IH.
Qed.

(** X6. [addChatEntry] on a ready store appends one row that carries the
    returned [chatId], the tokens added and the current time; the
    identifier is positive and larger than the identifier of every entry
    of the history, and the next commit gets the following one. *)
Theorem addChatEntry_fresh_id (w : World) (userInput output : JS.str)
  (geminiTokenCount : JS.val) (modelName : JS.str) (options : Options) :
  ready w ->
  exists w' entry row,
    run (addChatEntry userInput output geminiTokenCount modelName options) w
    = (w', Ok entry)
    /\ chat_history (tables w') = chat_history (tables w) ++ [row]
    /\ chat_id row = chatId entry
    /\ gemini_token_count row = tokensAdded entry
    /\ timestamp row = clock w
    /\ 0 < chatId entry
    /\ (forall old, In old (chat_history (tables w)) ->
                    chat_id old < chatId entry)
    /\ Sql.next_chat_id (tables w') = chatId entry + 1.
Proof.
  intros Hw.
  rewrite (run_addChatEntry_eq w userInput output geminiTokenCount modelName
             options Hw).
  cbv zeta. eexists. eexists. eexists. split; [reflexivity|].
  change (tables (log_all ?x ?e)) with (tables x).
  rewrite tables_with_tables by exact Hw.
  cbn [Sql.apply fst chat_history Sql.set_usage_stats chatId tokensAdded].
  split; [reflexivity|]. cbn [chat_id gemini_token_count timestamp].
  split; [reflexivity|]. split; [reflexivity|]. split; [reflexivity|].
  assert (H0 : 0 <= Sql.max_rowid (chat_history (tables w))).
  { unfold Sql.max_rowid. induction (chat_history (tables w)); simpl; lia. }
  split; [unfold Sql.next_chat_id; lia|]. split.
  - intros old Hin. apply max_rowid_bound in Hin.
    unfold Sql.next_chat_id. lia.
  - unfold Sql.next_chat_id at 1.
    cbv [Sql.set_usage_stats]. cbn [sqlite_sequence chat_history].
    rewrite seq_of_set_seq, max_rowid_app.
    unfold Sql.max_rowid at 2. cbn [map fold_right chat_id].
    unfold Sql.next_chat_id. lia.
Qed.

Lemma addChatEntry_fresh_id_witness :
  exists w' entry row,
    run (addChatEntry (JS.lit "more") (JS.lit "text") JS.Null
           config.defaultModel no_options) used_world
    = (w', Ok entry)
    /\ chat_history (tables w') = chat_history (tables used_world) ++ [row]
    /\ chat_id row = chatId entry
    /\ gemini_token_count row = tokensAdded entry
    /\ timestamp row = clock used_world
    /\ 0 < chatId entry
    /\ (forall old, In old (chat_history (tables used_world)) ->
                    chat_id old < chatId entry)
    /\ Sql.next_chat_id (tables w') = chatId entry + 1.
Proof.
  apply (addChatEntry_fresh_id used_world).
  repeat split; reflexivity.
Defined.

Lemma sum_app (a b : list Z) : sum (a ++ b) = sum a + sum b.
Proof. unfold sum. induction a as [|x a IH]; simpl; [reflexivity|]. lia. Qed.

Lemma ledger_consistent_rows (t : Tables) :
  ledger_consistent t ->
  exists row rest, usage_stats t = row :: rest /\ 0 < total_limit row.
Proof.
  intros [Hne Hall]. destruct (usage_stats t) as [|row rest]; [contradiction|].
  exists row, rest. split; [reflexivity|].
  inversion Hall as [|? ? [_ Hlim] _]. exact Hlim.
Qed.

(** One operation on a ready, consistent ledger leaves it ready and
    consistent. *)
Lemma ledger_op_invariant (op : LedgerOp) (w : World) :
  ready w ->
  ledger_consistent (tables w) ->
  ready (fst (run (ledger_op op) w))
  /\ ledger_consistent (tables (fst (run (ledger_op op) w))).
Proof.
  intros Hw Hc. pose proof Hc as [Hne Hall].
  destruct op as [u r g m o|amountToAdd maxAllowed|limit|];
    unfold ledger_op; rewrite run_bind.
  - destruct (run_addChatEntry_ready w u r g m o Hw)
      as (w' & Hrun & Hw' & Hus & Hch & _).
    cbv zeta in *. rewrite Hrun. cbn [fst run]. split; [exact Hw'|].
    unfold ledger_consistent, history_tokens. rewrite Hus, Hch.
    cbn [Sql.apply fst chat_history]. rewrite map_app, sum_app.
    split.
    + destruct (usage_stats (tables w)); [contradiction|discriminate].
    + apply Forall_map. eapply Forall_impl; [|exact Hall].
      intros row [Hrow Hlim]. unfold history_tokens in Hrow.
      cbn [Sql.add_tokens total_tokens_used total_limit map
           gemini_token_count].
      split; [|exact Hlim]. rewrite Hrow. unfold sum. cbn [fold_right]. lia.
  - destruct amountToAdd as [|amount].
    { cbn. split; assumption. }
    destruct (Z.leb_spec amount 0) as [H0|H0].
    { unfold extendTokenLimit.
      replace (amount <=? 0) with true by (symmetry; now apply Z.leb_le).
      cbn. split; assumption. }
    destruct (Z.leb_spec amount maxAllowed) as [H1|H1].
    + destruct (ledger_consistent_rows _ Hc) as (row & rest & Hrow & Hlim).
      destruct (run_extendTokenLimit_ready w amount maxAllowed row rest
                  (conj H0 H1) Hw Hrow) as (w' & Hrun & Hw' & Hus & Hch & _).
      rewrite Hrun. cbn [fst run]. split; [exact Hw'|].
      unfold ledger_consistent, history_tokens. rewrite Hus, Hch.
      split; [discriminate|].
      rewrite <- Hrow. apply Forall_map. eapply Forall_impl; [|exact Hall].
      intros x [Hx _]. cbn. split; [exact Hx|lia].
    + unfold extendTokenLimit.
      replace (amount <=? 0) with false by (symmetry; apply Z.leb_gt; lia).
      replace (amount >? maxAllowed) with true
        by (symmetry; apply Z.gtb_lt; lia).
      cbn. split; assumption.
  - destruct limit as [|n].
    { cbn. split; assumption. }
    destruct (Z.leb_spec n 0) as [H0|H0].
    { unfold updateTokenLimit.
      replace (n <=? 0) with true by (symmetry; now apply Z.leb_le).
      cbn. split; assumption. }
    rewrite (run_updateTokenLimit_ready w n H0 Hw). cbn [fst run].
    split; [expose_ready w Hw; repeat split; reflexivity|].
    change (tables (log ?x ?e)) with (tables x).
    rewrite tables_with_tables by exact Hw.
    unfold ledger_consistent, history_tokens. cbn.
    split.
    + destruct (usage_stats (tables w)); [contradiction|discriminate].
    + apply Forall_map. eapply Forall_impl; [|exact Hall].
      intros x [Hx _]. cbn. split; [exact Hx|exact H0].
  - destruct (run_clearDatabase_ready w Hw) as (w' & Hrun & Hw' & Ht & _).
    rewrite Hrun. cbn [fst run]. split; [exact Hw'|].
    rewrite Ht. unfold ledger_consistent, history_tokens, cleared. cbn.
    split.
    + destruct (usage_stats (tables w)); [contradiction|discriminate].
    + apply Forall_map. eapply Forall_impl; [|exact Hall].
      intros x [_ Hx]. cbn. split; [reflexivity|exact Hx].
Qed.

(** X7. The ledger invariant.  On a store that does not fail, whatever
    sequence of commits, extensions, limit updates and clears is run
    (accepted or rejected), the usage row exists, its counter is the sum
    of the token counts recorded in the history, and its limit is
    positive. *)
Theorem ledger_invariant (ops : list LedgerOp) (w : World) :
  ready w ->
  ledger_consistent (tables w) ->
  ready (run_ops ops w) /\ ledger_consistent (tables (run_ops ops w)).
Proof.
  revert w. induction ops as [|op ops IH]; intros w Hw Hc.
  - split; assumption.
  - destruct (ledger_op_invariant op w Hw Hc) as [Hw' Hc'].
    exact (IH _ Hw' Hc').
Qed.

Lemma ledger_invariant_witness :
  let ops := [OpCommit (JS.lit "hello") (JS.lit "world") JS.Undefined
                config.defaultModel no_options;
              OpExtend (JS.Int 5000) 20000;
              OpExtend (JS.Int 50000) 20000;
              OpSetLimit (JS.Int 2);
              OpCommit (JS.lit "again") (JS.lit "sure") (JS.Number (JS.Int 7))
                config.defaultModel no_options;
              OpClear;
              OpSetLimit JS.NaN] in
  ready (run_ops ops started_world)
  /\ ledger_consistent (tables (run_ops ops started_world)).
Proof.
  intros ops. apply (ledger_invariant ops started_world).
  - repeat split; reflexivity.
  - split; [discriminate|]. repeat constructor.
Defined.

(** X8. A commit is two statements outside a transaction: when the
    UPDATE of the counter fails after the INSERT went through,
    [addChatEntry] throws, the entry stays in the history and the counter
    is unchanged, so the tokens of that entry are never counted. *)
Theorem addChatEntry_is_not_atomic (w : World) (userInput output : JS.str)
  (geminiTokenCount : JS.val) (modelName : JS.str) (options : Options)
  (fs : list bool) :
  db w = true ->
  working (store w) = None ->
  faults (store w) = false :: true :: fs ->
  exists w' row,
    run (addChatEntry userInput output geminiTokenCount modelName options) w
    = (w', Fail (SqliteError "SQLITE_ERROR"))
    /\ chat_history (tables w') = chat_history (tables w) ++ [row]
    /\ gemini_token_count row
       = entry_tokenCount userInput output geminiTokenCount
    /\ usage_stats (tables w') = usage_stats (tables w)
    /\ working (store w') = None.
Proof.
  intros Hdb Hwk Hfs. expose w. subst.
  eexists. eexists. split; [reflexivity|]. repeat split; reflexivity.
Qed.

Lemma addChatEntry_is_not_atomic_witness :
  exists w' row,
    run (addChatEntry (JS.lit "hello") (JS.lit "world")
           (JS.Number (JS.Int 400)) config.defaultModel no_options)
        (failing_at 1 started_world)
    = (w', Fail (SqliteError "SQLITE_ERROR"))
    /\ chat_history (tables w')
       = chat_history (tables (failing_at 1 started_world)) ++ [row]
    /\ gemini_token_count row
       = entry_tokenCount (JS.lit "hello") (JS.lit "world")
           (JS.Number (JS.Int 400))
    /\ usage_stats (tables w')
       = usage_stats (tables (failing_at 1 started_world))
    /\ working (store w') = None.
Proof.
  apply (addChatEntry_is_not_atomic (failing_at 1 started_world) _ _ _ _ _ []);
    reflexivity.
Defined.

(** X9. [initializeDatabase] assigns the handle as soon as the file is
    open.  When the INSERT of the usage row then fails, the call throws
    with the handle set, so [getDb] never initialises again: on the store
    that has recovered, commits succeed but no row counts them, the usage
    reads {0, 10000}, the limit is never exceeded and an extension fails
    for want of a row. *)
Theorem failed_initialization_is_not_retried (w : World)
  (userInput output : JS.str) (geminiTokenCount : JS.val)
  (modelName : JS.str) (options : Options) :
  db w = false ->
  working (store w) = None ->
  usage_stats (tables w) = [] ->
  faults (store w) = [false; false; false; true] ->
  exists w1 w2 entry,
    run initializeDatabase w = (w1, Fail (SqliteError "SQLITE_ERROR"))
    /\ db w1 = true
    /\ run (addChatEntry userInput output geminiTokenCount modelName options) w1
       = (w2, Ok entry)
    /\ usage_stats (tables w2) = []
    /\ snd (run getTokenUsage w2)
       = Ok {| total_tokens_used := 0; total_limit := 10000 |}
    /\ snd (run isTokenLimitExceeded w2) = Ok false
    /\ snd (run (extendTokenLimit (JS.Int 1) 20000) w2)
       = Fail UsageStatsNotFound.
Proof.
  intros Hdb Hwk Hus Hfs. expose w. subst.
  destruct t as [us ch tc sq]. simpl in Hus. subst us.
  eexists. eexists. eexists. split; [reflexivity|]. split; [reflexivity|].
  split; [reflexivity|]. repeat split; reflexivity.
Qed.

Lemma failed_initialization_is_not_retried_witness :
  exists w1 w2 entry,
    run initializeDatabase (failing_at 3 fresh_world)
    = (w1, Fail (SqliteError "SQLITE_ERROR"))
    /\ db w1 = true
    /\ run (addChatEntry (JS.lit "hello") (JS.lit "world")
              (JS.Number (JS.Int 400)) config.defaultModel no_options) w1
       = (w2, Ok entry)
    /\ usage_stats (tables w2) = []
    /\ snd (run getTokenUsage w2)
       = Ok {| total_tokens_used := 0; total_limit := 10000 |}
    /\ snd (run isTokenLimitExceeded w2) = Ok false
    /\ snd (run (extendTokenLimit (JS.Int 1) 20000) w2)
       = Fail UsageStatsNotFound.
Proof.
  apply (failed_initialization_is_not_retried (failing_at 3 fresh_world));
    reflexivity.
Defined.
(** ** wsBroadcast.js *)

Lemma filter_key_other_deliverable (w : World) (excludeWs ws : nat)
  (l : list (nat * ClientInfo)) :
  filter (fun entry => Nat.eqb (fst entry) ws)
         (filter (other_deliverable w excludeWs) l)
  = if negb (Nat.eqb ws excludeWs)
       && (is_open (readyState w ws) && negb (send_throws w ws))
    then filter (fun entry => Nat.eqb (fst entry) ws) l
    else [].
Proof.
  induction l as [|e l IH]; simpl.
  - now destruct (_ && _).
  - destruct (Nat.eqb (fst e) ws) eqn:Heq.
    + apply Nat.eqb_eq in Heq.
      unfold other_deliverable at 1, deliverable. rewrite Heq.
      destruct (negb (Nat.eqb ws excludeWs)
                && (is_open (readyState w ws) && negb (send_throws w ws)))
        eqn:Hd; simpl; rewrite IH, ?Heq, ?Nat.eqb_refl; reflexivity.
    + destruct (other_deliverable w excludeWs e); simpl;
        rewrite ?Heq, IH; reflexivity.
Qed.

(** X10. [broadcastToOthers(excludeWs, data)] never hands the payload to
    the excluded socket; every other registered socket that is OPEN and
    whose send does not throw gets it exactly once, and nothing else is
    sent; the result is the number of copies sent.  Unlike
    [broadcastToAll] it leaves the registry and the store alone. *)
Theorem broadcastToOthers_spares_sender (w : World) (excludeWs : nat)
  (data : json) :
  NoDup (map fst (wsClients w)) ->
  exists evs,
    run (broadcastToOthers excludeWs data) w
    = (log_all w evs, Ok (Z.of_nat (List.length evs)))
    /\ filter (is_send_to excludeWs) evs = []
    /\ (forall ws, ws <> excludeWs ->
          filter (is_send_to ws) evs
          = if registered w ws && is_open (readyState w ws)
               && negb (send_throws w ws)
            then [EvSend ws data] else [])
    /\ (forall ev, In ev evs -> exists ws, ev = EvSend ws data).
Proof.
  intros Hnd. exists (others_events w excludeWs data).
  split; [|split; [|split] ].
  - rewrite run_broadcastToOthers. unfold others_events.
    now rewrite length_map.
  - unfold others_events.
    rewrite sends_to, filter_key_other_deliverable, Nat.eqb_refl.
    reflexivity.
  - intros ws Hne. unfold others_events.
    rewrite sends_to, filter_key_other_deliverable.
    apply Nat.eqb_neq in Hne. rewrite Hne. cbn [negb andb].
    unfold registered. rewrite <- andb_assoc.
    destruct (is_open (readyState w ws) && negb (send_throws w ws));
      [rewrite andb_true_r|now rewrite andb_false_r].
    pose proof (count_key_NoDup ws _ Hnd) as Hcount.
    destruct (existsb _ _).
    + destruct (filter _ (wsClients w)) as [|e [|e' rest] ] eqn:Hf;
        try discriminate.
      assert (He : In e (filter (fun entry => Nat.eqb (fst entry) ws)
                           (wsClients w))) by (rewrite Hf; now left).
      apply filter_In in He. destruct He as [_ He].
      apply Nat.eqb_eq in He. now rewrite <- He.
    + destruct (filter _ (wsClients w)); [reflexivity|discriminate].
  - intros ev Hin. unfold others_events in Hin.
    apply in_map_iff in Hin. destruct Hin as (e & Hev & _).
    exists (fst e). now symmetry.
Qed.

Lemma broadcastToOthers_spares_sender_witness :
  exists evs,
    run (broadcastToOthers 0%nat (jstr "payload")) three_clients_world
    = (log_all three_clients_world evs, Ok (Z.of_nat (List.length evs)))
    /\ filter (is_send_to 0%nat) evs = []
    /\ (forall ws, ws <> 0%nat ->
          filter (is_send_to ws) evs
          = if registered three_clients_world ws
               && is_open (readyState three_clients_world ws)
               && negb (send_throws three_clients_world ws)
            then [EvSend ws (jstr "payload")] else [])
    /\ (forall ev, In ev evs -> exists ws, ev = EvSend ws (jstr "payload")).
Proof.
  apply (broadcastToOthers_spares_sender three_clients_world 0%nat
           (jstr "payload")).
  simpl. repeat constructor; simpl; intuition discriminate.
Defined.

Lemma run_sendToClient_loop (w : World) (clientId : JS.str) (data : json)
  (entries : list (nat * ClientInfo)) :
  run (sendToClient_loop entries clientId data) w
  = match find (fun entry =>
                  JS.str_eqb (client_id (snd entry)) clientId
                  && is_open (readyState w (fst entry))) entries with
    | Some entry =>
        if send_throws w (fst entry) then (w, Ok false)
        else (log w (EvSend (fst entry) data), Ok true)
    | None => (w, Ok false)
    end.
Proof.
  induction entries as [|[client clientInfo] rest IH]; [reflexivity|].
  cbn [sendToClient_loop find fst snd].
  rewrite run_bind, run_perform. cbn [exec].
  destruct (JS.str_eqb (client_id clientInfo) clientId
            && is_open (readyState w client)); [|exact IH].
  rewrite run_try_catch, run_bind, run_perform. cbn [exec fst].
  destruct (send_throws w client); reflexivity.
Qed.

(** X11. [sendToClient(clientId, data)] never throws and sends at most
    one message: [true] means the payload went to a registered OPEN socket
    with that client id; [false] means nothing was sent; when no send
    throws, the result is [true] exactly when such a socket exists. *)
Theorem sendToClient_reaches_first_open (w : World) (clientId : JS.str)
  (data : json) :
  exists w' delivered,
    run (sendToClient clientId data) w = (w', Ok delivered)
    /\ (delivered = true ->
        exists ws info,
          In (ws, info) (wsClients w) /\ client_id info = clientId
          /\ readyState w ws = OPEN
          /\ w' = log w (EvSend ws data))
    /\ (delivered = false -> w' = w)
    /\ ((forall ws, send_throws w ws = false) ->
        (delivered = true <->
         exists ws info,
           In (ws, info) (wsClients w) /\ client_id info = clientId
           /\ readyState w ws = OPEN)).
Proof.
  unfold sendToClient. rewrite run_bind, run_perform. cbn [exec].
  rewrite run_sendToClient_loop.
  destruct (find _ (wsClients w)) as [[ws info]|] eqn:Hfind.
  - apply find_some in Hfind. destruct Hfind as [Hin Hmatch].
    cbn [fst snd] in *. apply andb_prop in Hmatch.
    destruct Hmatch as [Hid Hopen]. apply str_eqb_eq in Hid.
    assert (Hst : readyState w ws = OPEN)
      by (destruct (readyState w ws); easy).
    destruct (send_throws w ws) eqn:Hthrows.
    + exists w, false. split; [reflexivity|].
      split; [discriminate|]. split; [reflexivity|].
      intros Hall. rewrite Hall in Hthrows. discriminate.
    + eexists. exists true. split; [reflexivity|].
      split; [|split; [discriminate|] ].
      * intros _. now exists ws, info.
      * intros _. split; [|reflexivity]. intros _. now exists ws, info.
  - exists w, false. split; [reflexivity|].
    split; [discriminate|]. split; [reflexivity|].
    intros _. split; [discriminate|].
    intros (ws & info & Hin & Hid & Hst). exfalso.
    pose proof (find_none _ _ Hfind _ Hin) as Hno. cbn [fst snd] in Hno.
    apply str_eqb_eq in Hid. now rewrite Hid, Hst in Hno.
Qed.

Lemma filter_idem {X : Type} (f : X -> bool) (l : list X) :
  filter f (filter f l) = filter f l.
Proof.
  induction l as [|x l IH]; simpl; [reflexivity|].
  destruct (f x) eqn:Hf; simpl; rewrite ?Hf, IH; reflexivity.
Qed.

(** X12. [cleanupClosedConnections()] returns the number of registered
    sockets that are CLOSED or CLOSING and removes exactly those; it
    touches neither the store nor the sockets, and a second sweep removes
    nothing. *)
Theorem cleanupClosedConnections_sweeps (w : World) :
  exists w',
    run cleanupClosedConnections w
    = (w', Ok (Z.of_nat (List.length (filter (dead w) (wsClients w)))))
    /\ wsClients w' = filter (fun entry => negb (dead w entry)) (wsClients w)
    /\ (forall ws, is_closed_or_closing (readyState w ws) = true ->
                   registered w' ws = false)
    /\ store w' = store w /\ trace w' = trace w
    /\ run cleanupClosedConnections w' = (w', Ok 0).
Proof.
  rewrite run_cleanupClosedConnections. eexists. split.
  - f_equal. f_equal. unfold live_clients.
    pose proof (filter_length (dead w) (wsClients w)) as Hlen.
    lia.
  - split; [reflexivity|]. split; [|split; [reflexivity|split; [reflexivity|] ] ].
    + intros ws Hdead. unfold registered. cbn [wsClients with_clients].
      destruct (existsb _ _) eqn:Hex; [|reflexivity].
      apply existsb_exists in Hex. destruct Hex as (e & He & Heq).
      apply Nat.eqb_eq in Heq. subst ws. apply filter_In in He.
      destruct He as [_ Hlive]. unfold dead in Hlive.
      now rewrite Hdead in Hlive.
    + rewrite run_cleanupClosedConnections.
      assert (Hlive : live_clients (with_clients w (live_clients w))
                      = live_clients w).
      { unfold live_clients at 1. cbn [wsClients with_clients].
        unfold live_clients.
        change (fun entry => negb (dead (with_clients w ?l) entry))
          with (fun entry => negb (dead w entry)).
        apply filter_idem. }
      rewrite Hlive. cbn [wsClients with_clients].
      rewrite Z.sub_diag. reflexivity.
Qed.

(** X13. [broadcastUpdate()] never throws, whatever the store and the
    sockets do: every failure is caught and the call returns; with no
    socket registered it returns at once, without touching the database
    (the process state is unchanged). *)
Theorem broadcastUpdate_never_throws (w : World) :
  exists w',
    run broadcastUpdate w = (w', Ok tt)
    /\ (wsClients w = [] -> w' = w).
Proof.
  unfold broadcastUpdate. rewrite run_bind, run_perform. cbn [exec].
  destruct (wsClients w) as [|entry rest] eqn:Hcl.
  - exists w. split; reflexivity.
  - cbn [List.length Nat.eqb]. rewrite run_try_catch.
    match goal with |- context [run ?p w] => destruct (run p w) as [w' [ [] |e] ] end.
    + exists w'. split; [reflexivity|discriminate].
    + exists w'. split; [reflexivity|discriminate].
Qed.


(** ** wsHandlers.js *)






Lemma answers_mono {A : Type} (ws : nat) (p : Prog A) :
  forall (sent : list json) (post1 post2 : list json -> Result A -> Prop),
    (forall s r, post1 s r -> post2 s r) ->
    answers ws p sent post1 -> answers ws p sent post2.
Proof.
  induction p as [a|e|R eff k IH]; intros sent post1 post2 Himp; simpl; auto.
  destruct (reply_of ws eff) as [ [m r]|]; eauto.
Qed.

Lemma answers_bind {A B : Type} (ws : nat) (p : Prog A) (f : A -> Prog B) :
  forall (sent : list json) (post : list json -> Result B -> Prop),
    answers ws p sent
      (fun s r => match r with
                  | Ok a => answers ws (f a) s post
                  | Fail e => post s (Fail e)
                  end) ->
    answers ws (bind p f) sent post.
Proof.
  induction p as [a|e|R eff k IH]; intros sent post; simpl; auto.
  destruct (reply_of ws eff) as [ [m r]|]; eauto.
Qed.



Lemma answers_quiet {A : Type} (ws : nat) (p : Prog A) (sent : list json)
  (post : list json -> Result A -> Prop) :
  quiet ws p -> (forall a, post sent (Ok a)) -> answers ws p sent post.
Proof.
  intros Hq Hpost. apply (answers_mono ws p sent _ _) with (2 := Hq sent).
  intros s r [-> [a ->] ]. apply Hpost.
Qed.


Lemma answers_perform {R : Type} (ws : nat) (eff : Eff R) (sent : list json)
  (post : list json -> Result R -> Prop) :
  reply_of ws eff = None ->
  (forall r, possible eff r -> post sent r) ->
  answers ws (perform eff) sent post.
Proof.
  intros Hnone H. cbn [perform answers]. rewrite Hnone.
  intros [a|e] Hr; cbn; now apply H.
Qed.

Lemma quiet_fold_each {X S : Type} (ws : nat) (body : S -> X -> Prog S) :
  (forall s x, quiet ws (body s x)) ->
  forall l s, quiet ws (fold_each l s body).
Proof.
  intros Hbody l. induction l as [|x l IH]; intros s sent; cbn [fold_each].
  - cbn. split; [reflexivity|now exists s].
  - apply answers_bind, answers_quiet; [apply Hbody|].
    intros s'. apply IH.
Qed.











Lemma quiet_listConnectedClients (ws : nat) : quiet ws listConnectedClients.
Proof.
  unfold listConnectedClients. intros sent.
  apply answers_bind, answers_perform; [reflexivity|].
  intros [entries|e] Hr; [|discriminate Hr].
  apply quiet_fold_each. clear. intros clients entry sent.
  apply answers_bind, answers_perform; [reflexivity|].
  intros [state|e] Hr; [|discriminate Hr].
  cbn. split; [reflexivity|now eexists].
Qed.




(** ** chatService.js and chatRoutes.js *)

Lemma run_detached_broadcastUpdate (w : World) :
  ready w ->
  run (detached broadcastUpdate) w
  = (if Nat.eqb (List.length (wsClients w)) 0 then w
     else log_all (swept w) (broadcast_events w (update_message w)),
     Ok tt).
Proof.
  intros Hw. unfold detached.
  rewrite run_try_catch, (run_broadcastUpdate_ready w Hw). reflexivity.
Qed.

Lemma ready_chat_committed (w : World) (body : ChatBody) (content : Content) :
  ready w -> ready (chat_committed w body content).
Proof.
  intros Hw. unfold chat_committed. apply ready_log_all.
  now apply ready_with_tables.
Qed.

Lemma tables_chat_committed (w : World) (body : ChatBody) (content : Content) :
  ready w ->
  tables (chat_committed w body content)
  = fst (Sql.apply (clock w) (AddTokensUsed (chat_tokens body content))
           (fst (Sql.apply (clock w) (chat_insert body content) (tables w)))).
Proof.
  intros Hw. unfold chat_committed.
  change (tables (log_all ?x ?e)) with (tables x).
  now apply tables_with_tables.
Qed.

(** What an answered request does to a ready world. *)
Lemma run_handleNonStreamingChat_ready (w : World)
  (generateContent : JS.str -> Result Content) (stack : Error -> json)
  (body : ChatBody) (content : Content) :
  ready w ->
  body_message body <> [] ->
  model_answer generateContent (str_or (body_model body) config.defaultModel)
  = Ok content ->
  let w1 := chat_committed w body content in
  exists payload,
    run (handleNonStreamingChat true generateContent stack (Body body)) w
    = (if Nat.eqb (List.length (wsClients w)) 0 then w1
       else log_all (swept w1) (broadcast_events w1 (update_message w1)),
       Ok (JsonResponse 200 payload))
    /\ field "response" payload = Some (JStr (content_text content))
    /\ exists usage,
         field "usage" payload = Some usage
         /\ field "tokensAdded" usage = Some (JNum (chat_tokens body content))
         /\ field "totalTokensUsed" usage
            = Some (JNum (total_tokens_used (current_usage w1))).
Proof.
  intros Hw Hmsg Hanswer w1.
  unfold handleNonStreamingChat. open_request.
  destruct (body_message body) as [|c msg] eqn:Hbody; [contradiction|].
  rewrite <- Hbody. clear Hmsg.
  rewrite run_try_catch, run_bind. cbn [run].
  rewrite run_bind, run_try_catch.
  assert (Hgen :
    (let (w', r) :=
       run (of_result (generateContent
                         (str_or (body_model body) config.defaultModel))) w in
     match r with
     | Ok a => (w', Ok a)
     | Fail e =>
         run (if is_quota_error e
                 && JS.str_eqb (str_or (body_model body) config.defaultModel)
                      (JS.lit "gemini-1.5-pro")
              then of_result (generateContent (JS.lit "gemini-1.5-flash"))
              else Throw e) w'
     end) = (w, Ok content)).
  { unfold model_answer in Hanswer.
    destruct (generateContent (str_or (body_model body) config.defaultModel))
      as [c0|err]; cbn [of_result run].
    - now rewrite Hanswer.
    - destruct (is_quota_error err && _); [|discriminate].
      rewrite Hanswer. reflexivity. }
  rewrite Hgen. clear Hgen.
  rewrite run_bind.
  rewrite (run_addChatEntry_eq w _ _ _ _ _ Hw). cbv zeta.
  fold (chat_tokens body content). fold (chat_insert body content).
  fold (chat_committed w body content). fold w1.
  assert (Hw1 : ready w1) by now apply ready_chat_committed.
  rewrite run_bind, (run_getTokenUsage_ready w1 Hw1).
  fold (current_usage w1).
  rewrite run_bind, (run_detached_broadcastUpdate w1 Hw1).
  replace (wsClients w1) with (wsClients w)
    by (unfold w1, chat_committed; now destruct w).
  destruct (total_tokens_used (current_usage w1)
            >=? total_limit (current_usage w1));
    cbn [run]; eexists; (split; [reflexivity|]);
    (split; [reflexivity|]); eexists; repeat split; reflexivity.
Qed.

Lemma trace_swept (w : World) : trace (swept w) = trace w.
Proof. apply (swept_same (fun x => trace x = trace w)); reflexivity. Qed.

Lemma tables_swept (w : World) : tables (swept w) = tables w.
Proof. apply (swept_same (fun x => tables x = tables w)); reflexivity. Qed.

Lemma clock_swept (w : World) : clock (swept w) = clock w.
Proof. apply (swept_same (fun x => clock x = clock w)); reflexivity. Qed.

(** X15. The commit of [handleNonStreamingChat].  On a ready store, for
    a request with a message that the model answers, the handler answers
    200 with the text; it appends one history entry holding the message,
    the text and the requested model, adds the entry's token count (the
    model's count, or the estimate over message and text) to the counter,
    reports that count as [tokensAdded], and then sends the update to the
    sockets.  The limit is not consulted. *)
Theorem chat_commit (w : World) (generateContent : JS.str -> Result Content)
  (stack : Error -> json) (body : ChatBody) (content : Content) :
  ready w ->
  body_message body <> [] ->
  generateContent (str_or (body_model body) config.defaultModel) = Ok content ->
  let n := entry_tokenCount (body_message body) (content_text content)
             (extractGeminiTokenCount (Some (content_result content))) in
  exists w' payload usage row sends,
    run (handleNonStreamingChat true generateContent stack (Body body)) w
    = (w', Ok (JsonResponse 200 payload))
    /\ chat_history (tables w') = chat_history (tables w) ++ [row]
    /\ user_input row = body_message body
    /\ response row = content_text content
    /\ model row = str_or (body_model body) config.defaultModel
    /\ gemini_token_count row = n
    /\ usage_stats (tables w') = map (Sql.add_tokens n) (usage_stats (tables w))
    /\ field "response" payload = Some (JStr (content_text content))
    /\ field "usage" payload = Some usage
    /\ field "tokensAdded" usage = Some (JNum n)
    /\ trace w'
       = trace w ++ [EvRun (chat_insert body content) (chat_id row);
                     EvRun (AddTokensUsed n) 0] ++ sends
    /\ sends = broadcast_events w (update_message w').
Proof.
  intros Hw Hmsg Hgen n.
  assert (Hanswer : model_answer generateContent
                      (str_or (body_model body) config.defaultModel)
                    = Ok content)
    by (unfold model_answer; now rewrite Hgen).
  destruct (run_handleNonStreamingChat_ready w generateContent stack body
              content Hw Hmsg Hanswer)
    as (payload & Hrun & Hresp & usage & Husage & Hadded & _).
  cbv zeta in Hrun.
  set (w1 := chat_committed w body content) in *.
  pose proof (tables_chat_committed w body content Hw) as Ht1. fold w1 in Ht1.
  set (w' := if Nat.eqb (List.length (wsClients w)) 0 then w1
             else log_all (swept w1) (broadcast_events w1 (update_message w1)))
    in *.
  assert (Ht : tables w' = tables w1).
  { unfold w'. destruct (Nat.eqb _ 0); [reflexivity|].
    change (tables (log_all ?x ?e)) with (tables x). apply tables_swept. }
  assert (Hc : clock w' = clock w1).
  { unfold w'. destruct (Nat.eqb _ 0); [reflexivity|].
    change (clock (log_all ?x ?e)) with (clock x). apply clock_swept. }
  assert (Hev : broadcast_events w1 (update_message w1)
                = broadcast_events w (update_message w')).
  { rewrite (update_message_ext w' w1 Ht Hc). reflexivity. }
  eexists. exists payload, usage. eexists. eexists.
  split; [exact Hrun|]. rewrite Ht, Ht1.
  cbn [Sql.apply fst chat_history usage_stats Sql.set_usage_stats].
  split; [reflexivity|]. cbn [user_input response model gemini_token_count].
  split; [reflexivity|]. split; [reflexivity|]. split; [reflexivity|].
  split; [reflexivity|]. split; [reflexivity|]. split; [exact Hresp|].
  split; [exact Husage|]. split; [exact Hadded|]. split; [|reflexivity].
  unfold w'. destruct (Nat.eqb (List.length (wsClients w)) 0) eqn:Hn.
  - apply Nat.eqb_eq in Hn.
    assert (Hnil : wsClients w = []) by (destruct (wsClients w); easy).
    unfold broadcast_events at 1. rewrite Hnil. cbn [filter map].
    rewrite app_nil_r. reflexivity.
  - change (trace (log_all ?x ?e)) with (trace x ++ e).
    rewrite trace_swept, Hev. unfold w1, chat_committed.
    change (trace (log_all ?x ?e)) with (trace x ++ e).
    rewrite <- app_assoc. reflexivity.
Qed.

Lemma chat_commit_witness :
  exists w' payload usage row sends,
    run (handleNonStreamingChat true (fun _ => Ok hello_content) no_stack
           (Body hello_body)) three_clients_world
    = (w', Ok (JsonResponse 200 payload))
    /\ chat_history (tables w')
       = chat_history (tables three_clients_world) ++ [row]
    /\ user_input row = body_message hello_body
    /\ response row = content_text hello_content
    /\ model row = str_or (body_model hello_body) config.defaultModel
    /\ gemini_token_count row = 4
    /\ usage_stats (tables w')
       = map (Sql.add_tokens 4) (usage_stats (tables three_clients_world))
    /\ field "response" payload = Some (JStr (content_text hello_content))
    /\ field "usage" payload = Some usage
    /\ field "tokensAdded" usage = Some (JNum 4)
    /\ trace w'
       = trace three_clients_world
         ++ [EvRun (chat_insert hello_body hello_content) (chat_id row);
             EvRun (AddTokensUsed 4) 0] ++ sends
    /\ sends = broadcast_events three_clients_world (update_message w').
Proof.
  apply (chat_commit three_clients_world (fun _ => Ok hello_content) no_stack
           hello_body hello_content).
  - repeat split; reflexivity.
  - discriminate.
  - reflexivity.
Defined.

(** X16. The fallback of [handleNonStreamingChat].  When the model API
    refuses the request with a message that contains '429 Too Many
    Requests' and the requested model is 'gemini-1.5-pro', the request is
    sent again to 'gemini-1.5-flash', and that answer is returned and
    committed; the history entry still names 'gemini-1.5-pro'.  For any
    other refusal, or any other requested model, the handler answers 500
    with the error's message and leaves the process state untouched. *)
Theorem quota_fallback (w : World)
  (generateContent : JS.str -> Result Content) (stack : Error -> json)
  (body : ChatBody) (err : Error) :
  body_message body <> [] ->
  generateContent (str_or (body_model body) config.defaultModel) = Fail err ->
  (is_quota_error err = true ->
   body_model body = JS.lit "gemini-1.5-pro" ->
   ready w ->
   forall content,
     generateContent (JS.lit "gemini-1.5-flash") = Ok content ->
     exists w' payload row,
       run (handleNonStreamingChat true generateContent stack (Body body)) w
       = (w', Ok (JsonResponse 200 payload))
       /\ field "response" payload = Some (JStr (content_text content))
       /\ chat_history (tables w') = chat_history (tables w) ++ [row]
       /\ response row = content_text content
       /\ model row = JS.lit "gemini-1.5-pro")
  /\ (is_quota_error err
      && JS.str_eqb (str_or (body_model body) config.defaultModel)
           (JS.lit "gemini-1.5-pro") = false ->
      exists payload,
        run (handleNonStreamingChat true generateContent stack (Body body)) w
        = (w, Ok (JsonResponse 500 payload))
        /\ field "details" payload = Some (error_message err)).
Proof.
  intros Hmsg Hgen. split.
  - intros Hquota Hmodel Hw content Hflash.
    assert (Hname : str_or (body_model body) config.defaultModel
                    = JS.lit "gemini-1.5-pro") by now rewrite Hmodel.
    assert (Hanswer : model_answer generateContent
                        (str_or (body_model body) config.defaultModel)
                      = Ok content).
    { unfold model_answer. rewrite Hgen, Hquota, Hname. exact Hflash. }
    destruct (run_handleNonStreamingChat_ready w generateContent stack body
                content Hw Hmsg Hanswer)
      as (payload & Hrun & Hresp & _).
    cbv zeta in Hrun. eexists. exists payload. eexists.
    split; [exact Hrun|]. split; [exact Hresp|].
    assert (Ht : forall x, tables (if Nat.eqb (List.length (wsClients w)) 0
                                   then x
                                   else log_all (swept x)
                                          (broadcast_events x
                                             (update_message x)))
                           = tables x).
    { intros x. destruct (Nat.eqb _ 0); [reflexivity|].
      change (tables (log_all ?y ?e)) with (tables y). apply tables_swept. }
    rewrite Ht, (tables_chat_committed w body content Hw).
    unfold chat_insert.
    cbn [Sql.apply fst chat_history Sql.set_usage_stats].
    split; [reflexivity|]. cbn [response model].
    split; [reflexivity|exact Hname].
  - intros Hno. unfold handleNonStreamingChat. open_request.
    destruct (body_message body) as [|c msg]; [contradiction|].
    rewrite run_try_catch, run_bind. cbn [run].
    rewrite run_bind, run_try_catch, Hgen. cbn [of_result run].
    rewrite Hno. cbn [run]. eexists. split; reflexivity.
Qed.

Lemma quota_fallback_witness :
  exists w' payload row,
    run (handleNonStreamingChat true pro_out_of_quota no_stack
           (Body {| body_message := JS.lit "hello";
                    body_model := JS.lit "gemini-1.5-pro";
                    body_options := no_options; body_format := [] |}))
        started_world
    = (w', Ok (JsonResponse 200 payload))
    /\ field "response" payload = Some (JStr (content_text hello_content))
    /\ chat_history (tables w') = chat_history (tables started_world) ++ [row]
    /\ response row = content_text hello_content
    /\ model row = JS.lit "gemini-1.5-pro".
Proof.
  apply (proj1 (quota_fallback started_world pro_out_of_quota no_stack
                  {| body_message := JS.lit "hello";
                     body_model := JS.lit "gemini-1.5-pro";
                     body_options := no_options; body_format := [] |}
                  (UpstreamError
                     "[429 Too Many Requests] Resource has been exhausted")
                  ltac:(discriminate) eq_refl)).
  - reflexivity.
  - reflexivity.
  - repeat split; reflexivity.
  - reflexivity.
Defined.

(** X17. The limit gate of the chat endpoints.  Once the counter has
    reached the limit, [POST /api/chat] and [POST /api/stream] answer
    with the 'Token limit exceeded' object and change nothing; the
    deprecated [POST /api/chat/complete] is not gated and commits the
    entry and its tokens all the same.  Below the limit the two gated
    endpoints behave as their handlers, whatever the size of the request:
    the gate looks at the counter before the request only. *)
Theorem limit_gate (w : World) (generateContent : JS.str -> Result Content)
  (stack : Error -> json) (body : ChatBody) (gen : Generation)
  (row : UsageRow) (rest : list UsageRow) :
  ready w ->
  usage_stats (tables w) = row :: rest ->
  (total_limit row <= total_tokens_used row ->
   run (apiChat true generateContent stack (Body body)) w
   = (w, Ok (limit_exceeded_response row))
   /\ run (apiStream true (Body body) gen) w
      = (w, Ok (limit_exceeded_response row))
   /\ forall content,
        body_message body <> [] ->
        generateContent (str_or (body_model body) config.defaultModel)
        = Ok content ->
        exists w' payload,
          run (apiChatComplete true generateContent stack (Body body)) w
          = (w', Ok (JsonResponse 200 payload))
          /\ usage_stats (tables w')
             = map (Sql.add_tokens (chat_tokens body content)) (row :: rest))
  /\ (total_tokens_used row < total_limit row ->
      run (apiChat true generateContent stack (Body body)) w
      = run (handleNonStreamingChat true generateContent stack (Body body)) w
      /\ run (apiStream true (Body body) gen) w
         = run (handleStreamingChat (Body body) gen) w).
Proof.
  intros Hw Hrow.
  pose proof (run_isTokenLimitExceeded_ready w row rest Hw Hrow) as Hex.
  pose proof (run_getTokenUsage_ready w Hw) as Hus. rewrite Hrow in Hus.
  cbn [hd_error] in Hus.
  split.
  - intros Hle. unfold apiChat, apiStream. cbn [negb].
    rewrite !run_bind, Hex.
    replace (total_tokens_used row >=? total_limit row) with true
      by (symmetry; apply Z.geb_le; lia).
    rewrite !run_bind, Hus. split; [reflexivity|]. split; [reflexivity|].
    intros content Hmsg Hgen.
    assert (Hanswer : model_answer generateContent
                        (str_or (body_model body) config.defaultModel)
                      = Ok content)
      by (unfold model_answer; now rewrite Hgen).
    destruct (run_handleNonStreamingChat_ready w generateContent stack body
                content Hw Hmsg Hanswer)
      as (payload & Hrun & _).
    cbv zeta in Hrun. eexists. exists payload.
    split; [exact Hrun|].
    assert (Ht : forall x, tables (if Nat.eqb (List.length (wsClients w)) 0
                                   then x
                                   else log_all (swept x)
                                          (broadcast_events x
                                             (update_message x)))
                           = tables x).
    { intros x. destruct (Nat.eqb _ 0); [reflexivity|].
      change (tables (log_all ?y ?e)) with (tables y). apply tables_swept. }
    rewrite Ht, (tables_chat_committed w body content Hw).
    unfold chat_insert.
    cbn [Sql.apply fst usage_stats Sql.set_usage_stats].
    now rewrite Hrow.
  - intros Hlt. unfold apiChat, apiStream. cbn [negb].
    rewrite !run_bind, Hex.
    replace (total_tokens_used row >=? total_limit row) with false
      by (symmetry; rewrite Z.geb_leb; apply Z.leb_gt; lia).
    split; reflexivity.
Qed.

Lemma limit_gate_witness :
  run (apiChat true (fun _ => Ok hello_content) no_stack (Body hello_body))
      over_limit_world
  = (over_limit_world,
     Ok (limit_exceeded_response
           {| total_tokens_used := 15000; total_limit := 10000 |}))
  /\ run (apiStream true (Body hello_body) hello_generation) over_limit_world
     = (over_limit_world,
        Ok (limit_exceeded_response
              {| total_tokens_used := 15000; total_limit := 10000 |}))
  /\ exists w' payload,
       run (apiChatComplete true (fun _ => Ok hello_content) no_stack
              (Body hello_body)) over_limit_world
       = (w', Ok (JsonResponse 200 payload))
       /\ usage_stats (tables w')
          = [{| total_tokens_used := 15004; total_limit := 10000 |}].
Proof.
  destruct (proj1 (limit_gate over_limit_world (fun _ => Ok hello_content)
                     no_stack hello_body hello_generation
                     {| total_tokens_used := 15000; total_limit := 10000 |} []
                     ltac:(repeat split; reflexivity) eq_refl)
              ltac:(simpl; lia))
    as (Hchat & Hstream & Hcomplete).
  split; [exact Hchat|]. split; [exact Hstream|].
  exact (Hcomplete hello_content ltac:(discriminate) eq_refl).
Defined.



(** ** streamService.js *)

Lemma streamed_text_app (a b : list Event) :
  streamed_text (a ++ b) = streamed_text a ++ streamed_text b.
Proof. unfold streamed_text. apply flat_map_app. Qed.

Lemma streamed_text_chunks (json_format : bool) (chunks : list JS.str) :
  streamed_text (chunk_events json_format chunks) = List.concat chunks.
Proof.
  unfold streamed_text, chunk_events.
  induction chunks as [|text chunks IH]; [reflexivity|].
  cbn [flat_map List.concat]. rewrite flat_map_app, IH. f_equal.
  destruct text as [|c text]; [reflexivity|].
  destruct json_format; cbn; now rewrite app_nil_r.
Qed.

Lemma streamed_text_sends (w : World) (data : json) :
  streamed_text (broadcast_events w data) = [].
Proof.
  unfold broadcast_events, streamed_text.
  induction (filter (deliverable w) (wsClients w)); [reflexivity|assumption].
Qed.

Lemma streamed_text_done (w : World) (body : ChatBody) (gen : Generation) :
  streamed_text (done_events w body gen) = [].
Proof. unfold done_events. destruct (wants_json body); reflexivity. Qed.

(** X19. What a client reads from a completed stream is what the
    history keeps: in both formats the texts enqueued on the response
    stream, concatenated in order, are the model's chunks concatenated,
    and that text is the [response] of the entry [handleStreamingChat]
    appends for the request's message. *)
Theorem streamed_text_is_stored (w : World) (body : ChatBody)
  (gen : Generation) :
  ready w ->
  body_message body <> [] ->
  stream_error gen = None ->
  exists w' content_type evs row,
    run (handleStreamingChat (Body body) gen) w
    = (w', Ok (StreamResponse content_type))
    /\ trace w' = trace w ++ evs
    /\ chat_history (tables w') = chat_history (tables w) ++ [row]
    /\ user_input row = body_message body
    /\ response row = streamed_text evs
    /\ streamed_text evs = List.concat (chunks gen).
Proof.
  intros Hw Hmsg Herr.
  pose proof (run_handleStreamingChat_ready w body gen Hw Hmsg Herr) as Hrun.
  cbv zeta in Hrun.
  set (w2 := after_close w body gen) in *.
  set (w3 := if Nat.eqb (List.length (wsClients w)) 0 then w2 else swept w2)
    in *.
  assert (Htr : trace w3 = trace w2)
    by (unfold w3; destruct (Nat.eqb _ 0); [reflexivity|apply trace_swept]).
  assert (Htb : tables w3 = tables w2)
    by (unfold w3; destruct (Nat.eqb _ 0); [reflexivity|apply tables_swept]).
  pose proof (tables_after_close w body gen Hw) as Ht2.
  pose proof (trace_after_close w body gen) as Htr2.
  cbv zeta in Ht2, Htr2. fold w2 in Ht2, Htr2.
  eexists. eexists. eexists. eexists. split; [exact Hrun|].
  change (tables (log_all w3 ?e)) with (tables w3).
  change (trace (log_all w3 ?e)) with (trace w3 ++ e).
  rewrite Htb, Htr, Ht2, Htr2. rewrite <- !app_assoc.
  split; [reflexivity|].
  unfold insert_entry at 1.
  cbn [Sql.apply fst chat_history Sql.set_usage_stats].
  split; [reflexivity|]. cbn [user_input response].
  split; [reflexivity|].
  assert (Htext : streamed_text
                    (chunk_events (wants_json body) (chunks gen) ++
                     [EvRun (insert_entry body gen (generation_tokens body gen))
                        (Sql.next_chat_id (tables w));
                      EvRun (AddTokensUsed (generation_tokens body gen)) 0] ++
                     done_events w body gen ++
                     [EvClose] ++ broadcast_events w (update_message w2))
                  = List.concat (chunks gen)).
  { rewrite !streamed_text_app, streamed_text_chunks, streamed_text_done,
      streamed_text_sends. cbn. now rewrite app_nil_r. }
  split; [now rewrite Htext|exact Htext].
Qed.

Lemma streamed_text_is_stored_witness :
  exists w' content_type evs row,
    run (handleStreamingChat (Body hello_body) hello_generation) three_clients_world
    = (w', Ok (StreamResponse content_type))
    /\ trace w' = trace three_clients_world ++ evs
    /\ chat_history (tables w')
       = chat_history (tables three_clients_world) ++ [row]
    /\ user_input row = body_message hello_body
    /\ response row = streamed_text evs
    /\ streamed_text evs = List.concat (chunks hello_generation).
Proof.
  apply (streamed_text_is_stored three_clients_world hello_body
           hello_generation).
  - repeat split; reflexivity.
  - discriminate.
  - reflexivity.
Defined.

(** X20. A stream that breaks commits nothing.  When the model's stream
    fails after some chunks, in every state of the process, the chunks
    received so far have been sent to the client, the stream is ended
    with the error, and nothing else happens: no statement is run, no
    entry is stored, no token is counted, nothing is broadcast.  A
    request without a message is answered 400 without any effect. *)
Theorem broken_stream_commits_nothing (w : World) (body : ChatBody)
  (gen : Generation) (error : Error) :
  (body_message body = [] ->
   exists payload,
     run (handleStreamingChat (Body body) gen) w = (w, Ok (JsonResponse 400 payload)))
  /\ (body_message body <> [] ->
      stream_error gen = Some error ->
      exists w' content_type evs,
        run (handleStreamingChat (Body body) gen) w
        = (w', Ok (StreamResponse content_type))
        /\ w' = log_all w evs
        /\ streamed_text evs = List.concat (chunks gen)
        /\ last evs EvClose = EvError error
        /\ Forall (fun ev => match ev with
                             | EvEnqueue _ | EvError _ => True
                             | _ => False
                             end) evs).
Proof.
  split.
  - intros Hmsg. unfold handleStreamingChat. open_request. rewrite Hmsg.
    eexists. reflexivity.
  - intros Hmsg Herr. unfold handleStreamingChat. open_request. fold (wants_json body).
    destruct (body_message body) as [|c0 msg] eqn:Hbody; [contradiction|].
    rewrite run_bind, run_try_catch, run_bind, run_chunk_loop.
    rewrite Herr. cbn [app]. rewrite run_bind. cbn [run].
    rewrite run_bind.
    exists (log_all w (chunk_events (wants_json body) (chunks gen)
                       ++ (if wants_json body
                           then [EvEnqueue (error_item error)] else [])
                       ++ [EvError error])).
    exists (if wants_json body then "application/x-ndjson"
            else "text/plain")%string.
    eexists. split; [|split; [reflexivity|] ].
    + destruct (wants_json body); cbn; unfold log, log_all; cbn;
        rewrite <- ?app_assoc; reflexivity.
    + split; [|split].
      * rewrite !streamed_text_app, streamed_text_chunks.
        destruct (wants_json body); cbn; now rewrite app_nil_r.
      * rewrite app_assoc. apply last_last.
      * apply Forall_app. split.
        -- unfold chunk_events. apply Forall_flat_map.
           apply Forall_forall. intros [|c text] _; repeat constructor.
        -- destruct (wants_json body); repeat constructor.
Qed.

Lemma broken_stream_commits_nothing_witness :
  exists w' content_type evs,
    run (handleStreamingChat (Body hello_body) broken_generation) used_world
    = (w', Ok (StreamResponse content_type))
    /\ w' = log_all used_world evs
    /\ streamed_text evs = List.concat (chunks broken_generation)
    /\ last evs EvClose = EvError (UpstreamError "fetch failed")
    /\ Forall (fun ev => match ev with
                         | EvEnqueue _ | EvError _ => True
                         | _ => False
                         end) evs.
Proof.
  apply (proj2 (broken_stream_commits_nothing used_world hello_body
                  broken_generation (UpstreamError "fetch failed")));
    [discriminate|reflexivity].
Defined.

(** ** Queries *)

Lemma same_tables_refl (w : World) : same_tables w w.
Proof. repeat split. Qed.

Lemma same_tables_trans (w1 w2 w3 : World) :
  same_tables w1 w2 -> same_tables w2 w3 -> same_tables w1 w3.
Proof.
  intros (H1 & H2 & H3) (H4 & H5 & H6). repeat split; congruence.
Qed.

Lemma exec_reads {R : Type} (eff : Eff R) (w : World) :
  reads eff = true -> same_tables w (fst (exec eff w)).
Proof.
  destruct eff; cbn; intros H; try discriminate;
    try (repeat split; reflexivity).
  - unfold Sql.pop_fault. destruct (faults (store w)) as [| [|] fs];
      repeat split.
  - destruct (send_throws w ws); repeat split.
Qed.

Lemma reads_only_run {A : Type} (p : Prog A) :
  forall w, db w = true -> reads_only p -> same_tables w (fst (run p w)).
Proof.
  induction p as [a|e|R eff k IH]; intros w Hdb Hp;
    try apply same_tables_refl.
  cbn [run]. destruct Hp as [Hreads Hk].
  pose proof (exec_reads eff w Hreads) as Hsame.
  destruct (handle_open eff) as [r0|] eqn:Hopen.
  - destruct eff; try discriminate. cbn in Hopen. injection Hopen as <-.
    cbn [exec] in *. rewrite Hdb. now apply IH.
  - destruct (exec eff w) as [w1 r]. cbn [fst] in Hsame.
    apply (same_tables_trans w w1); [exact Hsame|].
    apply IH; [|apply Hk]. destruct Hsame as [Hd _]. congruence.
Qed.

Lemma reads_only_bind {A B : Type} (p : Prog A) (f : A -> Prog B) :
  reads_only p -> (forall a, reads_only (f a)) -> reads_only (bind p f).
Proof.
  intros Hp Hf. induction p as [a|e|R eff k IH]; cbn in *; auto.
  destruct Hp as [Hreads Hk]. split; [exact Hreads|].
  destruct (handle_open eff); auto.
Qed.

Lemma reads_only_try_catch {A : Type} (p : Prog A) (h : Error -> Prog A) :
  reads_only p -> (forall e, reads_only (h e)) -> reads_only (try_catch p h).
Proof.
  intros Hp Hh. induction p as [a|e|R eff k IH]; cbn in *; auto.
  destruct Hp as [Hreads Hk]. split; [exact Hreads|].
  destruct (handle_open eff); auto.
Qed.

Lemma reads_only_perform {R : Type} (eff : Eff R) :
  reads eff = true -> reads_only (perform eff).
Proof.
  intros H. cbn. split; [exact H|].
  destruct (handle_open eff) as [ [a|e]|]; [exact I|exact I|].
  now intros [a|e].
Qed.

Lemma reads_only_fold_each {X S : Type} (l : list X)
  (body : S -> X -> Prog S) :
  (forall s x, reads_only (body s x)) ->
  forall s, reads_only (fold_each l s body).
Proof.
  intros H. induction l as [|x l IH]; intros s; cbn; auto.
  apply reads_only_bind; auto.
Qed.

Lemma reads_only_for_each {X : Type} (l : list X) (body : X -> Prog unit) :
  (forall x, reads_only (body x)) -> reads_only (for_each l body).
Proof.
  intros H. induction l as [|x l IH]; cbn; auto.
  apply reads_only_bind; auto.
Qed.

Lemma reads_only_getDb : reads_only getDb.
Proof. cbn. auto. Qed.

(** Proves [reads_only p] by following the structure of [p]. *)
Ltac reads_tac :=
  repeat first
    [ exact I
    | apply reads_only_getDb
    | apply reads_only_perform; reflexivity
    | apply reads_only_try_catch; [|intros ?]
    | apply reads_only_bind; [|intros ?]
    | apply reads_only_fold_each; intros ? ?
    | apply reads_only_for_each; intros ?
    | match goal with
      | |- reads_only (if ?b then _ else _) => destruct b
      | |- reads_only (match ?x with _ => _ end) => destruct x
      end ].

Lemma reads_only_getTokenUsage : reads_only getTokenUsage.
Proof. unfold getTokenUsage, rethrow. reads_tac. Qed.

Lemma reads_only_getRecentChats (limit : Z) : reads_only (getRecentChats limit).
Proof. unfold getRecentChats, rethrow. reads_tac. Qed.

Lemma reads_only_broadcastToAll (data : json) : reads_only (broadcastToAll data).
Proof. unfold broadcastToAll, cleanupClosedConnections. reads_tac. Qed.

Lemma reads_only_broadcastUpdate : reads_only broadcastUpdate.
Proof.
  unfold broadcastUpdate.
  apply reads_only_bind; [reads_tac|]. intros clients.
  destruct (Nat.eqb _ 0); [exact I|].
  apply reads_only_try_catch; [|intros; exact I].
  apply reads_only_bind; [apply reads_only_getTokenUsage|]. intros usage.
  apply reads_only_bind; [apply reads_only_getRecentChats|]. intros chats.
  apply reads_only_bind; [reads_tac|]. intros now.
  apply reads_only_bind; [apply reads_only_broadcastToAll|]. intros; exact I.
Qed.

(** X21. Queries do not write.  With the database open, whatever the
    store does (any fault schedule, a transaction pending or not),
    [getTokenUsage], [isTokenLimitExceeded], [getRecentChats],
    [GET /api/usage], the socket handler of 'requestUpdate' and
    [broadcastUpdate] leave the handle, the committed tables and the
    uncommitted ones exactly as they were. *)
Theorem queries_do_not_write (w : World) (ws : nat)
  (clientIp clientId : JS.str) (limit : Z) :
  db w = true ->
  same_tables w (fst (run getTokenUsage w))
  /\ same_tables w (fst (run isTokenLimitExceeded w))
  /\ same_tables w (fst (run (getRecentChats limit) w))
  /\ same_tables w (fst (run apiUsage w))
  /\ same_tables w (fst (run (handleRequestUpdate ws clientIp clientId) w))
  /\ same_tables w (fst (run broadcastUpdate w)).
Proof.
  intros Hdb.
  split; [|split; [|split; [|split; [|split] ] ] ];
    apply reads_only_run; try exact Hdb.
  - apply reads_only_getTokenUsage.
  - unfold isTokenLimitExceeded, rethrow.
    apply reads_only_try_catch; [|intros; exact I].
    apply reads_only_bind; [apply reads_only_getTokenUsage|]. intros; exact I.
  - apply reads_only_getRecentChats.
  - unfold apiUsage.
    apply reads_only_try_catch; [|intros; exact I].
    apply reads_only_bind; [apply reads_only_getTokenUsage|].
    intros usage. destruct (_ >=? _); exact I.
  - unfold handleRequestUpdate.
    apply reads_only_try_catch; [|intros; reads_tac].
    apply reads_only_bind; [apply reads_only_getTokenUsage|]. intros usage.
    apply reads_only_bind; [apply reads_only_getRecentChats|]. intros chats.
    reads_tac.
  - apply reads_only_broadcastUpdate.
Qed.

Lemma queries_do_not_write_witness :
  let w := failing_at 0 busy_world in
  same_tables w (fst (run getTokenUsage w))
  /\ same_tables w (fst (run isTokenLimitExceeded w))
  /\ same_tables w (fst (run (getRecentChats 5) w))
  /\ same_tables w (fst (run apiUsage w))
  /\ same_tables w
       (fst (run (handleRequestUpdate 0%nat (JS.lit "127.0.0.1") (JS.lit "A"))
               w))
  /\ same_tables w (fst (run broadcastUpdate w)).
Proof.
  intros w.
  apply (queries_do_not_write w 0%nat (JS.lit "127.0.0.1") (JS.lit "A") 5).
  reflexivity.
Defined.

(** ** adminService.js and adminRoutes.js *)

Lemma run_extendTokenLimit_eq (w : World) (amount maxAllowed : Z)
  (row : UsageRow) (rest : list UsageRow) :
  0 < amount <= maxAllowed ->
  ready w ->
  usage_stats (tables w) = row :: rest ->
  run (extendTokenLimit (JS.Int amount) maxAllowed) w
  = (log (with_tables w
            (fst (Sql.apply (clock w)
                    (SetTotalLimit (total_limit row + amount)) (tables w))))
         (EvRun (SetTotalLimit (total_limit row + amount)) 0),
     Ok {| success := true;
           previousLimit := total_limit row;
           newLimit := total_limit row + amount;
           amountAdded := amount;
           currentUsage := total_tokens_used row |}).
Proof.
  intros [Hpos Hmax] Hw Hrow. unfold extendTokenLimit.
  rewrite run_rethrow.
  destruct (amount <=? 0) eqn:H0; [apply Z.leb_le in H0; lia|].
  destruct (amount >? maxAllowed) eqn:H1; [apply Z.gtb_lt in H1; lia|].
  expose_ready w Hw. destruct t as [us ch tc sq]. simpl in Hrow. subst us.
  reflexivity.
Qed.

Lemma tables_broadcast_done (w : World) :
  tables (broadcast_done w) = tables w.
Proof.
  unfold broadcast_done. destruct (Nat.eqb _ 0); [reflexivity|].
  change (tables (log_all ?x ?e)) with (tables x). apply tables_swept.
Qed.

Lemma clock_broadcast_done (w : World) :
  clock (broadcast_done w) = clock w.
Proof.
  unfold broadcast_done. destruct (Nat.eqb _ 0); [reflexivity|].
  change (clock (log_all ?x ?e)) with (clock x). apply clock_swept.
Qed.

Lemma trace_broadcast_done (w : World) :
  trace (broadcast_done w)
  = trace w ++ broadcast_events w (update_message (broadcast_done w)).
Proof.
  rewrite (update_message_ext (broadcast_done w) w
             (tables_broadcast_done w) (clock_broadcast_done w)).
  unfold broadcast_done.
  destruct (Nat.eqb (List.length (wsClients w)) 0) eqn:Hn.
  - now rewrite (broadcast_events_empty w _ Hn), app_nil_r.
  - change (trace (log_all ?x ?e)) with (trace x ++ e).
    now rewrite trace_swept.
Qed.

(** What [parseInt] makes of the strings amounts convert to. *)
Lemma parseInt_examples :
  JS.parseInt (JS.lit "5000") = JS.Int 5000
  /\ JS.parseInt (JS.lit "1e+21") = JS.Int 1
  /\ JS.parseInt (JS.lit "12.9") = JS.Int 12
  /\ JS.parseInt (JS.lit "  42 tokens") = JS.Int 42
  /\ JS.parseInt (JS.lit "0x10") = JS.Int 16
  /\ JS.parseInt (JS.lit "+7") = JS.Int 7
  /\ JS.parseInt (JS.lit "-3") = JS.Int (-3)
  /\ JS.parseInt (JS.lit "0.5") = JS.Int 0
  /\ JS.parseInt (JS.lit "") = JS.NaN
  /\ JS.parseInt (JS.lit "ten") = JS.NaN
  /\ JS.parseInt (JS.lit "true") = JS.NaN
  /\ JS.parseInt (JS.lit "null") = JS.NaN
  /\ JS.parseInt (JS.lit "undefined") = JS.NaN
  /\ JS.parseInt (JS.lit "[object Object]") = JS.NaN.
Proof. repeat split; vm_compute; reflexivity. Qed.

(** X22. [POST /api/admin/extend-limit].  [parseInt] reads the amount
    from the string the [amount] field converts to ([text]).  When it
    reads an integer in [1, maxExtensionAmount], that integer is added to
    the limit of a ready store: the answer is 200 with the limit before
    and after and the usage, the counter and the history are untouched,
    and after the UPDATE every deliverable socket is sent an update
    showing the new limit; so it is for the amount [1e21], whose string
    ["1e+21"] reads as 1, and for ["12.9"], which reads as 12.  When it
    reads no integer (a missing amount, a text without leading digits),
    an integer [<= 0] or one above the maximum, the answer is 400 with
    the process state unchanged.  A body that is not JSON, the body
    [null] and an amount without a string conversion are answered 500
    with the state unchanged.  In every state and for every body the
    handler answers 200, 400 or 500 and does not throw. *)
Theorem admin_extend_endpoint (w : World) (text : JS.str) :
  (forall n row rest,
     JS.parseInt text = JS.Int n ->
     0 < n <= config.maxExtensionAmount ->
     ready w ->
     usage_stats (tables w) = row :: rest ->
     exists w' payload update,
       run (apiAdminExtendLimit (ExtendAmount text)) w
       = (w', Ok (JsonResponse 200 payload))
       /\ usage_stats (tables w')
          = map (Sql.set_limit (total_limit row + n)) (row :: rest)
       /\ chat_history (tables w') = chat_history (tables w)
       /\ field "previousLimit" payload = Some (JNum (total_limit row))
       /\ field "newLimit" payload = Some (JNum (total_limit row + n))
       /\ field "currentUsage" payload = Some (JNum (total_tokens_used row))
       /\ trace w'
          = trace w ++ [EvRun (SetTotalLimit (total_limit row + n)) 0]
            ++ broadcast_events w update
       /\ field "usage" update
          = Some (usage_object {| total_tokens_used := total_tokens_used row;
                                  total_limit := total_limit row + n |}))
  /\ ((JS.parseInt text = JS.NaN
       \/ exists n, JS.parseInt text = JS.Int n
                    /\ (n <= 0 \/ config.maxExtensionAmount < n)) ->
      exists payload,
        run (apiAdminExtendLimit (ExtendAmount text)) w
        = (w, Ok (JsonResponse 400 payload)))
  /\ (forall body,
        (exists error, body = ExtendInvalidJson error)
        \/ body = ExtendNull \/ body = ExtendUnconvertible ->
        exists payload,
          run (apiAdminExtendLimit body) w = (w, Ok (JsonResponse 500 payload))
          /\ field "error" payload
             = Some (jstr "Failed to extend token limit"))
  /\ (forall body, exists w' status payload,
        run (apiAdminExtendLimit body) w
        = (w', Ok (JsonResponse status payload))
        /\ (status = 200 \/ status = 400 \/ status = 500))
  /\ JS.parseInt (JS.lit "5000") = JS.Int 5000
  /\ JS.parseInt (JS.lit "1e+21") = JS.Int 1
  /\ JS.parseInt (JS.lit "12.9") = JS.Int 12
  /\ JS.parseInt (JS.lit "undefined") = JS.NaN.
Proof.
  split; [|split; [|split; [|split]]].
  - intros n row rest Hparse [Hpos Hmax] Hw Hrow.
    unfold apiAdminExtendLimit, amount_text. cbn [bind]. cbv zeta.
    rewrite Hparse.
    replace ((n =? 0) || (n <=? 0)) with false
      by (symmetry; apply orb_false_intro;
          [apply Z.eqb_neq|apply Z.leb_gt]; lia).
    replace (n >? config.maxExtensionAmount) with false
      by (symmetry; rewrite Z.gtb_ltb; apply Z.ltb_ge; lia).
    rewrite run_try_catch, run_bind.
    unfold adminService.extendTokenLimit. rewrite run_rethrow.
    replace (n <=? 0) with false by (symmetry; apply Z.leb_gt; lia).
    replace (n >? config.maxExtensionAmount) with false
      by (symmetry; rewrite Z.gtb_ltb; apply Z.ltb_ge; lia).
    rewrite run_bind,
      (run_extendTokenLimit_eq w n config.maxExtensionAmount row rest
         (conj Hpos Hmax) Hw Hrow).
    set (w1 := log (with_tables w _) _).
    assert (Hw1 : ready w1)
      by (unfold w1; expose_ready w Hw; repeat split; reflexivity).
    assert (Ht1 : tables w1
                  = fst (Sql.apply (clock w)
                           (SetTotalLimit (total_limit row + n)) (tables w))).
    { unfold w1. change (tables (log ?x ?e)) with (tables x).
      now apply tables_with_tables. }
    rewrite run_bind, (run_detached_broadcastUpdate w1 Hw1).
    fold (broadcast_done w1). cbn [run].
    eexists. eexists. exists (update_message (broadcast_done w1)).
    split; [reflexivity|].
    rewrite tables_broadcast_done, Ht1, trace_broadcast_done.
    cbn [Sql.apply fst usage_stats chat_history Sql.set_usage_stats].
    rewrite Hrow.
    split; [reflexivity|]. split; [reflexivity|].
    split; [reflexivity|]. split; [reflexivity|]. split; [reflexivity|].
    split.
    + unfold w1. cbn [log trace]. rewrite <- app_assoc. reflexivity.
    + rewrite (update_message_ext (broadcast_done w1) w1
                 (tables_broadcast_done w1) (clock_broadcast_done w1)).
      unfold update_message, current_usage. rewrite Ht1.
      cbn [Sql.apply fst usage_stats Sql.set_usage_stats]. rewrite Hrow.
      reflexivity.
  - intros H. unfold apiAdminExtendLimit, amount_text. cbn [bind]. cbv zeta.
    destruct H as [Hnan|(n & Hn & Hrange)].
    + rewrite Hnan. eexists. reflexivity.
    + rewrite Hn. destruct ((n =? 0) || (n <=? 0)) eqn:H0;
        [eexists; reflexivity|].
      apply orb_false_elim in H0. destruct H0 as [_ H0].
      apply Z.leb_gt in H0. destruct Hrange as [Hle|Hgt]; [lia|].
      replace (n >? config.maxExtensionAmount) with true
        by (symmetry; apply Z.gtb_lt; lia).
      eexists. reflexivity.
  - intros body [[error ->]|[->| ->]]; eexists; split; reflexivity.
  - intros body. unfold apiAdminExtendLimit. rewrite run_try_catch.
    destruct body as [error| | |text']; cbn [amount_text bind];
      try (exists w, 500; eexists; split; [reflexivity|auto]).
    cbv zeta. destruct (JS.parseInt text') as [|n].
    { exists w, 400. eexists. split; [reflexivity|auto]. }
    destruct ((n =? 0) || (n <=? 0)).
    { exists w, 400. eexists. split; [reflexivity|auto]. }
    destruct (n >? config.maxExtensionAmount).
    { exists w, 400. eexists. split; [reflexivity|auto]. }
    rewrite run_bind.
    destruct (run (adminService.extendTokenLimit _ _) w) as [w1 [result|e] ];
      cbn [run].
    + exists w1, 200. eexists. split; [reflexivity|auto].
    + exists w1, 500. eexists. split; [reflexivity|auto].
  - repeat split; vm_compute; reflexivity.
Qed.

Lemma admin_extend_endpoint_witness :
  exists w' payload update,
    run (apiAdminExtendLimit (ExtendAmount (JS.lit "5000"))) busy_world
    = (w', Ok (JsonResponse 200 payload))
    /\ usage_stats (tables w')
       = [{| total_tokens_used := 900; total_limit := 15000 |}]
    /\ field "newLimit" payload = Some (JNum 15000)
    /\ trace w'
       = trace busy_world ++ [EvRun (SetTotalLimit 15000) 0]
         ++ broadcast_events busy_world update.
Proof.
  destruct (proj1 (admin_extend_endpoint busy_world (JS.lit "5000"))
              5000 {| total_tokens_used := 900; total_limit := 10000 |} []
              eq_refl ltac:(unfold config.maxExtensionAmount; lia)
              ltac:(repeat split; reflexivity) eq_refl)
    as (w' & payload & update & Hrun & Hus & _ & _ & Hnew & _ & Htr & _).
  exists w', payload, update. repeat split; assumption.
Defined.

Lemma run_clearDatabase_eq (w : World) :
  ready w ->
  run clearDatabase w
  = (log_all (with_tables w (cleared (tables w))) clear_events, Ok true).
Proof.
  intros Hw. expose_ready w Hw. destruct t as [us ch tc sq].
  unfold clearDatabase. rewrite run_try_catch.
  rewrite run_bind, run_getDb_open by reflexivity. cbv iota beta.
  do 6 sql_step. cbn [run]. unfold log_all, with_tables, with_store, cleared.
  cbn. rewrite <- !app_assoc. reflexivity.
Qed.

Lemma reads_only_detached_broadcastUpdate :
  reads_only (detached broadcastUpdate).
Proof.
  unfold detached. apply reads_only_try_catch;
    [apply reads_only_broadcastUpdate|intros; exact I].
Qed.

Lemma emits_clearDatabase : emits is_run clearDatabase.
Proof.
  unfold clearDatabase. emits_tac; try (apply emits_getDb); cbn; auto.
Qed.

Lemma emits_any {A : Type} (p : Prog A) : emits (fun _ => True) p.
Proof.
  induction p as [a|e|R eff k IH]; cbn; auto.
  split; [destruct eff; cbn; auto|exact IH].
Qed.

Lemma run_detached (p : Prog unit) (w : World) :
  exists w', run (detached p) w = (w', Ok tt).
Proof.
  unfold detached. rewrite run_try_catch.
  destruct (run p w) as [w' [ [] |e] ]; now exists w'.
Qed.

Lemma run_apiAdminClearDatabase_ready (w : World) :
  ready w ->
  let w1 := log_all (with_tables w (cleared (tables w))) clear_events in
  exists payload,
    run apiAdminClearDatabase w
    = (broadcast_done w1, Ok (JsonResponse 200 payload)).
Proof.
  intros Hw w1.
  assert (Hw1 : ready w1)
    by (unfold w1; now apply ready_log_all, ready_with_tables).
  unfold apiAdminClearDatabase, adminService.clearDatabase.
  rewrite run_try_catch, run_bind, run_rethrow, run_bind.
  rewrite (run_clearDatabase_eq w Hw). fold w1.
  rewrite run_bind, (run_detached_broadcastUpdate w1 Hw1).
  fold (broadcast_done w1). cbn [run]. eexists. reflexivity.
Qed.

(** X23. [POST /api/admin/clear-database], with the database open and
    no transaction pending, always answers 200 or 500.  On 200 the
    committed tables are the cleared ones; on 500 the committed tables
    are those from before the request and nothing was sent to any socket
    (only statements were run).  When the store does not fail the answer
    is 200, and after the six statements of the clear every deliverable
    socket is sent an update that shows a counter of 0, the limit kept,
    and no chats. *)
Theorem admin_clear_endpoint (w : World) :
  db w = true ->
  working (store w) = None ->
  exists w' status payload evs,
    run apiAdminClearDatabase w = (w', Ok (JsonResponse status payload))
    /\ trace w' = trace w ++ evs
    /\ ((status = 200
         /\ committed (store w') = cleared (committed (store w))
         /\ working (store w') = None)
        \/ (status = 500
            /\ committed (store w') = committed (store w)
            /\ Forall is_run evs))
    /\ (faults (store w) = [] ->
        status = 200
        /\ evs = clear_events ++ broadcast_events w (update_message w')
        /\ field "usage" (update_message w')
           = Some (usage_object (Sql.reset_tokens (current_usage w)))
        /\ field "chats" (update_message w') = Some (JChats [])).
Proof.
  intros Hdb Hwk.
  assert (Hgen : exists w' status payload evs,
    run apiAdminClearDatabase w = (w', Ok (JsonResponse status payload))
    /\ trace w' = trace w ++ evs
    /\ ((status = 200
         /\ committed (store w') = cleared (committed (store w))
         /\ working (store w') = None)
        \/ (status = 500
            /\ committed (store w') = committed (store w)
            /\ Forall is_run evs))).
  { unfold apiAdminClearDatabase, adminService.clearDatabase.
    rewrite run_try_catch, run_bind, run_rethrow, run_bind.
    destruct (clearDatabase_atomic w Hdb Hwk)
      as (w1 & r & Hrun & Hdb1 & Hcases).
    destruct (run_emits is_run clearDatabase emits_clearDatabase w)
      as (evs1 & Htr1 & Hruns).
    rewrite Hrun in *. cbn [fst] in Htr1.
    destruct Hcases as [(-> & Hc1 & Hwk1)|(e & -> & Hc1)].
    - rewrite run_bind.
      pose proof (reads_only_run _ w1 Hdb1
                    reads_only_detached_broadcastUpdate) as (_ & Hc2 & Hwk2).
      destruct (run_emits (fun _ => True) (detached broadcastUpdate)
                  (emits_any _) w1) as (evs2 & Htr2 & _).
      destruct (run_detached broadcastUpdate w1) as (w2 & Hrun2).
      rewrite Hrun2 in *. cbn [fst run] in *.
      exists w2, 200. eexists. exists (evs1 ++ evs2).
      split; [reflexivity|].
      split; [now rewrite Htr2, Htr1, app_assoc|].
      left. split; [reflexivity|]. split; congruence.
    - cbn [run]. exists w1, 500. eexists. exists evs1.
      split; [reflexivity|]. split; [exact Htr1|].
      right. split; [reflexivity|]. split; assumption. }
  destruct Hgen as (w' & status & payload & evs & Hrun & Htr & Hcases).
  exists w', status, payload, evs.
  split; [exact Hrun|]. split; [exact Htr|]. split; [exact Hcases|].
  intros Hfs. assert (Hw : ready w) by (repeat split; assumption).
  destruct (run_apiAdminClearDatabase_ready w Hw) as (payload' & Hrun').
  cbv zeta in Hrun'. rewrite Hrun in Hrun'.
  injection Hrun' as Hw' Hstatus _.
  set (w1 := log_all (with_tables w (cleared (tables w))) clear_events) in *.
  assert (Ht1 : tables w1 = cleared (tables w)).
  { unfold w1. change (tables (log_all ?x ?e)) with (tables x).
    now apply tables_with_tables. }
  split; [exact Hstatus|].
  rewrite Hw' in *.
  rewrite (update_message_ext (broadcast_done w1) w1
             (tables_broadcast_done w1) (clock_broadcast_done w1)).
  split.
  - rewrite trace_broadcast_done in Htr.
    rewrite (update_message_ext (broadcast_done w1) w1
               (tables_broadcast_done w1) (clock_broadcast_done w1)) in Htr.
    unfold w1 at 1 in Htr.
    change (trace (log_all ?x ?e)) with (trace x ++ e) in Htr.
    change (trace (with_tables w ?t)) with (trace w) in Htr.
    rewrite <- app_assoc in Htr. apply app_inv_head in Htr.
    symmetry. exact Htr.
  - unfold update_message, current_usage. rewrite Ht1.
    cbn [field find fst snd String.eqb Ascii.eqb Bool.eqb option_map].
    split.
    + unfold cleared. cbn [usage_stats].
      destruct (usage_stats (tables w)); reflexivity.
    + unfold cleared. cbn [chat_history Sql.order_by_timestamp_desc
                            fold_right]. now rewrite sql_limit_nil.
Qed.

Lemma admin_clear_endpoint_witness :
  exists w' status payload evs,
    run apiAdminClearDatabase busy_world
    = (w', Ok (JsonResponse status payload))
    /\ trace w' = trace busy_world ++ evs
    /\ ((status = 200
         /\ committed (store w') = cleared (committed (store busy_world))
         /\ working (store w') = None)
        \/ (status = 500
            /\ committed (store w') = committed (store busy_world)
            /\ Forall is_run evs))
    /\ (faults (store busy_world) = [] ->
        status = 200
        /\ evs = clear_events
                 ++ broadcast_events busy_world (update_message w')
        /\ field "usage" (update_message w')
           = Some (usage_object (Sql.reset_tokens (current_usage busy_world)))
        /\ field "chats" (update_message w') = Some (JChats [])).
Proof.
  apply (admin_clear_endpoint busy_world); reflexivity.
Defined.

(** ** utils/helpers.js *)

Lemma truncate_short (text : JS.str) (maxLength : Z) :
  JS.length text <= maxLength -> truncate text maxLength = text.
Proof.
  intros Hle. unfold truncate. destruct text as [|c text]; [reflexivity|].
  apply Z.leb_le in Hle. now rewrite Hle.
Qed.

Lemma truncate_long (text : JS.str) (maxLength : Z) :
  text <> [] ->
  maxLength < JS.length text ->
  truncate text maxLength = firstn (Z.to_nat maxLength) text ++ JS.lit "...".
Proof.
  intros Hne Hlt. unfold truncate.
  destruct text as [|c text]; [contradiction|].
  replace (JS.length (c :: text) <=? maxLength) with false
    by (symmetry; apply Z.leb_gt; exact Hlt).
  reflexivity.
Qed.

Lemma length_cut (text : JS.str) (maxLength : Z) :
  maxLength < JS.length text ->
  JS.length (firstn (Z.to_nat maxLength) text ++ JS.lit "...")
  = Z.max 0 maxLength + 3.
Proof.
  intros Hlt. unfold JS.length in *.
  rewrite List.length_app, length_firstn. simpl List.length. lia.
Qed.

Lemma truncate_bound (text : JS.str) (maxLength : Z) :
  JS.length (truncate text maxLength) <= Z.max 0 maxLength + 3.
Proof.
  destruct text as [|c0 text0]; [cbn; lia|].
  set (text := c0 :: text0).
  assert (Hne : text <> []) by discriminate.
  destruct (Z.le_gt_cases (JS.length text) maxLength) as [Hle|Hgt].
  - rewrite (truncate_short text maxLength Hle). lia.
  - rewrite (truncate_long text maxLength Hne Hgt).
    pose proof (length_cut text maxLength Hgt). lia.
Qed.

(** X24. [truncate(text, maxLength)]: a text of at most [maxLength] code
    units is returned as it is; a longer one is cut to its first
    [maxLength] code units (none when [maxLength] is negative) followed
    by '...'.  The result is never longer than [max(0, maxLength) + 3],
    and truncating it again changes nothing. *)
Theorem truncate_spec (text : JS.str) (maxLength : Z) :
  (JS.length text <= maxLength -> truncate text maxLength = text)
  /\ (text <> [] -> maxLength < JS.length text ->
      truncate text maxLength
      = firstn (Z.to_nat maxLength) text ++ JS.lit "..."
      /\ JS.length (truncate text maxLength) = Z.max 0 maxLength + 3)
  /\ JS.length (truncate text maxLength) <= Z.max 0 maxLength + 3
  /\ truncate (truncate text maxLength) maxLength = truncate text maxLength.
Proof.
  split; [apply truncate_short|]. split.
  { intros Hne Hlt. rewrite (truncate_long text maxLength Hne Hlt).
    split; [reflexivity|now apply length_cut]. }
  split; [apply truncate_bound|].
  destruct text as [|c0 text0]; [reflexivity|].
  set (text := c0 :: text0).
  assert (Hne : text <> []) by discriminate.
  destruct (Z.le_gt_cases (JS.length text) maxLength) as [Hle|Hgt].
  - now rewrite !(truncate_short text maxLength Hle).
  - rewrite (truncate_long text maxLength Hne Hgt).
    pose proof (length_cut text maxLength Hgt) as Hlen.
    set (cut := firstn (Z.to_nat maxLength) text) in *.
    assert (Hn : List.length cut = Z.to_nat maxLength).
    { unfold cut. rewrite length_firstn. unfold JS.length in Hgt. lia. }
    rewrite truncate_long.
    + rewrite firstn_app, Hn, Nat.sub_diag. cbn [firstn].
      rewrite app_nil_r. unfold cut.
      now rewrite firstn_firstn, Nat.min_id.
    + intros Hnil. apply (f_equal (@List.length _)) in Hnil.
      rewrite List.length_app in Hnil. simpl in Hnil. lia.
    + lia.
Qed.

Lemma is_space_32 : is_space 32%N = true.
Proof. reflexivity. Qed.

Lemma collapse_spaces_spaces (in_run : bool) (s : JS.str) :
  Forall (fun c => is_space c = true -> c = 32%N) (collapse_spaces in_run s).
Proof.
  revert in_run. induction s as [|c s IH]; intros in_run; cbn; [constructor|].
  destruct (is_space c) eqn:Hc.
  - destruct in_run; [apply IH|]. constructor; [reflexivity|apply IH].
  - constructor; [|apply IH]. intros H. congruence.
Qed.

Lemma collapse_spaces_head (s : JS.str) (c : JS.code_unit) (r : JS.str) :
  collapse_spaces true s = c :: r -> is_space c = false.
Proof.
  induction s as [|d s IH]; cbn; [discriminate|].
  destruct (is_space d) eqn:Hd; [exact IH|].
  intros H. injection H as <- _. exact Hd.
Qed.

Lemma collapse_spaces_single (in_run : bool) (s : JS.str) :
  single_spaced (collapse_spaces in_run s).
Proof.
  revert in_run. induction s as [|c s IH]; intros in_run; [exact I|].
  cbn [collapse_spaces]. destruct (is_space c) eqn:Hc.
  - destruct in_run; [apply IH|].
    pose proof (IH true) as Hrest.
    destruct (collapse_spaces true s) as [|d r] eqn:Hs; [exact I|].
    split; [|exact Hrest]. intros _.
    now apply (collapse_spaces_head s d r).
  - pose proof (IH false) as Hrest.
    destruct (collapse_spaces false s) as [|d r] eqn:Hs; [exact I|].
    split; [|exact Hrest]. intros H. congruence.
Qed.

Lemma collapse_spaces_keeps (in_run : bool) (s : JS.str) :
  filter (fun c => negb (is_space c)) (collapse_spaces in_run s)
  = filter (fun c => negb (is_space c)) s.
Proof.
  revert in_run. induction s as [|c s IH]; intros in_run; [reflexivity|].
  cbn [collapse_spaces filter]. destruct (is_space c) eqn:Hc; cbn [negb].
  - destruct in_run; [apply IH|]. cbn [filter].
    rewrite is_space_32. cbn [negb]. apply IH.
  - cbn [filter]. rewrite Hc. cbn [negb]. f_equal. apply IH.
Qed.

Lemma collapse_spaces_length (in_run : bool) (s : JS.str) :
  (List.length (collapse_spaces in_run s) <= List.length s)%nat.
Proof.
  revert in_run. induction s as [|c s IH]; intros in_run; [reflexivity|].
  cbn [collapse_spaces]. destruct (is_space c); [destruct in_run|];
    cbn [List.length]; try apply le_n_S; try apply IH.
  apply Nat.le_trans with (1 := IH true). apply Nat.le_succ_diag_r.
Qed.

(** X25. [sanitizeForLog(input, maxLength)] of a string is a single log
    line: the only white space it contains is the space character (no
    line feed, carriage return, tab or Unicode separator survives), no
    two spaces are adjacent, every other code unit of the truncated input
    is kept in order, and the length is at most [max(0, maxLength) + 3]. *)
Theorem sanitizeForLog_one_line (input : JS.str) (maxLength : Z) :
  Forall (fun c => is_space c = true -> c = 32%N)
         (sanitizeForLog input maxLength)
  /\ single_spaced (sanitizeForLog input maxLength)
  /\ filter (fun c => negb (is_space c)) (sanitizeForLog input maxLength)
     = filter (fun c => negb (is_space c)) (truncate input maxLength)
  /\ JS.length (sanitizeForLog input maxLength) <= Z.max 0 maxLength + 3.
Proof.
  unfold sanitizeForLog. destruct input as [|c0 input0].
  { repeat split; try constructor. cbn. lia. }
  cbv zeta. set (input := c0 :: input0).
  split; [apply collapse_spaces_spaces|].
  split; [apply collapse_spaces_single|].
  split; [apply collapse_spaces_keeps|].
  pose proof (collapse_spaces_length false (truncate input maxLength)) as Hlen.
  pose proof (truncate_bound input maxLength) as Hbound.
  unfold JS.length in *. lia.
Qed.

(** ** utils/logging.js *)

Lemma min_log_level_setLogLevel (calls : list string) (l : logging.Logger) :
  logging.min_log_level
    (fold_left (fun l level => logging.setLogLevel level l) calls l)
  = logging.min_log_level l.
Proof.
  revert l. induction calls as [|level calls IH]; intros l; [reflexivity|].
  cbn [fold_left]. rewrite IH. unfold logging.setLogLevel.
  destruct (logging.LOG_LEVELS level); reflexivity.
Qed.

Lemma MIN_LOG_LEVEL_positive (logLevel : string) (m : Z) :
  logging.MIN_LOG_LEVEL logLevel = logging.Own m -> 1 <= m <= 6.
Proof.
  unfold logging.MIN_LOG_LEVEL, logging.LOG_LEVELS.
  destruct (find _ logging.levels) as [level|].
  - destruct (logging.level_number level =? 0) eqn:H0.
    + intros H. injection H as <-. cbn. lia.
    + intros H. injection H as <-. apply Z.eqb_neq in H0.
      destruct level; cbn in *; lia.
  - destruct (existsb _ _); [discriminate|].
    intros H. injection H as <-. cbn. lia.
Qed.

(** X26. The filter of the logger.  [MIN_LOG_LEVEL] is
    [LOG_LEVELS[config.logLevel] || LOG_LEVELS.INFO], computed once when
    the module is loaded.  Hence, whatever level is configured and
    whatever calls of [setLogLevel] follow: a DEBUG message is never
    printed (level 0 is falsy and falls back to INFO); [setLogLevel] does
    not change what is printed; FATAL is printed whenever anything is;
    and with an unknown level name everything but DEBUG is printed. *)
Theorem debug_is_never_printed (logLevel : string) (calls : list string)
  (level : logging.Level) :
  let logger :=
    fold_left (fun l name => logging.setLogLevel name l) calls
              (logging.load logLevel) in
  logging.prints logger logging.DEBUG = false
  /\ logging.prints logger level = logging.prints (logging.load logLevel) level
  /\ (logging.prints logger level = true ->
      logging.prints logger logging.FATAL = true)
  /\ (logging.LOG_LEVELS logLevel = logging.Absent ->
      logging.prints logger level = negb (logging.level_number level =? 0)).
Proof.
  cbv zeta. unfold logging.prints.
  rewrite min_log_level_setLogLevel. cbn [logging.load logging.min_log_level].
  split; [|split; [reflexivity|split] ].
  - destruct (logging.MIN_LOG_LEVEL logLevel) as [m| |] eqn:Hm;
      try reflexivity.
    apply MIN_LOG_LEVEL_positive in Hm. cbn. rewrite Z.geb_leb.
    apply Z.leb_gt. lia.
  - destruct (logging.MIN_LOG_LEVEL logLevel) as [m| |] eqn:Hm;
      try discriminate.
    apply MIN_LOG_LEVEL_positive in Hm. intros _. cbn. rewrite Z.geb_leb.
    apply Z.leb_le. lia.
  - intros Habsent. unfold logging.MIN_LOG_LEVEL. rewrite Habsent.
    destruct level; reflexivity.
Qed.

(** ** wsServer.js *)

Lemma map_set_fresh (ws : nat) (info : ClientInfo)
  (l : list (nat * ClientInfo)) :
  existsb (fun entry => Nat.eqb (fst entry) ws) l = false ->
  wsServer.map_set ws info l = l ++ [(ws, info)].
Proof.
  induction l as [|p l IH]; cbn; [reflexivity|].
  destruct (Nat.eqb (fst p) ws); cbn; [discriminate|].
  intros H. now rewrite IH.
Qed.

Lemma map_delete_fresh (ws : nat) (l : list (nat * ClientInfo)) :
  existsb (fun entry => Nat.eqb (fst entry) ws) l = false ->
  map_delete ws l = l.
Proof.
  induction l as [|p l IH]; cbn; [reflexivity|].
  destruct (Nat.eqb (fst p) ws); cbn; [discriminate|].
  intros H. now rewrite IH.
Qed.

Lemma map_delete_app (ws : nat) (a b : list (nat * ClientInfo)) :
  map_delete ws (a ++ b) = map_delete ws a ++ map_delete ws b.
Proof.
  induction a as [|p a IH]; cbn; [reflexivity|].
  destruct (Nat.eqb (fst p) ws); cbn; now rewrite IH.
Qed.

(** X27. The life of a connection in the registry.  [handleConnection]
    on a socket that is not registered appends it with the given client
    id, both timestamps set to the current time, and keeps the keys
    distinct; it touches no table; the welcome message carries the client
    id and the new number of clients, and a failing send is swallowed.
    The ['close'] listener then leaves the registry as it was before the
    connection. *)
Theorem connection_lifecycle (w : World) (ws : nat)
  (clientIp clientId : JS.str) :
  NoDup (map fst (wsClients w)) ->
  registered w ws = false ->
  let w1 := wsServer.handleConnection ws clientIp clientId w in
  let info := {| client_id := clientId; ip := clientIp;
                 connectedAt := clock w; isAdmin := true;
                 lastActivity := clock w |} in
  wsClients w1 = wsClients w ++ [(ws, info)]
  /\ NoDup (map fst (wsClients w1))
  /\ store w1 = store w
  /\ (send_throws w ws = false ->
      exists welcome,
        trace w1 = trace w ++ [EvSend ws welcome]
        /\ field "type" welcome = Some (jstr "welcome")
        /\ field "clientId" welcome = Some (JStr clientId)
        /\ field "clientCount" welcome
           = Some (JNum (Z.of_nat (List.length (wsClients w)) + 1)))
  /\ (send_throws w ws = true -> trace w1 = trace w)
  /\ wsClients (wsServer.onClose ws w1) = wsClients w.
Proof.
  intros Hnd Hfresh w1 info. unfold registered in Hfresh.
  assert (Hcl : wsClients w1 = wsClients w ++ [(ws, info)]).
  { unfold w1, wsServer.handleConnection. cbv zeta.
    rewrite run_try_catch, run_perform. cbn [exec send_throws with_clients].
    destruct (send_throws w ws); cbn; now rewrite map_set_fresh. }
  split; [exact Hcl|]. split; [|split; [|split; [|split] ] ].
  - rewrite Hcl, map_app. cbn [map fst].
    apply NoDup_app; [exact Hnd|repeat constructor; intros []|].
    intros k Hin [<-|[] ]. apply in_map_iff in Hin.
    destruct Hin as (e & Hk & He).
    assert (Hex : existsb (fun entry => Nat.eqb (fst entry) ws) (wsClients w)
                  = true).
    { apply existsb_exists. exists e. split; [exact He|].
      now apply Nat.eqb_eq. }
    congruence.
  - unfold w1, wsServer.handleConnection. cbv zeta.
    rewrite run_try_catch, run_perform. cbn [exec send_throws with_clients].
    destruct (send_throws w ws); reflexivity.
  - intros Hs. unfold w1, wsServer.handleConnection. cbv zeta.
    rewrite run_try_catch, run_perform. cbn [exec send_throws with_clients].
    rewrite Hs. cbn [fst log trace with_clients wsClients clock].
    rewrite map_set_fresh by exact Hfresh.
    eexists. split; [reflexivity|]. split; [reflexivity|].
    split; [reflexivity|]. cbn. rewrite List.length_app. cbn. f_equal. f_equal. lia.
  - intros Hs. unfold w1, wsServer.handleConnection. cbv zeta.
    rewrite run_try_catch, run_perform. cbn [exec send_throws with_clients].
    rewrite Hs. reflexivity.
  - unfold wsServer.onClose. cbn [wsClients with_clients].
    rewrite Hcl, map_delete_app, map_delete_fresh by exact Hfresh.
    cbn. rewrite Nat.eqb_refl. apply app_nil_r.
Qed.

Lemma connection_lifecycle_witness :
  let w := three_clients_world in
  let w1 := wsServer.handleConnection 3%nat (JS.lit "10.0.0.1") (JS.lit "D") w in
  let info := {| client_id := JS.lit "D"; ip := JS.lit "10.0.0.1";
                 connectedAt := clock w; isAdmin := true;
                 lastActivity := clock w |} in
  wsClients w1 = wsClients w ++ [(3%nat, info)]
  /\ NoDup (map fst (wsClients w1))
  /\ store w1 = store w
  /\ (send_throws w 3%nat = false ->
      exists welcome,
        trace w1 = trace w ++ [EvSend 3%nat welcome]
        /\ field "type" welcome = Some (jstr "welcome")
        /\ field "clientId" welcome = Some (JStr (JS.lit "D"))
        /\ field "clientCount" welcome
           = Some (JNum (Z.of_nat (List.length (wsClients w)) + 1)))
  /\ (send_throws w 3%nat = true -> trace w1 = trace w)
  /\ wsClients (wsServer.onClose 3%nat w1) = wsClients w.
Proof.
  intros w.
  apply (connection_lifecycle w 3%nat (JS.lit "10.0.0.1") (JS.lit "D")).
  - simpl. repeat constructor; simpl; intuition discriminate.
  - reflexivity.
Defined.

Lemma fold_left_sentCount (w : World) (l : list (nat * ClientInfo))
  (s : wsServer.SentCount) :
  let r := fold_left
             (fun (s : wsServer.SentCount) (entry : nat * ClientInfo) =>
                if deliverable w entry
                then {| wsServer.total := wsServer.total s + 1;
                        wsServer.successful := wsServer.successful s + 1;
                        wsServer.failed := wsServer.failed s |}
                else {| wsServer.total := wsServer.total s + 1;
                        wsServer.successful := wsServer.successful s;
                        wsServer.failed := wsServer.failed s + 1 |}) l s in
  wsServer.total r = wsServer.total s + Z.of_nat (List.length l)
  /\ wsServer.successful r
     = wsServer.successful s
       + Z.of_nat (List.length (filter (deliverable w) l))
  /\ wsServer.failed r
     = wsServer.failed s
       + Z.of_nat (List.length (filter (fun e => negb (deliverable w e)) l)).
Proof.
  revert s. induction l as [|x l IH]; intros s; cbv zeta.
  - cbn. repeat split; lia.
  - cbn [fold_left filter]. specialize (IH
      (if deliverable w x
       then {| wsServer.total := wsServer.total s + 1;
               wsServer.successful := wsServer.successful s + 1;
               wsServer.failed := wsServer.failed s |}
       else {| wsServer.total := wsServer.total s + 1;
               wsServer.successful := wsServer.successful s;
               wsServer.failed := wsServer.failed s + 1 |})).
    cbv zeta in IH. destruct IH as (Ht & Hs & Hf).
    rewrite Ht, Hs, Hf.
    destruct (deliverable w x); cbn [negb List.length wsServer.total
      wsServer.successful wsServer.failed]; repeat split; lia.
Qed.

Lemma run_server_broadcastToAll (message : list (string * json)) (w : World) :
  run (wsServer.broadcastToAll message) w
  = (log_all w (broadcast_events w
                  (wsServer.envelope message "broadcast" (clock w))),
     Ok (fold_left
           (fun (s : wsServer.SentCount) (entry : nat * ClientInfo) =>
              if deliverable w entry
              then {| wsServer.total := wsServer.total s + 1;
                      wsServer.successful := wsServer.successful s + 1;
                      wsServer.failed := wsServer.failed s |}
              else {| wsServer.total := wsServer.total s + 1;
                      wsServer.successful := wsServer.successful s;
                      wsServer.failed := wsServer.failed s + 1 |})
           (wsClients w)
           {| wsServer.total := 0; wsServer.successful := 0;
              wsServer.failed := 0 |})).
Proof.
  unfold wsServer.broadcastToAll.
  rewrite run_bind, run_perform. cbn [exec].
  rewrite (run_fold_each_log _
             (fun w entry =>
                if deliverable w entry
                then [EvSend (fst entry)
                        (wsServer.envelope message "broadcast" (clock w))]
                else [])
             (fun w (s : wsServer.SentCount) entry =>
                if deliverable w entry
                then {| wsServer.total := wsServer.total s + 1;
                        wsServer.successful := wsServer.successful s + 1;
                        wsServer.failed := wsServer.failed s |}
                else {| wsServer.total := wsServer.total s + 1;
                        wsServer.successful := wsServer.successful s;
                        wsServer.failed := wsServer.failed s + 1 |})).
  - unfold broadcast_events. now rewrite flat_map_filter.
  - intros s x w0. cbv zeta.
    rewrite run_bind, run_perform. cbn [exec]. unfold deliverable.
    destruct (readyState w0 (fst x)); cbn [is_open andb];
      try (now rewrite log_all_nil).
    rewrite run_try_catch, run_bind, run_perform. cbn [exec].
    rewrite run_bind, run_perform. cbn [exec].
    destruct (send_throws w0 (fst x)); cbn [negb run];
      [now rewrite log_all_nil|reflexivity].
  - reflexivity.
  - reflexivity.
Qed.

Lemma field_obj_set_same (key : string) (value : json)
  (fields : list (string * json)) :
  field key (JObj (wsServer.obj_set key value fields)) = Some value.
Proof.
  cbn [field]. induction fields as [|p fields IH]; cbn.
  - now rewrite String.eqb_refl.
  - destruct (String.eqb (fst p) key) eqn:Hp; cbn.
    + now rewrite String.eqb_refl.
    + rewrite Hp. exact IH.
Qed.

Lemma field_obj_set_other (key other : string) (value : json)
  (fields : list (string * json)) :
  String.eqb key other = false ->
  field other (JObj (wsServer.obj_set key value fields))
  = field other (JObj fields).
Proof.
  intros Hne. cbn [field]. induction fields as [|p fields IH]; cbn.
  - now rewrite Hne.
  - destruct (String.eqb (fst p) key) eqn:Hp; cbn.
    + rewrite Hne. apply String.eqb_eq in Hp. rewrite Hp, Hne. reflexivity.
    + destruct (String.eqb (fst p) other); [reflexivity|exact IH].
Qed.

(** X28. [broadcastToAll(message)] of [wsServer.js] never throws and
    returns counters with [total] the number of registered sockets and
    [successful + failed = total]: [successful] counts the sockets that
    were OPEN and whose send did not throw, each of which received the
    message once, wrapped with [receivedAs: 'broadcast']; every other
    socket counts as failed.  The registry is left as it is: closed
    sockets are not removed here. *)
Theorem server_broadcast_counts (w : World) (message : list (string * json)) :
  exists counts evs,
    run (wsServer.broadcastToAll message) w = (log_all w evs, Ok counts)
    /\ wsServer.total counts = Z.of_nat (List.length (wsClients w))
    /\ wsServer.successful counts + wsServer.failed counts
       = wsServer.total counts
    /\ wsServer.successful counts = Z.of_nat (List.length evs)
    /\ evs = map (fun entry =>
                    EvSend (fst entry)
                      (wsServer.envelope message "broadcast" (clock w)))
                 (filter (deliverable w) (wsClients w))
    /\ field "receivedAs" (wsServer.envelope message "broadcast" (clock w))
       = Some (jstr "broadcast").
Proof.
  rewrite run_server_broadcastToAll.
  destruct (fold_left_sentCount w (wsClients w)
              {| wsServer.total := 0; wsServer.successful := 0;
                 wsServer.failed := 0 |}) as (Ht & Hs & Hf).
  cbv zeta in *. cbn [wsServer.total wsServer.successful wsServer.failed] in *.
  eexists. eexists. split; [reflexivity|].
  split; [rewrite Ht; lia|]. split.
  - rewrite Ht, Hs, Hf.
    pose proof (filter_length (deliverable w) (wsClients w)) as Hlen. lia.
  - split; [|split; [reflexivity|] ].
    + rewrite Hs. unfold broadcast_events. now rewrite length_map.
    + unfold wsServer.envelope.
      rewrite field_obj_set_other by reflexivity.
      apply field_obj_set_same.
Qed.

Lemma keeps_registry_run {A : Type} (p : Prog A) :
  forall w, keeps_registry p -> wsClients (fst (run p w)) = wsClients w.
Proof.
  induction p as [a|e|R eff k IH]; intros w Hp; try reflexivity.
  cbn [run]. destruct Hp as [Heff Hk].
  assert (Hsame : wsClients (fst (exec eff w)) = wsClients w).
  { destruct eff; cbn in *; try reflexivity; try contradiction.
    - destruct (Sql.pop_fault (store w)) as [ [|] d]; reflexivity.
    - destruct (Sql.pop_fault (store w)) as [ [|] d]; [reflexivity|].
      destruct (Sql.run (clock w) c d) as [d' [i|e] ]; reflexivity.
    - destruct (Sql.pop_fault (store w)) as [ [|] d]; reflexivity.
    - destruct (send_throws w ws); reflexivity. }
  destruct (exec eff w) as [w1 r]. cbn [fst] in Hsame.
  rewrite <- Hsame. now apply IH.
Qed.

Lemma keeps_registry_bind {A B : Type} (p : Prog A) (f : A -> Prog B) :
  keeps_registry p -> (forall a, keeps_registry (f a)) ->
  keeps_registry (bind p f).
Proof.
  intros Hp Hf. induction p as [a|e|R eff k IH]; cbn in *; auto.
  destruct Hp as [Heff Hk]. split; auto.
Qed.

Lemma keeps_registry_try_catch {A : Type} (p : Prog A) (h : Error -> Prog A) :
  keeps_registry p -> (forall e, keeps_registry (h e)) ->
  keeps_registry (try_catch p h).
Proof.
  intros Hp Hh. induction p as [a|e|R eff k IH]; cbn in *; auto.
  destruct Hp as [Heff Hk]. split; auto.
Qed.

Lemma keeps_registry_fold_each {X S : Type} (l : list X)
  (body : S -> X -> Prog S) :
  (forall s x, keeps_registry (body s x)) ->
  forall s, keeps_registry (fold_each l s body).
Proof.
  intros H. induction l as [|x l IH]; intros s; cbn; auto.
  apply keeps_registry_bind; auto.
Qed.

Ltac registry_tac :=
  repeat first
    [ exact I
    | apply keeps_registry_try_catch; [|intros ?]
    | apply keeps_registry_bind; [|intros ?]
    | apply keeps_registry_fold_each; intros ? ?
    | match goal with
      | |- keeps_registry (perform _) => cbn; split; [exact I|now intros [?|?] ]
      | |- keeps_registry (if ?b then _ else _) => destruct b
      | |- keeps_registry (match ?x with _ => _ end) => destruct x
      end ].

Lemma keeps_registry_handleMessage (ws : nat) (message : Message)
  (clientIp clientId : JS.str) :
  keeps_registry (handleMessage ws message clientIp clientId).
Proof.
  unfold handleMessage, handleRequestUpdate, handleExtendLimit,
    handleClearDatabase, handlePing, handleGetClients, require,
    listConnectedClients, broadcastToOthers, getTokenUsage, getRecentChats, getDb,
    initializeDatabase, rethrow.
  registry_tac.
Qed.

Lemma cleanup_fold (maxInactiveTime now : Z) (close_throws : nat -> bool)
  (l reg : list (nat * ClientInfo)) (c : Z) :
  fold_left
    (fun (state : list (nat * ClientInfo) * Z) (entry : nat * ClientInfo) =>
       let ws := fst entry in
       let clientInfo := snd entry in
       let inactiveDuration := now - lastActivity clientInfo in
       if inactiveDuration >? maxInactiveTime then
         if close_throws ws then state
         else (map_delete ws (fst state), snd state + 1)
       else state)
    l (reg, c)
  = (filter (fun e =>
               negb (existsb (fun x =>
                                Nat.eqb (fst x) (fst e)
                                && expired maxInactiveTime now close_throws x)
                             l)) reg,
     c + Z.of_nat (List.length
                     (filter (expired maxInactiveTime now close_throws) l))).
Proof.
  revert reg c. induction l as [|x l IH]; intros reg c.
  - cbn. rewrite Z.add_0_r. f_equal. symmetry.
    induction reg as [|e reg IHr]; cbn; [reflexivity|now rewrite IHr].
  - cbn [fold_left existsb filter]. cbv zeta. cbn [fst snd].
    replace (if now - lastActivity (snd x) >? maxInactiveTime
             then if close_throws (fst x) then (reg, c)
                  else (map_delete (fst x) reg, c + 1)
             else (reg, c))
      with (if expired maxInactiveTime now close_throws x
            then (map_delete (fst x) reg, c + 1) else (reg, c))
      by (unfold expired;
          destruct (now - lastActivity (snd x) >? maxInactiveTime);
          destruct (close_throws (fst x)); reflexivity).
    destruct (expired maxInactiveTime now close_throws x) eqn:Hexp.
    + rewrite IH, map_delete_filter. f_equal.
      * clear. induction reg as [|e reg IHr]; cbn; [reflexivity|].
        rewrite andb_true_r, (Nat.eqb_sym (fst x) (fst e)).
        destruct (Nat.eqb (fst e) (fst x)); cbn; now rewrite IHr.
      * cbn [List.length]. lia.
    + rewrite IH. f_equal. apply filter_ext. intros e.
      now rewrite andb_false_r.
Qed.

Lemma expired_key_NoDup (maxInactiveTime now : Z) (close_throws : nat -> bool)
  (l : list (nat * ClientInfo)) (e : nat * ClientInfo) :
  NoDup (map fst l) ->
  In e l ->
  existsb (fun x => Nat.eqb (fst x) (fst e)
                    && expired maxInactiveTime now close_throws x) l
  = expired maxInactiveTime now close_throws e.
Proof.
  intros Hnd Hin.
  destruct (existsb _ l) eqn:Hex.
  - apply existsb_exists in Hex. destruct Hex as (x & Hx & Hcond).
    apply andb_prop in Hcond. destruct Hcond as [Hkey Hexp].
    apply Nat.eqb_eq in Hkey.
    assert (x = e); [|now subst].
    clear Hexp. induction l as [|y l IH]; [contradiction|].
    inversion Hnd as [|k ks Hnotin Hnd']; subst.
    destruct Hx as [->|Hx], Hin as [->|Hin]; try reflexivity.
    + exfalso. apply Hnotin. rewrite Hkey. now apply in_map.
    + exfalso. apply Hnotin. rewrite <- Hkey. now apply in_map.
    + now apply IH.
  - destruct (expired maxInactiveTime now close_throws e) eqn:He;
      [|reflexivity].
    exfalso. apply Bool.not_true_iff_false in Hex. apply Hex.
    apply existsb_exists. exists e. split; [exact Hin|].
    now rewrite Nat.eqb_refl, He.
Qed.

Lemma run_cleanupInactiveConnections (maxInactiveTime now : Z)
  (close_throws : nat -> bool) (clients : list (nat * ClientInfo)) :
  NoDup (map fst clients) ->
  wsServer.cleanupInactiveConnections maxInactiveTime now close_throws clients
  = (filter (fun e => negb (expired maxInactiveTime now close_throws e))
            clients,
     Z.of_nat (List.length
                 (filter (expired maxInactiveTime now close_throws) clients))).
Proof.
  intros Hnd. unfold wsServer.cleanupInactiveConnections.
  rewrite cleanup_fold. f_equal.
  apply filter_ext_in. intros e He. f_equal.
  now apply expired_key_NoDup.
Qed.

Lemma map_set_present (ws : nat) (info : ClientInfo)
  (l : list (nat * ClientInfo)) :
  existsb (fun entry => Nat.eqb (fst entry) ws) l = true ->
  map fst (wsServer.map_set ws info l) = map fst l
  /\ In (ws, info) (wsServer.map_set ws info l).
Proof.
  induction l as [|p l IH]; cbn; [discriminate|].
  destruct (Nat.eqb (fst p) ws) eqn:Hp; cbn.
  - intros _. apply Nat.eqb_eq in Hp. rewrite Hp. split; [reflexivity|now left].
  - intros H. destruct (IH H) as [Hk Hin]. split; [now rewrite Hk|now right].
Qed.

(** X29. [cleanupInactiveConnections(maxInactiveTime)] removes from the
    registry exactly the sockets whose last activity is more than
    [maxInactiveTime] before the call and whose [close] did not throw,
    keeps the others in their order, and returns the number removed.  A
    registered socket that has delivered data (well-formed or not) at
    most [maxInactiveTime] before the call is still registered after
    it. *)
Theorem inactive_cleanup (maxInactiveTime now : Z)
  (close_throws : nat -> bool) (w : World) (ws : nat)
  (clientIp clientId : JS.str) (data : wsServer.Data) :
  NoDup (map fst (wsClients w)) ->
  let result :=
    wsServer.cleanupInactiveConnections maxInactiveTime now close_throws
      (wsClients w) in
  let heard := wsServer.onMessage ws clientIp clientId data w in
  fst result
  = filter (fun e => negb (expired maxInactiveTime now close_throws e))
           (wsClients w)
  /\ snd result
     = Z.of_nat (List.length (wsClients w))
       - Z.of_nat (List.length (fst result))
  /\ (registered w ws = true ->
      now - clock w <= maxInactiveTime ->
      existsb (fun entry => Nat.eqb (fst entry) ws)
        (fst (wsServer.cleanupInactiveConnections maxInactiveTime now
                close_throws (wsClients heard)))
      = true).
Proof.
  intros Hnd result heard. unfold result.
  rewrite (run_cleanupInactiveConnections _ _ _ _ Hnd). cbn [fst snd].
  split; [reflexivity|]. split.
  - pose proof (filter_length (expired maxInactiveTime now close_throws)
                  (wsClients w)) as Hlen. lia.
  - intros Hreg Hrecent. unfold registered in Hreg.
    assert (Hheard : wsClients heard = wsClients (wsServer.touch ws w)).
    { unfold heard, wsServer.onMessage. cbv zeta.
      destruct data as [message|error]; apply keeps_registry_run.
      - unfold detached. apply keeps_registry_try_catch;
          [apply keeps_registry_handleMessage|intros; exact I].
      - registry_tac. }
    rewrite Hheard. unfold wsServer.touch, wsServer.map_get.
    destruct (find _ (wsClients w)) as [p|] eqn:Hfind.
    2:{ apply existsb_exists in Hreg. destruct Hreg as (e & He & Hk).
        pose proof (find_none _ _ Hfind e He) as Hno. cbn in Hno. congruence. }
    cbn [option_map wsClients with_clients].
    set (info := {| client_id := client_id (snd p); ip := ip (snd p);
                    connectedAt := connectedAt (snd p);
                    isAdmin := isAdmin (snd p); lastActivity := clock w |}).
    destruct (map_set_present ws info (wsClients w) Hreg) as [Hkeys Hin].
    rewrite run_cleanupInactiveConnections by (now rewrite Hkeys).
    cbn [fst]. apply existsb_exists. exists (ws, info).
    split; [|apply Nat.eqb_refl]. apply filter_In. split; [exact Hin|].
    unfold expired. cbn [snd fst lastActivity info].
    replace (now - clock w >? maxInactiveTime) with false
      by (symmetry; rewrite Z.gtb_ltb; apply Z.ltb_ge; lia).
    reflexivity.
Qed.

Lemma inactive_cleanup_witness :
  let result :=
    wsServer.cleanupInactiveConnections 300000 400000 (fun _ => false)
      (wsClients three_clients_world) in
  let heard :=
    wsServer.onMessage 1%nat (JS.lit "127.0.0.1") (JS.lit "B")
      (wsServer.Malformed (UpstreamError "Unexpected token"))
      three_clients_world in
  fst result
  = filter (fun e => negb (expired 300000 400000 (fun _ => false) e))
           (wsClients three_clients_world)
  /\ snd result
     = Z.of_nat (List.length (wsClients three_clients_world))
       - Z.of_nat (List.length (fst result))
  /\ (registered three_clients_world 1%nat = true ->
      400000 - clock three_clients_world <= 300000 ->
      existsb (fun entry => Nat.eqb (fst entry) 1%nat)
        (fst (wsServer.cleanupInactiveConnections 300000 400000
                (fun _ => false) (wsClients heard)))
      = true).
Proof.
  apply (inactive_cleanup 300000 400000 (fun _ => false) three_clients_world
           1%nat (JS.lit "127.0.0.1") (JS.lit "B")
           (wsServer.Malformed (UpstreamError "Unexpected token"))).
  simpl. repeat constructor; simpl; intuition discriminate.
Defined.

(** ** utils/auth.js *)

Lemma strip_prefix_ci_app (pattern scheme rest : JS.str) :
  map upper scheme = map upper pattern ->
  strip_prefix_ci pattern (scheme ++ rest) = Some rest.
Proof.
  revert scheme. induction pattern as [|p pattern IH]; intros scheme Heq.
  - destruct scheme; [reflexivity|discriminate].
  - destruct scheme as [|c scheme]; [discriminate|].
    cbn in Heq. injection Heq as Hc Hrest. cbn.
    rewrite Hc, N.eqb_refl. now apply IH.
Qed.

Lemma strip_prefix_ci_inv (pattern s rest : JS.str) :
  strip_prefix_ci pattern s = Some rest ->
  exists scheme,
    s = scheme ++ rest /\ map upper scheme = map upper pattern.
Proof.
  revert s. induction pattern as [|p pattern IH]; intros s H.
  - cbn in H. injection H as <-. now exists [].
  - destruct s as [|c s]; [discriminate|]. cbn in H.
    destruct (N.eqb_spec (upper p) (upper c)) as [Hc|]; [|discriminate].
    destruct (IH s H) as (scheme & -> & Heq).
    exists (c :: scheme). cbn. split; [reflexivity|]. now rewrite Hc, Heq.
Qed.

Lemma spaces_then_rest_app (gap token : JS.str) :
  gap <> [] ->
  forallb is_space gap = true ->
  rest_of_line token = Some token ->
  (forall c rest, token = c :: rest -> is_space c = false) ->
  spaces_then_rest (gap ++ token) = Some token.
Proof.
  intros Hne Hgap Hline Hfirst.
  assert (Hnone : spaces_then_rest token = None).
  { destruct token as [|c rest]; [reflexivity|].
    cbn. now rewrite (Hfirst c rest eq_refl). }
  induction gap as [|c gap IH]; [contradiction|].
  cbn in Hgap. apply andb_prop in Hgap. destruct Hgap as [Hc Hgap].
  cbn. rewrite Hc. destruct gap as [|d gap].
  - cbn. now rewrite Hnone.
  - rewrite IH; [reflexivity|discriminate|exact Hgap].
Qed.

Lemma rest_of_line_inv (s group : JS.str) :
  rest_of_line s = Some group ->
  group = s /\ s <> []
  /\ forallb (fun c => negb (is_line_terminator c)) s = true.
Proof.
  unfold rest_of_line. destruct s as [|c s]; [discriminate|].
  destruct (forallb _ (c :: s)) eqn:Hall; [|discriminate].
  intros H. injection H as <-. repeat split. discriminate.
Qed.

Lemma spaces_then_rest_inv (s group : JS.str) :
  spaces_then_rest s = Some group ->
  exists gap,
    s = gap ++ group /\ gap <> [] /\ forallb is_space gap = true
    /\ group <> []
    /\ forallb (fun c => negb (is_line_terminator c)) group = true.
Proof.
  revert group. induction s as [|c s IH]; intros group H; [discriminate|].
  cbn in H. destruct (is_space c) eqn:Hc; [|discriminate].
  destruct (spaces_then_rest s) as [g|] eqn:Hs.
  - injection H as <-.
    destruct (IH g eq_refl) as (gap & -> & _ & Hgap & Hne & Hline).
    exists (c :: gap). cbn. rewrite Hc, Hgap.
    repeat split; try assumption; discriminate.
  - apply rest_of_line_inv in H. destruct H as (-> & Hne & Hline).
    exists [c]. cbn. rewrite Hc. repeat split; try assumption; discriminate.
Qed.

(** X30. [verifyAdminAccess] grants access only to a header made of the
    word 'Bearer' in any letter case, at least one white-space code unit,
    and the configured token up to the end; a missing or empty header is
    refused.  Conversely such a header is accepted whenever the token is
    not empty, holds no line terminator and does not begin with white
    space. *)
Theorem verifyAdminAccess_bearer (authHeader : option JS.str)
  (adminAuthToken : JS.str) :
  (verifyAdminAccess authHeader adminAuthToken = true ->
   exists scheme gap,
     authHeader = Some (scheme ++ gap ++ adminAuthToken)
     /\ map upper scheme = map upper (JS.lit "Bearer")
     /\ gap <> [] /\ forallb is_space gap = true
     /\ adminAuthToken <> []
     /\ forallb (fun c => negb (is_line_terminator c)) adminAuthToken = true)
  /\ (forall scheme gap,
        map upper scheme = map upper (JS.lit "Bearer") ->
        gap <> [] -> forallb is_space gap = true ->
        adminAuthToken <> [] ->
        forallb (fun c => negb (is_line_terminator c)) adminAuthToken = true ->
        (forall c rest, adminAuthToken = c :: rest -> is_space c = false) ->
        verifyAdminAccess (Some (scheme ++ gap ++ adminAuthToken))
          adminAuthToken = true).
Proof.
  split.
  - unfold verifyAdminAccess, tokenMatch.
    destruct authHeader as [ [|c header]|]; try discriminate.
    destruct (strip_prefix_ci (JS.lit "Bearer") (c :: header))
      as [after|] eqn:Hprefix; [|discriminate].
    destruct (spaces_then_rest after) as [token|] eqn:Hrest; [|discriminate].
    destruct (JS.str_eqb token adminAuthToken) eqn:Heq; [|discriminate].
    intros _. apply str_eqb_eq in Heq. subst token.
    destruct (strip_prefix_ci_inv _ _ _ Hprefix) as (scheme & Hs & Hscheme).
    destruct (spaces_then_rest_inv _ _ Hrest)
      as (gap & -> & Hne & Hgap & Htok & Hline).
    exists scheme, gap. rewrite Hs. repeat split; assumption.
  - intros scheme gap Hscheme Hne Hgap Htok Hline Hfirst.
    unfold verifyAdminAccess, tokenMatch.
    destruct (scheme ++ gap ++ adminAuthToken) as [|c header] eqn:Hheader.
    { destruct scheme; [|discriminate]. discriminate Hscheme. }
    rewrite <- Hheader. rewrite (strip_prefix_ci_app _ _ _ Hscheme).
    rewrite spaces_then_rest_app; try assumption.
    + replace (JS.str_eqb adminAuthToken adminAuthToken) with true
        by (symmetry; now apply str_eqb_eq).
      reflexivity.
    + unfold rest_of_line. destruct adminAuthToken; [contradiction|].
      now rewrite Hline.
Qed.

Lemma verifyAdminAccess_bearer_witness :
  verifyAdminAccess (Some (JS.lit "bearer   admin-secret-token"))
    (JS.lit "admin-secret-token") = true.
Proof.
  apply (proj2 (verifyAdminAccess_bearer
                  (Some (JS.lit "bearer   admin-secret-token"))
                  (JS.lit "admin-secret-token"))
           (JS.lit "bearer") (JS.lit "   "));
    try reflexivity; try discriminate.
  intros c rest H. injection H as <- _. reflexivity.
Defined.
